(** * hierarchical_transformer: the record scanner, the table assembler
      and the validator, embedded from [processor.py] and [validation.py].

    Python values are carried as follows.
    - [str] is [string]; a character is a code point below 256, so the
      whitespace, digit and case tables below are Python's, restricted to
      that range.
    - [int] is [Z]; positions in a frame (what [iloc] takes) are [nat].
    - an [Optional] is an [option]; an exception is the [Raise] branch of
      [res].
    - a [pandas.DataFrame] is a [DataFrame] record: column labels and rows
      of cells.  Column labels are taken to be distinct and the row index
      to be the default [RangeIndex], so a row's label is its position.
    - frames are objects: the methods of [DataTransformer] that take or
      return a frame work on references into a store.  The scanner only
      reads its frame, so it is given as a function of the frame's value.
    - [self.errors] and [self.warnings] of the validator are a state that
      the checks thread; a check that raises leaves them as they are at
      the raise.
    - what belongs to pandas or to [datetime] and is not decided by the
      cells as carried here ([to_datetime], [strptime], the comparison of a
      column with a bound, [duplicated]) is a parameter. *)

From Stdlib Require Import ZArith Ascii String List Bool Lia.
From stdpp Require Import base option list gmap strings fin_maps.

Local Open Scope string_scope.
Local Open Scope nat_scope.
Local Open Scope list_scope.
Local Open Scope stdpp_scope.
Set Warnings "-clear-no-such-hyp".

(** ** Python string methods used by the source *)

Module PyStr.

Definition newline : ascii := "010"%char.
Definition tab : ascii := "009"%char.
Definition underscore : ascii := "_"%char.

(** [str.isspace] on one character: the code points below 256 that
    [str.strip()] removes. *)
Definition is_space (c : ascii) : bool :=
  let n := N_of_ascii c in
  ((9 <=? n) && (n <=? 13) || (28 <=? n) && (n <=? 32)
   || (n =? 133) || (n =? 160))%N.

(** [str.isdigit] on one character (decimal digits and the superscripts
    U+00B2, U+00B3, U+00B9). *)
Definition is_digit (c : ascii) : bool :=
  let n := N_of_ascii c in
  ((48 <=? n) && (n <=? 57) || (n =? 178) || (n =? 179) || (n =? 185))%N.

(** [str.lower] on one character: A-Z and the Latin-1 capitals.  On the
    code points below 256 [str.lower] maps each character to one
    character; above them it need not (U+0130 lowers to two code
    points), and such labels are outside this model. *)
Definition lower_char (c : ascii) : ascii :=
  let n := N_of_ascii c in
  if ((65 <=? n) && (n <=? 90)
      || (192 <=? n) && (n <=? 222) && negb (n =? 215))%N
  then ascii_of_N (n + 32) else c.

Fixpoint lower (s : string) : string :=
  match s with
  | "" => ""
  | String c t => String (lower_char c) (lower t)
  end.

Fixpoint lstrip (s : string) : string :=
  match s with
  | "" => ""
  | String c t => if is_space c then lstrip t else s
  end.

Fixpoint rstrip (s : string) : string :=
  match s with
  | "" => ""
  | String c t =>
      match rstrip t with
      | "" => if is_space c then "" else String c ""
      | r => String c r
      end
  end.

(** [s.strip()] *)
Definition strip (s : string) : string := rstrip (lstrip s).

(** [s.isdigit()]: non-empty and every character a digit. *)
Fixpoint all_chars (p : ascii → bool) (s : string) : bool :=
  match s with
  | "" => true
  | String c t => p c && all_chars p t
  end.

Definition isdigit (s : string) : bool :=
  match s with
  | "" => false
  | _ => all_chars is_digit s
  end.

(** [s.replace(old, new)] for a non-empty [old]: occurrences are taken
    left to right and do not overlap.  [skip] counts the characters of
    the occurrence just replaced that are still to be passed over. *)
Fixpoint replace_go (old new : string) (skip : nat) (s : string) : string :=
  match s with
  | "" => ""
  | String c t =>
      match skip with
      | S k => replace_go old new k t
      | O =>
          if String.prefix old s
          then new +:+ replace_go old new (String.length old - 1) t
          else String c (replace_go old new 0 t)
      end
  end.

Definition replace (old new s : string) : string := replace_go old new 0 s.

(** [re.sub('__+', '_', s)]: every maximal run of two or more underscores
    becomes one underscore.  [in_run] holds while the rest of a matched
    run is being consumed. *)
Fixpoint sub_underscores_go (in_run : bool) (s : string) : string :=
  match s with
  | "" => ""
  | String c t =>
      if in_run
      then if Ascii.eqb c underscore
           then sub_underscores_go true t
           else String c (sub_underscores_go false t)
      else if String.prefix "__" s
           then String underscore (sub_underscores_go true t)
           else String c (sub_underscores_go false t)
  end.

Definition sub_underscores (s : string) : string :=
  sub_underscores_go false s.

End PyStr.

(** ** [DataTransformer._clean_column_names], on one label *)

Definition nl : string := String PyStr.newline "".

Definition clean_column_name (s : string) : string :=
  PyStr.sub_underscores
    (PyStr.replace ":" ""
      (PyStr.replace "/" "_"
        (PyStr.replace "__" "_"
          (PyStr.replace " " "_"
            (PyStr.lower
              (PyStr.replace nl ""
                (PyStr.strip s))))))).

Definition _clean_column_names (columns : list string) : list string :=
  clean_column_name <$> columns.

(** ** Exceptions and results *)

(** [OutOfFuel] and [Dangling] are not Python exceptions: the first is the
    bound of the model's [while] loop being reached, the second a reference
    that the store does not hold.  Neither arises: the loop is given as
    much fuel as the frame has rows, and references come from the caller
    or from an allocation. *)
Inductive exn : Type :=
  | ValueError (msg : string)
  | IndexError
  | TypeError
  | AttributeError
  | OutOfFuel
  | Dangling.

Inductive res (A : Type) : Type :=
  | Ok (a : A)
  | Raise (e : exn).
Arguments Ok {A} a.
Arguments Raise {A} e.

Global Instance res_ret : MRet res := λ A a, Ok a.
Global Instance res_bind : MBind res := λ A B f m,
  match m with
  | Ok a => f a
  | Raise e => Raise e
  end.

(** ** Cells and frames *)

(** A cell is observed by the code through [pd.notnull]/[pd.isna], through
    [str()], and (validator only) through [isinstance(_, datetime)].
    [NaN] is any missing value; [Val s] is a scalar whose [str()] is [s];
    [Stamp s] is a datetime whose [str()] is [s].  What pandas computes
    from the values themselves (whether a column compares with a bound,
    which values repeat) is not decided by a cell as carried here, and the
    validator takes it as a parameter. *)
Inductive cell : Type :=
  | NaN
  | Val (s : string)
  | Stamp (s : string).

Global Instance cell_eq_dec : EqDecision cell.
Proof. solve_decision. Defined.

Definition notnull (c : cell) : bool :=
  match c with NaN => false | _ => true end.

Definition isna (c : cell) : bool := negb (notnull c).

Definition str (c : cell) : string :=
  match c with NaN => "nan" | Val s | Stamp s => s end.

Record DataFrame : Type := mkDataFrame {
  columns : list string;       (* df.columns, the labels in order *)
  rows : list (list cell)      (* the cells, row by row *)
}.

(** [len(df)] and [df.shape[1]] *)
Definition len (df : DataFrame) : nat := length (rows df).
Definition width (df : DataFrame) : nat := length (columns df).

(** The cell at a position of a row; a row shorter than the frame is
    padded with missing values, as the [DataFrame] constructor does. *)
Definition cell_of (row : list cell) (j : nat) : cell := default NaN (row !! j).

(** [df.iloc[i]] *)
Definition iloc_row (df : DataFrame) (i : nat) : res (list cell) :=
  match rows df !! i with
  | Some row => Ok row
  | None => Raise IndexError
  end.

(** [df.iloc[i, j]] *)
Definition iloc (df : DataFrame) (i j : nat) : res cell :=
  match rows df !! i with
  | Some row => if decide (j < width df) then Ok (cell_of row j) else Raise IndexError
  | None => Raise IndexError
  end.

(** [range(lo, hi)] for a non-negative [lo] *)
Definition range (lo : nat) (hi : Z) : list nat := seq lo (Z.to_nat hi - lo).

(** ** Configuration *)

Record TransformerConfig : Type := mkConfig {
  skip_rows : Z;
  drop_columns : option (list Z);
  date_columns : option (list string);
  identifier_field : option string;
  target_fields : option (list string);
  field_aliases : option (gmap string string);
  search_radius : Z;
  column_search_radius : Z
}.

(** The dataclass defaults. *)
Definition default_config : TransformerConfig :=
  mkConfig 0 None None None None None 10 5.

(** Truthiness of an optional string and of an optional list. *)
Definition truthy_str (s : option string) : bool :=
  match s with Some (String _ _) => true | _ => false end.
Definition truthy_list {A} (l : option (list A)) : bool :=
  match l with Some (_ :: _) => true | _ => false end.

Definition _validate_config (config : TransformerConfig) : res unit :=
  if negb (truthy_str (identifier_field config))
  then Raise (ValueError "identifier_field must be specified in config")
  else if negb (truthy_list (target_fields config))
  then Raise (ValueError "target_fields must be specified in config")
  else Ok tt.

(** ** The record scanner *)

(** A record: a Python dict from field name to value, in insertion order. *)
Definition record : Type := list (string * string).

Fixpoint dict_get (k : string) (d : record) : option string :=
  match d with
  | [] => None
  | (k', v) :: rest => if decide (k' = k) then Some v else dict_get k rest
  end.

(** [d[k] = v] *)
Fixpoint dict_set (k v : string) (d : record) : record :=
  match d with
  | [] => [(k, v)]
  | (k', v') :: rest =>
      if decide (k' = k) then (k', v) :: rest else (k', v') :: dict_set k v rest
  end.

(** Truthiness of a dict. *)
Definition truthy_dict (d : record) : bool :=
  match d with [] => false | _ => true end.

(** [{identifier} | {aliases.get(identifier, '')}], with
    [aliases = config.field_aliases or {}].  Without an identifier the
    set is [{None, ''}], and no cell text is [None]. *)
Definition valid_identifiers (config : TransformerConfig) : gset string :=
  let aliases := default ∅ (field_aliases config) in
  match identifier_field config with
  | Some identifier => {[identifier]} ∪ {[default "" (aliases !! identifier)]}
  | None => {[""]}
  end.

Definition _is_record_start (row : list cell) (config : TransformerConfig) : bool :=
  existsb (λ val, notnull val
                  && bool_decide (PyStr.strip (str val) ∈ valid_identifiers config))
          row.

(** [pd.notnull(value) and str(value).strip()], giving the stripped text. *)
Definition value_of (value : cell) : option string :=
  if notnull value
  then match PyStr.strip (str value) with
       | "" => None
       | s => Some s
       end
  else None.

(** A [for] loop over positions that returns at the first usable value. *)
Fixpoint first_value (get : nat → res cell) (idxs : list nat) : res (option string) :=
  match idxs with
  | [] => Ok None
  | i :: rest =>
      value ← get i;
      match value_of value with
      | Some s => Ok (Some s)
      | None => first_value get rest
      end
  end.

Definition is_label (field_aliases : gset string) (c : cell) : bool :=
  notnull c && bool_decide (PyStr.strip (str c) ∈ field_aliases).

(** The label loop: [for col in df.columns: ... field_col = col; break].
    Labels are taken to be distinct, so [row[col]] is the cell at [col]'s
    position and [get_loc] gives that position back. *)
Fixpoint find_field_col (field_aliases : gset string) (row : list cell)
    (cols : list nat) : option nat :=
  match cols with
  | [] => None
  | j :: rest =>
      if is_label field_aliases (cell_of row j) then Some j
      else find_field_col field_aliases row rest
  end.

Definition _find_field_value (df : DataFrame) (row_idx : nat)
    (field_aliases : gset string) (config : TransformerConfig)
    : res (option string) :=
  row ← iloc_row df row_idx;
  match find_field_col field_aliases row (seq 0 (width df)) with
  | None => Ok None
  | Some col_idx =>
      right ← first_value (λ col_offset, iloc df row_idx (col_idx + col_offset))
                (range 1 (Z.min (column_search_radius config)
                                (Z.of_nat (width df) - Z.of_nat col_idx)));
      match right with
      | Some s => Ok (Some s)
      | None =>
          first_value (λ k, iloc df k col_idx)
            (range (row_idx + 1)
                   (Z.min (Z.of_nat row_idx + search_radius config)
                          (Z.of_nat (len df))))
      end
  end.

(** [{field} ∪ {k for k, v in config.field_aliases.items() if v == field}] *)
Definition aliases_of (field : string) (config : TransformerConfig) : gset string :=
  match field_aliases config with
  | Some m => {[field]} ∪ dom (filter (λ kv, kv.2 = field) m)
  | None => {[field]}
  end.

(** The row loop of one field: [for row_offset in range(search_radius)]. *)
Fixpoint search_rows (df : DataFrame) (start_idx total_rows : nat)
    (field_aliases : gset string) (config : TransformerConfig)
    (offsets : list nat) : res (option string) :=
  match offsets with
  | [] => Ok None
  | row_offset :: rest =>
      let row_idx := start_idx + row_offset in
      if decide (total_rows ≤ row_idx) then Ok None
      else
        value ← _find_field_value df row_idx field_aliases config;
        match value with
        | Some s => Ok (Some s)
        | None => search_rows df start_idx total_rows field_aliases config rest
        end
  end.

(** The field loop: [for field in config.target_fields]. *)
Fixpoint fill_fields (df : DataFrame) (start_idx total_rows : nat)
    (config : TransformerConfig) (fields : list string) (rec : record)
    : res record :=
  match fields with
  | [] => Ok rec
  | field :: rest =>
      value ← search_rows df start_idx total_rows (aliases_of field config) config
                (range 0 (search_radius config));
      fill_fields df start_idx total_rows config rest
        match value with
        | Some s => dict_set field s rec
        | None => rec
        end
  end.

Definition _extract_single_record (df : DataFrame) (start_idx total_rows : nat)
    (config : TransformerConfig) : res record :=
  match target_fields config with
  | None => Raise TypeError
  | Some fields => fill_fields df start_idx total_rows config fields []
  end.

(** [for i in range(start_idx, total_rows)] *)
Fixpoint find_next_go (df : DataFrame) (total_rows : nat)
    (config : TransformerConfig) (idxs : list nat) : res nat :=
  match idxs with
  | [] => Ok total_rows
  | i :: rest =>
      row ← iloc_row df i;
      if _is_record_start row config then Ok i
      else find_next_go df total_rows config rest
  end.

Definition _find_next_record_start (df : DataFrame) (start_idx total_rows : nat)
    (config : TransformerConfig) : res nat :=
  find_next_go df total_rows config (range start_idx (Z.of_nat total_rows)).

(** The [while i < total_rows] loop; [fuel] bounds its iterations. *)
Fixpoint extract_loop (fuel : nat) (df : DataFrame) (config : TransformerConfig)
    (total_rows i : nat) (records : list record) : res (list record) :=
  if decide (total_rows ≤ i) then Ok records
  else
    match fuel with
    | O => Raise OutOfFuel
    | S fuel' =>
        row ← iloc_row df i;
        if _is_record_start row config then
          rec ← _extract_single_record df i total_rows config;
          let records' := if truthy_dict rec then records ++ [rec] else records in
          next ← _find_next_record_start df (i + 1) total_rows config;
          extract_loop fuel' df config total_rows next records'
        else extract_loop fuel' df config total_rows (i + 1) records
    end.

(** The scan of [_extract_records]: [records = []], [i = 0],
    [total_rows = len(df)], then the loop. *)
Definition extract_records (df : DataFrame) (config : TransformerConfig)
    : res (list record) :=
  extract_loop (len df) df config (len df) 0 [].

(** ** Frames as objects *)

(** A frame is a Python object: [transform] receives a reference to it, and
    the pandas calls either build a new object or assign into an existing
    one.  The store maps references to frames; the logger's output is kept
    beside it. *)

Definition ref : Type := positive.

Inductive log_event : Type :=
  | LogStart                        (* "Starting data transformation" *)
  | LogSkipped (n : Z)              (* "Skipped first {n} rows" *)
  | LogDropped (cols : list Z)      (* "Dropped specified columns: {cols}" *)
  | LogExtracted (n : nat)          (* "Extracted {n} records" *)
  | LogFinished.                    (* "Finished processing DataFrame" *)

Record world : Type := mkWorld {
  heap : gmap ref DataFrame;
  log : list log_event
}.

Definition M (A : Type) : Type := world → res A * world.

Global Instance M_ret : MRet M := λ A a w, (Ok a, w).
Global Instance M_bind : MBind M := λ A B f m w,
  match m w with
  | (Ok a, w') => f a w'
  | (Raise e, w') => (Raise e, w')
  end.

Definition lift {A} (r : res A) : M A := λ w, (r, w).

(** A new object holding [frame]. *)
Definition alloc (frame : DataFrame) : M ref := λ w,
  let l := fresh (dom (heap w)) in
  (Ok l, mkWorld (<[l := frame]> (heap w)) (log w)).

(** The frame behind a reference. *)
Definition load (l : ref) : M DataFrame := λ w,
  match heap w !! l with
  | Some frame => (Ok frame, w)
  | None => (Raise Dangling, w)
  end.

(** Assignment into the object behind a reference. *)
Definition store (l : ref) (frame : DataFrame) : M unit := λ w,
  (Ok tt, mkWorld (<[l := frame]> (heap w)) (log w)).

(** [self.logger.info(...)] *)
Definition info (e : log_event) : M unit := λ w,
  (Ok tt, mkWorld (heap w) (log w ++ [e])).

(** *** pandas operations on frame values *)

(** [l[k:]] *)
Definition slice_from {A} (k : Z) (l : list A) : list A :=
  if decide (0 ≤ k)%Z then drop (Z.to_nat k) l
  else drop (length l - Z.to_nat (- k)) l.

(** [df.iloc[k:]] and [.reset_index(drop=True)]; the row index is not
    carried, so the second is a copy. *)
Definition iloc_from (k : Z) (df : DataFrame) : DataFrame :=
  mkDataFrame (columns df) (slice_from k (rows df)).
Definition reset_index (df : DataFrame) : DataFrame :=
  mkDataFrame (columns df) (rows df).

(** [index[i]] with Python's negative positions. *)
Definition index_at (labels : list string) (i : Z) : res string :=
  let p := if decide (0 ≤ i)%Z then i else (Z.of_nat (length labels) + i)%Z in
  if decide (0 ≤ p)%Z
  then match labels !! Z.to_nat p with
       | Some label => Ok label
       | None => Raise IndexError
       end
  else Raise IndexError.

(** [df.columns[positions]] *)
Fixpoint index_take (labels : list string) (positions : list Z) : res (list string) :=
  match positions with
  | [] => Ok []
  | i :: rest =>
      label ← index_at labels i;
      others ← index_take labels rest;
      Ok (label :: others)
  end.

(** The positions whose label passes [keep], and the frame cut down to a
    list of positions. *)
Definition positions_where (keep : nat → bool) (df : DataFrame) : list nat :=
  filter (λ j, keep j = true) (seq 0 (width df)).
Definition select_positions (ps : list nat) (df : DataFrame) : DataFrame :=
  mkDataFrame ((λ j, default "" (columns df !! j)) <$> ps)
              ((λ row, cell_of row <$> ps) <$> rows df).

(** [df.drop(labels, axis=1)] *)
Definition drop_labels (labels : list string) (df : DataFrame) : DataFrame :=
  select_positions
    (positions_where (λ j, bool_decide (default "" (columns df !! j) ∉ labels)) df)
    df.

(** [df.dropna(axis=1, how='all')] *)
Definition dropna_columns (df : DataFrame) : DataFrame :=
  select_positions
    (positions_where (λ j, existsb (λ row, notnull (cell_of row j)) (rows df)) df)
    df.

(** [pd.DataFrame(records)]: the columns are the keys in order of first
    appearance; a key that a record lacks gives a missing cell. *)
Fixpoint add_keys (keys : list string) (rec : record) : list string :=
  match rec with
  | [] => keys
  | (k, _) :: rest =>
      add_keys (if bool_decide (k ∈ keys) then keys else keys ++ [k]) rest
  end.
Definition keys_of (records : list record) : list string :=
  foldl add_keys [] records.
Definition frame_of_records (records : list record) : DataFrame :=
  let keys := keys_of records in
  mkDataFrame keys
    ((λ rec, (λ k, match dict_get k rec with
                   | Some v => Val v
                   | None => NaN
                   end) <$> keys) <$> records).

(** [df.columns.str], for the frame [pd.DataFrame(records)].  The columns of
    a frame built from at least one record are the keys, an index of
    strings.  The columns of [pd.DataFrame([])] are an empty [RangeIndex]
    (pandas 2 and later), and the [.str] accessor of an index that is not
    of strings raises [AttributeError]. *)
Definition str_accessor (records : list record) (frame : DataFrame)
    : res (list string) :=
  match records with
  | [] => Raise AttributeError
  | _ :: _ => Ok (columns frame)
  end.

(** [df[col]] for a label that occurs once: the cells of its column.  With
    a repeated label pandas hands a frame to [to_datetime], which raises. *)
Fixpoint position_of (col : string) (labels : list string) : option nat :=
  match labels with
  | [] => None
  | l :: rest => if decide (l = col) then Some 0 else S <$> position_of col rest
  end.
Definition series_at (j : nat) (df : DataFrame) : list cell :=
  (λ row, cell_of row j) <$> rows df.
Definition get_column (col : string) (df : DataFrame) : res (list cell) :=
  match position_of col (columns df) with
  | Some j =>
      if bool_decide (col ∈ drop (S j) (columns df))
      then Raise (ValueError "cannot assemble with duplicate keys")
      else Ok (series_at j df)
  | None => Raise IndexError
  end.

(** [df[col] = series] for a label that occurs once. *)
Definition pad_row (n : nat) (row : list cell) : list cell :=
  cell_of row <$> seq 0 n.
Definition set_column (col : string) (series : list cell) (df : DataFrame)
    : DataFrame :=
  match position_of col (columns df) with
  | Some j =>
      mkDataFrame (columns df)
        (imap (λ i row, <[j := cell_of series i]> (pad_row (width df) row)) (rows df))
  | None => df
  end.

(** *** The methods of [DataTransformer] *)

Section Transformer.

(** [pd.to_datetime(series, errors='coerce')] belongs to pandas. *)
Variable to_datetime : list cell → list cell.

Definition _apply_initial_transformations (df : ref) (config : TransformerConfig)
    : M ref :=
  df ← (if decide (skip_rows config ≠ 0%Z) then
          frame ← load df;
          sliced ← alloc (iloc_from (skip_rows config) frame);
          frame ← load sliced;
          df ← alloc (reset_index frame);
          info (LogSkipped (skip_rows config));;
          mret df
        else mret df);
  match drop_columns config with
  | Some (c :: cs) =>
      frame ← load df;
      labels ← lift (index_take (columns frame) (c :: cs));
      df ← alloc (drop_labels labels frame);
      info (LogDropped (c :: cs));;
      mret df
  | _ => mret df
  end.

(** [_extract_records]: the scan, then the log line. *)
Definition _extract_records (df : ref) (config : TransformerConfig)
    : M (list record) :=
  frame ← load df;
  records ← lift (extract_records frame config);
  info (LogExtracted (length records));;
  mret records.

(** [for col in config.date_columns: if col in df.columns: df[col] = ...] *)
Fixpoint convert_dates (df : ref) (cols : list string) : M unit :=
  match cols with
  | [] => mret tt
  | col :: rest =>
      frame ← load df;
      (if bool_decide (col ∈ columns frame) then
         series ← lift (get_column col frame);
         store df (set_column col (to_datetime series) frame)
       else mret tt);;
      convert_dates df rest
  end.

Definition _create_final_dataframe (records : list record)
    (config : TransformerConfig) : M ref :=
  df ← alloc (frame_of_records records);
  frame ← load df;
  labels ← lift (str_accessor records frame);
  store df (mkDataFrame (_clean_column_names labels) (rows frame));;
  match date_columns config with
  | Some (c :: cs) => convert_dates df (c :: cs)
  | _ => mret tt
  end;;
  frame ← load df;
  df ← alloc (dropna_columns frame);
  info LogFinished;;
  mret df.

Definition transform (df : ref) (config : TransformerConfig) : M ref :=
  info LogStart;;
  lift (_validate_config config);;
  df ← _apply_initial_transformations df config;
  records ← _extract_records df config;
  processed_df ← _create_final_dataframe records config;
  mret processed_df.

End Transformer.
(** ** [validation.py] *)

Section Validator.

(** What the validator takes from outside: whether [datetime.strptime(s,
    fmt)] succeeds; the type of a bound; the comparisons [series < bound]
    and [series > bound] of pandas on a column, which give a boolean mask
    with one entry per row or raise (a [TypeError] when the column holds a
    text and the bound is a number); and [series.duplicated()], the mask
    of the rows whose value pandas has met on an earlier row. *)
Variable strptime_ok : string → string → bool.
Variable bound : Type.
Variable series_lt series_gt : list cell → bound → res (list bool).
Variable duplicated : list cell → list bool.

(** An error message, by the values its f-string is built from.  Row labels
    are positions (default index). *)
Inductive error_message : Type :=
  | MissingColumns (missing : list string)
      (* "Missing required columns: {missing}" *)
  | InvalidDates (column date_format : string) (invalid : list (nat * cell))
      (* "Invalid date format in column ..." with "Row {idx}: {value}" items *)
  | NonNumeric (column : string) (at_rows : list nat)
      (* "Non-numeric values found in column '{column}' at rows: ..." *)
  | BelowMinimum (column : string) (min_value : bound) (at_rows : list nat)
  | AboveMaximum (column : string) (max_value : bound) (at_rows : list nat)
  | Duplicates (column : string) (at_rows : list nat)
  | CustomFailure (text : string).

Record ValidationResult : Type := mkResult {
  is_valid : bool;
  errors : list error_message;
  warnings : list error_message
}.

(** The instance: [self.errors] and [self.warnings]. *)
Record DataValidator : Type := mkValidator {
  self_errors : list error_message;
  self_warnings : list error_message
}.

(** A method of the validator returns or raises, and leaves the instance
    in some state either way.  The only [try] of the class is the one
    around [strptime]; what any other call raises leaves the method. *)
Definition V (A : Type) : Type := DataValidator → res A * DataValidator.

Global Instance V_ret : MRet V := λ A a self, (Ok a, self).
Global Instance V_bind : MBind V := λ A B f m self,
  match m self with
  | (Ok a, self') => f a self'
  | (Raise e, self') => (Raise e, self')
  end.

(** A call into pandas: its value, or its exception. *)
Definition raising {A} (r : res A) : V A := λ self, (r, self).

(** [self.errors.append(e)] *)
Definition append_error (e : error_message) : V unit := λ self,
  (Ok tt, mkValidator (self_errors self ++ [e]) (self_warnings self)).

(** A [for] loop whose body is a method step. *)
Fixpoint for_each {A} (l : list A) (body : A → V unit) : V unit :=
  match l with
  | [] => mret tt
  | x :: rest => body x;; for_each rest body
  end.

(** [df[column]] with the row labels: [(idx, value)] pairs of the first
    column carrying the label. *)
Definition column_items (column : string) (df : DataFrame) : list (nat * cell) :=
  match position_of column (columns df) with
  | Some j => imap (λ i row, (i, cell_of row j)) (rows df)
  | None => []
  end.

(** [df[column]] as a series: the cells, top to bottom. *)
Definition column_cells (column : string) (df : DataFrame) : list cell :=
  (column_items column df).*2.

(** The row labels at which [bad] holds: [df[mask].index.tolist()]. *)
Definition rows_where (bad : cell → bool) (items : list (nat * cell)) : list nat :=
  fst <$> filter (λ it, bad it.2 = true) items.

(** The same for a mask that pandas computed: the positions where it
    holds. *)
Definition masked_rows (mask : list bool) : list nat :=
  filter (λ i, mask !! i = Some true) (seq 0 (length mask)).

Definition _validate_required_columns (df : DataFrame)
    (required_columns : list string) : V unit :=
  let missing_columns :=
    filter (λ col, col ∉ columns df) required_columns in
  match missing_columns with
  | [] => mret tt
  | _ => append_error (MissingColumns missing_columns)
  end.

(** The body of the [try]: a value fails when it is not null, not already a
    datetime, and [strptime] raises on its text. *)
Definition invalid_date (date_format : string) (value : cell) : bool :=
  match value with
  | NaN => false
  | Stamp _ => false
  | Val s => negb (strptime_ok s date_format)
  end.

Definition _validate_dates (df : DataFrame)
    (date_formats : list (string * string)) : V unit :=
  for_each date_formats (λ '(column, date_format),
    if bool_decide (column ∈ columns df) then
      let invalid_dates :=
        filter (λ it, invalid_date date_format it.2 = true)
               (column_items column df) in
      match invalid_dates with
      | [] => mret tt
      | _ => append_error (InvalidDates column date_format invalid_dates)
      end
    else mret tt).

(** [pd.isna(x) or str(x).replace('.', '').replace('-', '').isdigit()] *)
Definition numeric_ok (x : cell) : bool :=
  isna x
  || PyStr.isdigit (PyStr.replace "-" "" (PyStr.replace "." "" (str x))).

Definition _validate_numeric_columns (df : DataFrame)
    (numeric_columns : list string) : V unit :=
  for_each numeric_columns (λ column,
    if bool_decide (column ∈ columns df) then
      let non_numeric :=
        rows_where (λ x, negb (numeric_ok x)) (column_items column df) in
      match non_numeric with
      | [] => mret tt
      | _ => append_error (NonNumeric column non_numeric)
      end
    else mret tt).

(** [df[df[column] < min_value]]: the comparison is evaluated first, and
    what it raises leaves the method. *)
Definition _validate_min_values (df : DataFrame)
    (min_values : list (string * bound)) : V unit :=
  for_each min_values (λ '(column, min_value),
    if bool_decide (column ∈ columns df) then
      mask ← raising (series_lt (column_cells column df) min_value);
      let invalid_values := masked_rows mask in
      match invalid_values with
      | [] => mret tt
      | _ => append_error (BelowMinimum column min_value invalid_values)
      end
    else mret tt).

Definition _validate_max_values (df : DataFrame)
    (max_values : list (string * bound)) : V unit :=
  for_each max_values (λ '(column, max_value),
    if bool_decide (column ∈ columns df) then
      mask ← raising (series_gt (column_cells column df) max_value);
      let invalid_values := masked_rows mask in
      match invalid_values with
      | [] => mret tt
      | _ => append_error (AboveMaximum column max_value invalid_values)
      end
    else mret tt).

(** [df[df[column].duplicated()]] *)
Definition _validate_unique_columns (df : DataFrame)
    (unique_columns : list string) : V unit :=
  for_each unique_columns (λ column,
    if bool_decide (column ∈ columns df) then
      let duplicates := masked_rows (duplicated (column_cells column df)) in
      match duplicates with
      | [] => mret tt
      | _ => append_error (Duplicates column duplicates)
      end
    else mret tt).

(** A custom validation: a dict with an optional ['function'], whose result
    is a dict with optional ['valid'] and ['message']. *)
Record custom_result : Type := mkCustomResult {
  valid : option bool;
  message : option string
}.
Record custom_validation : Type := mkCustom {
  function : option (DataFrame → custom_result)
}.

Definition _run_custom_validations (df : DataFrame)
    (custom_validations : list custom_validation) : V unit :=
  for_each custom_validations (λ validation,
    match function validation with
    | Some func =>
        let result := func df in
        if negb (default true (valid result))
        then append_error
               (CustomFailure (default "Custom validation failed" (message result)))
        else mret tt
    | None => mret tt
    end).

(** The [rules] dict: each key is there or not. *)
Record Rules : Type := mkRules {
  required_columns : option (list string);
  date_format : option (list (string * string));
  numeric_columns : option (list string);
  min_value : option (list (string * bound));
  max_value : option (list (string * bound));
  unique_columns : option (list string);
  custom_validations : option (list custom_validation)
}.

(** [if key in rules: self._validate_...(df, rules[key])] *)
Definition when_present {A} (rule : option A) (check : A → V unit) : V unit :=
  match rule with
  | Some a => check a
  | None => mret tt
  end.

(** [self.errors = []; self.warnings = []] *)
Definition reset : V unit := λ _, (Ok tt, mkValidator [] []).

(** [ValidationResult(is_valid=len(self.errors) == 0, errors=self.errors,
    warnings=self.warnings)] *)
Definition make_result : V ValidationResult := λ self,
  (Ok (mkResult (bool_decide (length (self_errors self) = 0))
                (self_errors self) (self_warnings self)), self).

Definition validate (df : DataFrame) (rules : Rules) : V ValidationResult :=
  reset;;
  when_present (required_columns rules) (_validate_required_columns df);;
  when_present (date_format rules) (_validate_dates df);;
  when_present (numeric_columns rules) (_validate_numeric_columns df);;
  when_present (min_value rules) (_validate_min_values df);;
  when_present (max_value rules) (_validate_max_values df);;
  when_present (unique_columns rules) (_validate_unique_columns df);;
  when_present (custom_validations rules) (_run_custom_validations df);;
  make_result.

End Validator.

Arguments MissingColumns {bound} missing.
Arguments InvalidDates {bound} column date_format invalid.
Arguments NonNumeric {bound} column at_rows.
Arguments BelowMinimum {bound} column min_value at_rows.
Arguments AboveMaximum {bound} column max_value at_rows.
Arguments Duplicates {bound} column at_rows.
Arguments CustomFailure {bound} text.
Arguments mkResult {bound} is_valid errors warnings.
Arguments is_valid {bound} v.
Arguments errors {bound} v.
Arguments warnings {bound} v.
Arguments mkValidator {bound} self_errors self_warnings.
Arguments self_errors {bound} d.
Arguments self_warnings {bound} d.
Arguments raising {bound A} r.
Arguments append_error {bound} e.
Arguments for_each {bound A} l body.
Arguments when_present {bound A} rule check.
Arguments reset {bound}.
Arguments make_result {bound}.
Arguments mkRules {bound}.
Arguments required_columns {bound} r.
Arguments date_format {bound} r.
Arguments numeric_columns {bound} r.
Arguments min_value {bound} r.
Arguments max_value {bound} r.
Arguments unique_columns {bound} r.
Arguments custom_validations {bound} r.
Arguments _validate_required_columns {bound} df required_columns.
Arguments _validate_numeric_columns {bound} df numeric_columns.
Arguments _validate_unique_columns {bound} duplicated df unique_columns.
Arguments _run_custom_validations {bound} df custom_validations.
Arguments _validate_min_values {bound} series_lt df min_values.
Arguments _validate_max_values {bound} series_gt df max_values.
Arguments _validate_dates strptime_ok {bound} df date_formats.
Arguments validate strptime_ok {bound} series_lt series_gt duplicated df rules.
(** * Vocabulary of the properties *)

(** ** What a cell offers to the scanner *)

(** The cell of the grid at row [i], column [j]. *)
Definition cell_at (df : DataFrame) (i j : nat) : cell :=
  cell_of (default [] (rows df !! i)) j.

(** [c] is non-null and its trimmed text is the non-empty [v]. *)
Definition has_text (c : cell) (v : string) : Prop :=
  notnull c = true ∧ PyStr.strip (str c) = v ∧ v ≠ "".

(** [c] is null, or nothing is left of it after trimming. *)
Definition blank (c : cell) : Prop :=
  notnull c = false ∨ PyStr.strip (str c) = "".

(** [c] is non-null and its trimmed text is one of [names]. *)
Definition labelled (names : gset string) (c : cell) : Prop :=
  notnull c = true ∧ PyStr.strip (str c) ∈ names.

(** ** The field search, as the specification words it *)

Section FieldValueSpec.
Variables (df : DataFrame) (row_idx : nat) (names : gset string)
          (config : TransformerConfig).

(** [col] is the label column of the row: the first column whose cell is
    labelled with one of [names]. *)
Definition label_column (col : nat) : Prop :=
  col < width df
  ∧ labelled names (cell_at df row_idx col)
  ∧ ∀ j, j < col → ¬ labelled names (cell_at df row_idx j).

(** One past the last offset of the rightward scan, and one past the last
    row of the downward scan. *)
Definition right_end (col : nat) : Z :=
  Z.min (column_search_radius config) (Z.of_nat (width df) - Z.of_nat col).
Definition down_end : Z :=
  Z.min (Z.of_nat row_idx + search_radius config) (Z.of_nat (len df)).

Definition right_blank (col : nat) : Prop :=
  ∀ o, 1 ≤ o → (Z.of_nat o < right_end col)%Z →
       blank (cell_at df row_idx (col + o)).
Definition down_blank (col : nat) : Prop :=
  ∀ k, row_idx + 1 ≤ k → (Z.of_nat k < down_end)%Z → blank (cell_at df k col).

Inductive field_value_spec : option string → Prop :=
  | fv_no_label :
      (∀ j, j < width df → ¬ labelled names (cell_at df row_idx j)) →
      field_value_spec None
  | fv_right col o v :
      label_column col →
      1 ≤ o → (Z.of_nat o < right_end col)%Z →
      has_text (cell_at df row_idx (col + o)) v →
      (∀ o', 1 ≤ o' < o → blank (cell_at df row_idx (col + o'))) →
      field_value_spec (Some v)
  | fv_down col k v :
      label_column col →
      right_blank col →
      row_idx + 1 ≤ k → (Z.of_nat k < down_end)%Z →
      has_text (cell_at df k col) v →
      (∀ k', row_idx + 1 ≤ k' < k → blank (cell_at df k' col)) →
      field_value_spec (Some v)
  | fv_nothing col :
      label_column col → right_blank col → down_blank col →
      field_value_spec None.

End FieldValueSpec.

(** ** The row window of one field *)

(** Row [k] lies in the window that starts at [start_idx]. *)
Definition in_window (df : DataFrame) (config : TransformerConfig)
    (start_idx k : nat) : Prop :=
  start_idx ≤ k ∧ (Z.of_nat k < Z.of_nat start_idx + search_radius config)%Z
  ∧ k < len df.

(** [v] is what the first row of the window with a value for [field] gives. *)
Definition first_in_window (df : DataFrame) (config : TransformerConfig)
    (start_idx : nat) (field v : string) : Prop :=
  ∃ k, in_window df config start_idx k
       ∧ _find_field_value df k (aliases_of field config) config = Ok (Some v)
       ∧ ∀ k', start_idx ≤ k' < k →
               _find_field_value df k' (aliases_of field config) config = Ok None.

(** No row of the window has a value for [field]. *)
Definition none_in_window (df : DataFrame) (config : TransformerConfig)
    (start_idx : nat) (field : string) : Prop :=
  ∀ k, in_window df config start_idx k →
       _find_field_value df k (aliases_of field config) config = Ok None.

(** What the row loop of [field] ends with. *)
Definition searched (df : DataFrame) (start_idx : nat) (config : TransformerConfig)
    (field : string) : res (option string) :=
  search_rows df start_idx (len df) (aliases_of field config) config
    (range 0 (search_radius config)).

(** ** Record starts *)

(** Row [i] of the grid is a record start. *)
Definition is_start (df : DataFrame) (config : TransformerConfig) (i : nat) : bool :=
  match rows df !! i with
  | Some row => _is_record_start row config
  | None => false
  end.

(** The rows that are record starts, top to bottom. *)
Definition record_starts (df : DataFrame) (config : TransformerConfig) : list nat :=
  filter (λ i, is_start df config i = true) (seq 0 (len df)).

(** The record extracted at row [i]. *)
Definition record_at (df : DataFrame) (config : TransformerConfig) (i : nat) : record :=
  match _extract_single_record df i (len df) config with
  | Ok rec => rec
  | Raise _ => []
  end.

(** The alias set of the identifier as the specification words it: the keys
    of [field_aliases] that map to the identifier, with the identifier. *)
Definition identifier_names (config : TransformerConfig) : gset string :=
  match identifier_field config with
  | Some identifier => aliases_of identifier config
  | None => ∅
  end.

(** ** Numerals *)

(** Digits with at most one ['.'] among them, and at least one digit. *)
Fixpoint decimal_body (seen_digit seen_dot : bool) (s : string) : bool :=
  match s with
  | "" => seen_digit
  | String c t =>
      if PyStr.is_digit c then decimal_body true seen_dot t
      else if Ascii.eqb c "."%char
           then negb seen_dot && decimal_body seen_digit true t
           else false
  end.

(** A signed decimal numeral: an optional leading ['-'], then the body. *)
Definition signed_decimal (s : string) : bool :=
  match s with
  | String c t =>
      if Ascii.eqb c "-"%char then decimal_body false false t
      else decimal_body false false s
  | "" => false
  end.

(** ** The store *)

(** What [m], started in a world satisfying [pre], leaves behind: [post]
    when it returns, [epost] when it raises. *)
Definition hoare {A} (pre : world → Prop) (m : M A)
    (post : A → world → Prop) (epost : exn → world → Prop) : Prop :=
  ∀ w, pre w →
    match m w with
    | (Ok a, w') => post a w'
    | (Raise e, w') => epost e w'
    end.

(** ** The validator *)

(** What a check reports when it runs on its own, from empty lists, and
    how it ends there. *)
Definition reported {bound} (check : V bound ()) : list (error_message bound) :=
  self_errors (check (mkValidator [] [])).2.
Definition outcome {bound} (check : V bound ()) : res () :=
  (check (mkValidator [] [])).1.

(** A check returns, and only appends to [self.errors]. *)
Definition appends {bound} (check : V bound ()) : Prop :=
  ∀ self, check self =
    (Ok tt, mkValidator (self_errors self ++ reported check) (self_warnings self)).

(** A check only appends to [self.errors], whether it returns or raises,
    and what the instance held before does not change how it ends. *)
Definition steady {bound} (check : V bound ()) : Prop :=
  ∀ self, check self =
    (outcome check,
     mkValidator (self_errors self ++ reported check) (self_warnings self)).

(** What a rule category reports, and how it ends: with nothing and by
    returning when its key is absent. *)
Definition category {bound A} (rule : option A) (check : A → V bound ())
    : list (error_message bound) :=
  match rule with
  | Some a => reported (check a)
  | None => []
  end.
Definition category_outcome {bound A} (rule : option A) (check : A → V bound ())
    : res () :=
  match rule with
  | Some a => outcome (check a)
  | None => Ok tt
  end.

(** One round of a bound check, for either bound: the comparison of a
    column that the table has, then at most one error. *)
Definition bound_round {bound} (df : DataFrame)
    (compare : list cell → bound → res (list bool))
    (err : string → bound → list nat → error_message bound)
    (column : string) (b : bound) : V bound () :=
  if bool_decide (column ∈ columns df) then
    mask ← raising (compare (column_cells column df) b);
    match masked_rows mask with
    | [] => mret tt
    | _ :: _ => append_error (err column b (masked_rows mask))
    end
  else mret tt.

(** The comparison of every column that a bound rule lists and the table
    has gives a mask. *)
Definition comparable {bound} (compare : list cell → bound → res (list bool))
    (df : DataFrame) (bounds : option (list (string * bound))) : Prop :=
  ∀ column b, (column, b) ∈ default [] bounds → column ∈ columns df →
    ∃ mask, compare (column_cells column df) b = Ok mask.

(** The errors of one [validate] call, category by category. *)
Definition all_reported {bound} (strptime_ok : string → string → bool)
    (series_lt series_gt : list cell → bound → res (list bool))
    (duplicated : list cell → list bool) (df : DataFrame)
    (rules : Rules bound) : list (error_message bound) :=
  category (required_columns rules) (_validate_required_columns df)
  ++ category (date_format rules) (_validate_dates strptime_ok df)
  ++ category (numeric_columns rules) (_validate_numeric_columns df)
  ++ category (min_value rules) (_validate_min_values series_lt df)
  ++ category (max_value rules) (_validate_max_values series_gt df)
  ++ category (unique_columns rules) (_validate_unique_columns duplicated df)
  ++ category (custom_validations rules) (_run_custom_validations df).

(** ** Column labels *)

(** The first and last characters of a label are not whitespace. *)
Definition trimmed (s : string) : Prop := PyStr.strip s = s.

Fixpoint mentions (c : ascii) (s : string) : bool :=
  match s with
  | "" => false
  | String a t => Ascii.eqb a c || mentions c t
  end.

(** The label begins with an underscore; no two underscores are adjacent. *)
Definition starts_underscore (s : string) : bool :=
  match s with
  | String c _ => Ascii.eqb c PyStr.underscore
  | "" => false
  end.

Fixpoint no_double_underscore (s : string) : bool :=
  match s with
  | "" => true
  | String c t =>
      negb (Ascii.eqb c PyStr.underscore && starts_underscore t)
      && no_double_underscore t
  end.

(** A character other than [c]. *)
Definition is_not (c : ascii) : ascii → bool := λ a, negb (Ascii.eqb a c).

(** A character that the cleaning steps after the trim leave alone. *)
Definition settled (c : ascii) : bool :=
  negb (Ascii.eqb c PyStr.newline) && negb (Ascii.eqb c " "%char)
  && negb (Ascii.eqb c "/"%char) && negb (Ascii.eqb c ":"%char)
  && Ascii.eqb (PyStr.lower_char c) c.

(** The cleaning steps after the trim. *)
Definition clean_stripped (s : string) : string :=
  PyStr.sub_underscores
    (PyStr.replace ":" ""
      (PyStr.replace "/" "_"
        (PyStr.replace "__" "_"
          (PyStr.replace " " "_"
            (PyStr.lower (PyStr.replace nl "" s)))))).

(** The label begins with whitespace; its last character, or [d] when it is
    empty. *)
Definition starts_space (s : string) : bool :=
  match s with
  | String c _ => PyStr.is_space c
  | "" => false
  end.

Fixpoint last_or (d : ascii) (s : string) : ascii :=
  match s with
  | "" => d
  | String c t => last_or c t
  end.

(** ** Objects that a computation must leave alone *)

(** The objects of [P] are in the store as they were, and the references of
    [S] are live. *)
Definition kept (P : gmap ref DataFrame) (S : gset ref) (w : world) : Prop :=
  P ⊆ heap w ∧ S ⊆ dom (heap w).

(** An exception of Python, raised with the objects of [P] as they were. *)
Definition benign (P : gmap ref DataFrame) (e : exn) (w : world) : Prop :=
  P ⊆ heap w ∧ e ≠ Dangling ∧ e ≠ OutOfFuel.

(** [r] does not raise one of the two exceptions of the model. *)
Definition pythonic {A} (r : res A) : Prop :=
  r ≠ Raise Dangling ∧ r ≠ Raise OutOfFuel.
(** *** The repository's test grid *)

Definition text_row (l : list string) : list cell := Val <$> l.

Definition sample_data : DataFrame :=
  mkDataFrame ["0"; "1"; "2"; "3"; "4"]
    (text_row <$>
      [ [""; ""; ""; ""; ""];
        [""; ""; ""; ""; ""];
        ["Customer ID"; "12345"; ""; ""; ""];
        ["Name"; "John Doe"; ""; ""; ""];
        ["Address"; "123 Main St"; ""; ""; ""];
        ["Order Date"; "2024-01-15"; ""; ""; ""];
        ["Total"; "500.00"; ""; ""; ""];
        [""; ""; ""; ""; ""];
        ["Customer ID"; "12346"; ""; ""; ""];
        ["Name"; "Jane Smith"; ""; ""; ""];
        ["Address"; "456 Oak Ave"; ""; ""; ""];
        ["Order Date"; "2024-01-16"; ""; ""; ""];
        ["Total"; "750.50"; ""; ""; ""] ]).

Definition basic_config : TransformerConfig :=
  mkConfig 2 None (Some ["Order Date"]) (Some "Customer ID")
    (Some ["Customer ID"; "Name"; "Address"; "Order Date"; "Total"])
    None 10 5.

Definition three_rows : DataFrame :=
  mkDataFrame ["0"; "1"]
    (text_row <$> [ ["Customer ID"; "12345"]; ["Name"; "John Doe"];
                    ["Total"; "500.00"] ]).

Definition three_config (radius : Z) : TransformerConfig :=
  mkConfig 0 None None (Some "Customer ID")
    (Some ["Customer ID"; "Name"; "Total"]) None radius 5.


(** An identifier row with nothing to extract. *)
Definition lone_identifier : DataFrame :=
  mkDataFrame ["0"] [text_row ["Customer ID"]].

Definition name_only_config : TransformerConfig :=
  mkConfig 0 None None (Some "Customer ID") (Some ["Name"]) None 10 5.

(** The configuration of [test_field_aliases]. *)
Definition alias_config : TransformerConfig :=
  mkConfig 0 None None (Some "Customer ID")
    (Some ["Customer ID"; "Name"; "Total"])
    (Some (<["Customer Number" := "Customer ID"]>
             (<["Full Name" := "Name"]> {["Amount" := "Total"]})))
    10 5.

(** [pd.DataFrame([])] *)
Definition empty_frame : DataFrame := mkDataFrame [] [].

(** A world whose only object is [frame], at reference 1. *)
Definition world_of (frame : DataFrame) : world :=
  mkWorld {[1%positive := frame]} [].

(** A one-column table and the rule set of [test_numeric_validation]. *)
Definition amounts (cells : list string) : DataFrame :=
  mkDataFrame ["amount"] ((λ s, [Val s]) <$> cells).

Definition numeric_rules : Rules Z :=
  mkRules None None (Some ["amount"]) None None None None.

Definition required_rules : Rules Z :=
  mkRules (Some ["amount"]) None None None None None None.

(** Stand-ins for the collaborators of pandas and [datetime], for rule
    sets that do not call them. *)
Definition no_dates (series : list cell) : list cell := series.
Definition any_format (s fmt : string) : bool := true.
Definition never (series : list cell) (b : Z) : res (list bool) :=
  Ok ((λ _, false) <$> series).
Definition no_repeats (series : list cell) : list bool :=
  (λ _, false) <$> series.

(** The comparison of pandas between a column of texts and missing values
    and a number: a missing value compares false, and a text raises
    ([TypeError: '<' not supported between instances of 'str' and
    'float']). *)
Fixpoint text_compare (series : list cell) (b : Z) : res (list bool) :=
  match series with
  | [] => Ok []
  | NaN :: rest => mask ← text_compare rest b; Ok (false :: mask)
  | _ :: rest => Raise TypeError
  end.

(** A table with a column of texts and a column without values, and rule
    sets that bound one or the other; the first has a custom validation
    that always fails. *)
Definition notes : DataFrame :=
  mkDataFrame ["note"; "amount"] [[Val "late"; NaN]; [Val "paid"; NaN]].
Definition note_rules : Rules Z :=
  mkRules (Some ["id"]) None None (Some [("note", 0%Z)]) None None
    (Some [mkCustom (Some (λ _, mkCustomResult (Some false) None))]).
Definition amount_rules : Rules Z :=
  mkRules (Some ["id"]) None None (Some [("amount", 0%Z)])
    (Some [("amount", 9%Z)]) None None.

(** A label with a value to its right and another below it, and one with
    a value below only. *)
Definition right_and_down : DataFrame :=
  mkDataFrame ["0"; "1"; "2"]
    (text_row <$> [ ["Name"; " "; "Right"]; ["Down"; ""; ""] ]).
Definition down_only : DataFrame :=
  mkDataFrame ["0"; "1"; "2"]
    (text_row <$> [ ["Name"; " "; ""]; [""; ""; ""]; [" Down "; ""; ""] ]).
(** ** The table methods as functions of frame values *)

(** The frame that the scan is given: the grid after the row skip and the
    column drop of [_apply_initial_transformations]. *)
Definition prepared (config : TransformerConfig) (grid : DataFrame)
    : res DataFrame :=
  let skipped :=
    if decide (skip_rows config ≠ 0%Z)
    then iloc_from (skip_rows config) grid else grid in
  match drop_columns config with
  | Some (c :: cs) =>
      labels ← index_take (columns skipped) (c :: cs);
      Ok (drop_labels labels skipped)
  | _ => Ok skipped
  end.

(** The rows that Python's [l[k:]] leaves out of a list of [n] items: the
    first [k], or all but the last [-k] when [k] is negative. *)
Definition rows_skipped (k : Z) (n : nat) : nat :=
  if decide (0 ≤ k)%Z then Z.to_nat k else n - Z.to_nat (- k).

(** The label at a Python position of a column index, counted from the
    end when negative; none when the position is outside the index. *)
Definition label_at (labels : list string) (p : Z) : option string :=
  if decide (0 ≤ p)%Z then labels !! Z.to_nat p
  else if decide (0 ≤ Z.of_nat (length labels) + p)%Z
       then labels !! Z.to_nat (Z.of_nat (length labels) + p)
       else None.

(** The log lines of those two steps. *)
Definition prepared_log (config : TransformerConfig) : list log_event :=
  (if decide (skip_rows config ≠ 0%Z) then [LogSkipped (skip_rows config)] else [])
  ++ match drop_columns config with
     | Some (c :: cs) => [LogDropped (c :: cs)]
     | _ => []
     end.

(** The table of a list of records when no date column is converted: a
    column per key, under its cleaned label, and a row per record. *)
Definition assembled (records : list record) : DataFrame :=
  mkDataFrame (_clean_column_names (keys_of records))
              (rows (frame_of_records records)).

(** The keys of the records as a reader meets them: record after record,
    each record's keys in its order. *)
Definition keys_read (records : list record) : list string :=
  (mjoin records).*1.

(** In [l], [k1] is met before [k2] is. *)
Definition met_before (l : list string) (k1 k2 : string) : Prop :=
  ∃ p1, l !! p1 = Some k1 ∧ ∀ p2, l !! p2 = Some k2 → p1 < p2.

(** [c] cannot be a cleaned label: it has an upper-case letter, a space, a
    newline, a ['/'], a [':'] or two underscores in a row. *)
Definition not_cleaned_form (c : string) : Prop :=
  PyStr.lower c ≠ c ∨ mentions " "%char c = true
  ∨ mentions PyStr.newline c = true ∨ mentions "/"%char c = true
  ∨ mentions ":"%char c = true ∨ no_double_underscore c = false.

(** The config with its date columns taken out. *)
Definition without_dates (config : TransformerConfig) : TransformerConfig :=
  mkConfig (skip_rows config) (drop_columns config) None
    (identifier_field config) (target_fields config) (field_aliases config)
    (search_radius config) (column_search_radius config).

(** ** Rule sets *)

(** Some character of [s] passes [p]. *)
Definition any_char (p : ascii → bool) (s : string) : bool :=
  negb (PyStr.all_chars (λ c, negb (p c)) s).

(** A digit, a ['.'] or a ['-']. *)
Definition numeric_char (c : ascii) : bool :=
  PyStr.is_digit c || Ascii.eqb c "."%char || Ascii.eqb c "-"%char.

(** The columns that the date, numeric, bound and uniqueness rules of a rule
    set name. *)
Definition listed_columns {bound} (rules : Rules bound) : list string :=
  (default [] (date_format rules)).*1
  ++ default [] (numeric_columns rules)
  ++ (default [] (min_value rules)).*1
  ++ (default [] (max_value rules)).*1
  ++ default [] (unique_columns rules).

(** The number of entries of a rule set: one for the required columns
    together, one for each listed column and each custom validation. *)
Definition rule_count {bound} (rules : Rules bound) : nat :=
  match required_columns rules with Some _ => 1 | None => 0 end
  + length (default [] (date_format rules))
  + length (default [] (numeric_columns rules))
  + length (default [] (min_value rules))
  + length (default [] (max_value rules))
  + length (default [] (unique_columns rules))
  + length (default [] (custom_validations rules)).

(** * The scenarios of the specification, run on the embedding *)

Example clean_colon : clean_column_name "Test:Value" = "testvalue".
Proof. reflexivity. Qed.

Example clean_double_space : clean_column_name "Test  Value" = "test_value".
Proof. reflexivity. Qed.

Example clean_mixed : clean_column_name "  A / b___c  " = "a_b_c".
Proof. reflexivity. Qed.

Example clean_ampersand : clean_column_name "Test & Value" = "test_&_value".
Proof. reflexivity. Qed.

Example three_rows_wide_radius :
  extract_records three_rows (three_config 3)
  = Ok [[("Customer ID", "12345"); ("Name", "John Doe"); ("Total", "500.00")]].
Proof. vm_compute. reflexivity. Qed.

Example three_rows_radius_one :
  extract_records three_rows (three_config 1) = Ok [[("Customer ID", "12345")]].
Proof. vm_compute. reflexivity. Qed.

Example right_before_down :
  _find_field_value right_and_down 0 {["Name"]} default_config = Ok (Some "Right").
Proof. vm_compute. reflexivity. Qed.

Example down_when_right_blank :
  _find_field_value down_only 0 {["Name"]} default_config = Ok (Some "Down").
Proof. vm_compute. reflexivity. Qed.

Example down_out_of_radius :
  _find_field_value down_only 0 {["Name"]} (three_config 2) = Ok None.
Proof. vm_compute. reflexivity. Qed.

Example row_outside_grid :
  _find_field_value down_only 3 {["Name"]} default_config = Raise IndexError.
Proof. vm_compute. reflexivity. Qed.

Example missing_required_column :
  (validate any_format never never no_repeats (mkDataFrame ["id"; "name"] [])
     required_rules (mkValidator [] [])).1
  = Ok (mkResult false [MissingColumns ["amount"]] []).
Proof. vm_compute. reflexivity. Qed.

Example non_numeric_cell :
  (validate any_format never never no_repeats
     (amounts ["100"; "invalid"; "-7.5"; "x"]) numeric_rules (mkValidator [] [])).1
  = Ok (mkResult false [NonNumeric "amount" [1; 3]] []).
Proof. vm_compute. reflexivity. Qed.

Example transform_three_rows :
  ∃ l w,
    transform no_dates 1%positive (three_config 3) (world_of three_rows) = (Ok l, w)
    ∧ heap w !! l
      = Some (mkDataFrame ["customer_id"; "name"; "total"]
                [[Val "12345"; Val "John Doe"; Val "500.00"]]).
Proof. eexists _, _. split; vm_compute; reflexivity. Qed.

(** * Properties of the scanner *)

Lemma value_of_Some c v : value_of c = Some v ↔ has_text c v.
Proof.
  unfold value_of, has_text. destruct (notnull c); [|intuition congruence].
  destruct (PyStr.strip (str c)) eqn:E; intuition congruence.
Qed.

Lemma value_of_None c : value_of c = None ↔ blank c.
Proof.
  unfold value_of, blank. destruct (notnull c); [|intuition congruence].
  destruct (PyStr.strip (str c)) eqn:E; intuition congruence.
Qed.

Lemma is_label_true names c : is_label names c = true ↔ labelled names c.
Proof.
  unfold is_label, labelled. rewrite andb_true_iff, bool_decide_eq_true. done.
Qed.

Lemma is_label_false names c : is_label names c = false ↔ ¬ labelled names c.
Proof. rewrite <- is_label_true. destruct (is_label names c); intuition congruence. Qed.

Lemma iloc_row_Ok df i :
  i < len df → iloc_row df i = Ok (default [] (rows df !! i)).
Proof.
  intros Hi. unfold iloc_row, len in *.
  destruct (lookup_lt_is_Some_2 (rows df) i Hi) as [row ->]. done.
Qed.

Lemma iloc_Ok df i j :
  i < len df → j < width df → iloc df i j = Ok (cell_at df i j).
Proof.
  intros Hi Hj. unfold iloc, cell_at, len in *.
  destruct (lookup_lt_is_Some_2 (rows df) i Hi) as [row ->]. simpl.
  rewrite decide_True by done. done.
Qed.

Lemma range_bounds lo hi i :
  lo ≤ i < lo + (Z.to_nat hi - lo) ↔ lo ≤ i ∧ (Z.of_nat i < hi)%Z.
Proof. lia. Qed.

(** ** Loops over [seq] *)

Lemma first_value_seq get (at_ : nat → cell) lo n :
  (∀ i, lo ≤ i < lo + n → get i = Ok (at_ i)) →
  match first_value get (seq lo n) with
  | Ok (Some v) =>
      ∃ i, lo ≤ i < lo + n ∧ has_text (at_ i) v
           ∧ ∀ i', lo ≤ i' < i → blank (at_ i')
  | Ok None => ∀ i, lo ≤ i < lo + n → blank (at_ i)
  | Raise _ => False
  end.
Proof.
  revert lo. induction n as [|n IH]; intros lo Hget; simpl.
  - intros i Hi. lia.
  - rewrite (Hget lo) by lia. simpl.
    destruct (value_of (at_ lo)) as [v|] eqn:Hv.
    + exists lo. split; [lia|]. split; [by apply value_of_Some|]. intros i' Hi'. lia.
    + apply value_of_None in Hv.
      specialize (IH (S lo)). 
      destruct (first_value get (seq (S lo) n)) as [[v|]|e].
      * destruct IH as (i & Hi & Ht & Hb); [intros; apply Hget; lia|].
        exists i. split; [lia|]. split; [done|].
        intros i' Hi'. destruct (decide (i' = lo)) as [->|]; [done|].
        apply Hb. lia.
      * intros i Hi. destruct (decide (i = lo)) as [->|]; [done|].
        apply IH; [intros; apply Hget; lia | lia].
      * apply IH. intros; apply Hget; lia.
Qed.

Lemma find_field_col_seq names row lo n :
  match find_field_col names row (seq lo n) with
  | Some col =>
      lo ≤ col < lo + n ∧ labelled names (cell_of row col)
      ∧ ∀ j, lo ≤ j < col → ¬ labelled names (cell_of row j)
  | None => ∀ j, lo ≤ j < lo + n → ¬ labelled names (cell_of row j)
  end.
Proof.
  revert lo. induction n as [|n IH]; intros lo; simpl.
  - intros j Hj. lia.
  - destruct (is_label names (cell_of row lo)) eqn:Hl.
    + apply is_label_true in Hl. split; [lia|]. split; [done|]. intros j Hj. lia.
    + apply is_label_false in Hl. specialize (IH (S lo)).
      destruct (find_field_col names row (seq (S lo) n)) as [col|].
      * destruct IH as (Hc & Hlab & Hbefore). split; [lia|]. split; [done|].
        intros j Hj. destruct (decide (j = lo)) as [->|]; [done|].
        apply Hbefore. lia.
      * intros j Hj. destruct (decide (j = lo)) as [->|]; [done|].
        apply IH. lia.
Qed.

(** ** [_is_record_start], as the code has it *)

Lemma is_record_start_labelled row config :
  _is_record_start row config = true
  ↔ ∃ c, c ∈ row ∧ labelled (valid_identifiers config) c.
Proof.
  unfold _is_record_start. induction row as [|c row IH]; simpl.
  - split; [done|]. intros (c & Hc & _). by apply elem_of_nil in Hc.
  - rewrite orb_true_iff, IH. fold (is_label (valid_identifiers config) c).
    rewrite is_label_true. split.
    + intros [Hc|(c' & Hin & Hc')].
      * exists c. split; [apply elem_of_cons; by left|done].
      * exists c'. split; [apply elem_of_cons; by right|done].
    + intros (c' & [->|Hin]%elem_of_cons & Hc'); [by left|].
      right. by exists c'.
Qed.

(** ** [_find_field_value]: rightward first, then downward *)

Section FindFieldValue.
Variables (df : DataFrame) (row_idx : nat) (names : gset string)
          (config : TransformerConfig).

Local Abbreviation label_column := (label_column df row_idx names).
Local Abbreviation right_end := (right_end df config).
Local Abbreviation down_end := (down_end df row_idx config).
Local Abbreviation right_blank := (right_blank df row_idx config).
Local Abbreviation down_blank := (down_blank df row_idx config).
Local Abbreviation field_value_spec := (field_value_spec df row_idx names config).

Lemma label_column_unique c1 c2 : label_column c1 → label_column c2 → c1 = c2.
Proof.
  intros (_ & L1 & B1) (_ & L2 & B2).
  destruct (lt_eq_lt_dec c1 c2) as [[Hlt| ->]|Hlt]; [|done|].
  - destruct (B2 c1 Hlt L1).
  - destruct (B1 c2 Hlt L2).
Qed.

Lemma has_text_not_blank c v : has_text c v → blank c → False.
Proof. intros (Hn & Hs & Hv) [Hb|Hb]; congruence. Qed.

Lemma has_text_fun c v w : has_text c v → has_text c w → v = w.
Proof. intros (_ & Hv & _) (_ & Hw & _). congruence. Qed.

(** The specification determines the result. *)
Lemma field_value_spec_fun r1 r2 :
  field_value_spec r1 → field_value_spec r2 → r1 = r2.
Proof.
  intros H1 H2.
  destruct H1 as [N1 | c1 o1 v1 L1 Ho1 Hr1 T1 B1 | c1 k1 v1 L1 R1 Hk1 Hd1 T1 B1
                 | c1 L1 R1 D1];
  destruct H2 as [N2 | c2 o2 v2 L2 Ho2 Hr2 T2 B2 | c2 k2 v2 L2 R2 Hk2 Hd2 T2 B2
                 | c2 L2 R2 D2];
  try done;
  try (match goal with
       | N : ∀ j, j < width df → ¬ labelled _ _, L : label_column _ |- _ =>
           destruct L as (Lw & Ll & _); destruct (N _ Lw Ll)
       end);
  try (assert (c1 = c2) as -> by (by apply label_column_unique)).
  - f_equal. destruct (lt_eq_lt_dec o1 o2) as [[Hlt| ->]|Hlt].
    + destruct (has_text_not_blank _ _ T1). apply B2. lia.
    + by eapply has_text_fun.
    + destruct (has_text_not_blank _ _ T2). apply B1. lia.
  - destruct (has_text_not_blank _ _ T1). by apply R2.
  - destruct (has_text_not_blank _ _ T1). by apply R2.
  - destruct (has_text_not_blank _ _ T2). by apply R1.
  - f_equal. destruct (lt_eq_lt_dec k1 k2) as [[Hlt| ->]|Hlt].
    + destruct (has_text_not_blank _ _ T1). apply B2. lia.
    + by eapply has_text_fun.
    + destruct (has_text_not_blank _ _ T2). apply B1. lia.
  - destruct (has_text_not_blank _ _ T1). by apply D2.
  - destruct (has_text_not_blank _ _ T2). by apply R1.
  - destruct (has_text_not_blank _ _ T2). by apply D1.
Qed.

Lemma find_field_value_sound :
  row_idx < len df →
  ∃ result, _find_field_value df row_idx names config = Ok result
            ∧ field_value_spec result.
Proof.
  intros Hrow. unfold _find_field_value.
  rewrite iloc_row_Ok by done. simpl.
  pose proof (find_field_col_seq names (default [] (rows df !! row_idx)) 0 (width df)) as Hcol.
  fold (cell_at df row_idx) in Hcol.
  destruct (find_field_col names _ (seq 0 (width df))) as [col|].
  2:{ exists None. split; [done|]. apply fv_no_label. intros j Hj. apply Hcol. lia. }
  destruct Hcol as (Hc & Hlab & Hbefore).
  assert (label_column col) as Hlc.
  { split; [lia|]. split; [done|]. intros j Hj. apply Hbefore. lia. }
  pose proof (first_value_seq
                (λ col_offset, iloc df row_idx (col + col_offset))
                (λ o, cell_at df row_idx (col + o)) 1
                (Z.to_nat (right_end col) - 1)) as Hright.
  unfold range. fold (right_end col). fold down_end.
  destruct (first_value _ (seq 1 (Z.to_nat (right_end col) - 1))) as [[v|]|e].
  - destruct Hright as (o & Ho & Ht & Hb).
    { intros i Hi. apply iloc_Ok; [done|]. unfold right_end in Hi. lia. }
    exists (Some v). split; [done|].
    apply (fv_right _ _ _ _ col o v); [done|lia|lia|done|].
    intros o' Ho'. apply Hb. lia.
  - assert (right_blank col) as Hrb.
    { intros o Ho1 Ho2. apply Hright; [|lia].
      intros i Hi. apply iloc_Ok; [done|]. unfold right_end in Hi. lia. }
    simpl.
    pose proof (first_value_seq (λ k, iloc df k col) (λ k, cell_at df k col)
                  (row_idx + 1) (Z.to_nat down_end - (row_idx + 1))) as Hdown.
    destruct (first_value _ (seq (row_idx + 1) _)) as [[v|]|e].
    + destruct Hdown as (k & Hk & Ht & Hb).
      { intros i Hi. apply iloc_Ok; [|lia]. unfold down_end in Hi. lia. }
      exists (Some v). split; [done|].
      apply (fv_down _ _ _ _ col k v); [done|done|lia|lia|done|].
      intros k' Hk'. apply Hb. lia.
    + exists None. split; [done|].
      apply (fv_nothing _ _ _ _ col); [done|done|].
      intros k Hk1 Hk2. apply Hdown; [|lia].
      intros i Hi. apply iloc_Ok; [|lia]. unfold down_end in Hi. lia.
    + destruct Hdown. intros i Hi. apply iloc_Ok; [|lia]. unfold down_end in Hi. lia.
  - destruct Hright. intros i Hi. apply iloc_Ok; [done|]. unfold right_end in Hi. lia.
Qed.

End FindFieldValue.

(** ** Dicts *)

Lemma dict_get_set_eq k v d : dict_get k (dict_set k v d) = Some v.
Proof.
  induction d as [|[k' v'] d IH]; simpl.
  - by rewrite decide_True.
  - destruct (decide (k' = k)) as [->|Hne]; simpl.
    + by rewrite decide_True.
    + by rewrite decide_False.
Qed.

Lemma dict_get_set_ne k k' v d :
  k ≠ k' → dict_get k' (dict_set k v d) = dict_get k' d.
Proof.
  intros Hne. induction d as [|[k0 v0] d IH]; simpl.
  - by rewrite decide_False.
  - destruct (decide (k0 = k)) as [->|Hk]; simpl.
    + by rewrite !decide_False.
    + destruct (decide (k0 = k')); [done|apply IH].
Qed.

Lemma dict_get_None k (d : record) : dict_get k d = None ↔ k ∉ d.*1.
Proof.
  induction d as [|[k' v'] d IH]; simpl.
  - split; [intros _; apply not_elem_of_nil|done].
  - rewrite not_elem_of_cons. destruct (decide (k' = k)) as [->|Hne].
    + split; [done|]. by intros [? _].
    + rewrite IH. split; [by split|by intros [_ ?]].
Qed.

Lemma dict_set_keys k v (d : record) :
  (dict_set k v d).*1 = if decide (k ∈ d.*1) then d.*1 else d.*1 ++ [k].
Proof.
  induction d as [|[k' v'] d IH]; [done|]. cbn [dict_set].
  destruct (decide (k' = k)) as [->|Hne]; rewrite !fmap_cons; cbn [fst].
  - rewrite decide_True; [done|]. apply elem_of_cons. by left.
  - rewrite IH. destruct (decide (k ∈ d.*1)) as [Hin|Hnin].
    + rewrite decide_True; [done|]. apply elem_of_cons. by right.
    + rewrite decide_False; [done|]. rewrite elem_of_cons. naive_solver.
Qed.

(** ** [_extract_single_record]: the row window of each field *)

Section SingleRecord.
Variables (df : DataFrame) (start_idx : nat) (config : TransformerConfig).

Local Abbreviation fv names k := (_find_field_value df k names config).

Lemma find_field_value_nonempty names k v : fv names k = Ok (Some v) → v ≠ "".
Proof.
  intros Hfv. unfold _find_field_value in Hfv.
  destruct (iloc_row df k) as [row|e] eqn:Hrow; [|done]. simpl in Hfv.
  assert (k < len df) as Hk.
  { unfold iloc_row in Hrow. destruct (rows df !! k) eqn:E; [|done].
    by eapply lookup_lt_Some. }
  destruct (find_field_value_sound df k names config Hk) as (r & Hr & Hspec).
  unfold _find_field_value in Hr. rewrite Hrow in Hr. simpl in Hr.
  rewrite Hfv in Hr. injection Hr as <-.
  inversion Hspec as [ | ? ? ? _ _ _ Ht _ | ? ? ? _ _ _ _ Ht _ | ];
    subst; by destruct Ht as (_ & _ & ?).
Qed.

Lemma search_rows_seq names lo n :
  match search_rows df start_idx (len df) names config (seq lo n) with
  | Ok (Some v) =>
      ∃ k, start_idx + lo ≤ k < start_idx + lo + n ∧ k < len df
           ∧ fv names k = Ok (Some v)
           ∧ ∀ k', start_idx + lo ≤ k' < k → fv names k' = Ok None
  | Ok None =>
      ∀ k, start_idx + lo ≤ k < start_idx + lo + n → k < len df →
           fv names k = Ok None
  | Raise _ => False
  end.
Proof.
  revert lo. induction n as [|n IH]; intros lo; simpl.
  - intros k Hk. lia.
  - destruct (decide (len df ≤ start_idx + lo)) as [Hout|Hin].
    { intros k Hk1 Hk2. lia. }
    destruct (find_field_value_sound df (start_idx + lo) names config)
      as (r & Hr & _); [lia|].
    rewrite Hr. simpl. destruct r as [v|].
    + exists (start_idx + lo). split; [lia|]. split; [lia|]. split; [done|].
      intros k' Hk'. lia.
    + specialize (IH (S lo)).
      destruct (search_rows df start_idx (len df) names config (seq (S lo) n))
        as [[v|]|e]; [| |done].
      * destruct IH as (k & Hk & Hlen & Hv & Hbefore).
        exists k. split; [lia|]. split; [done|]. split; [done|].
        intros k' Hk'. destruct (decide (k' = start_idx + lo)) as [->|]; [done|].
        apply Hbefore. lia.
      * intros k Hk Hlen. destruct (decide (k = start_idx + lo)) as [->|]; [done|].
        apply IH; [lia|done].
Qed.

Local Abbreviation searched := (searched df start_idx config).

Lemma searched_window field :
  match searched field with
  | Ok (Some v) => first_in_window df config start_idx field v
  | Ok None => none_in_window df config start_idx field
  | Raise _ => False
  end.
Proof.
  unfold searched, range.
  pose proof (search_rows_seq (aliases_of field config) 0
                (Z.to_nat (search_radius config) - 0)) as H.
  destruct (search_rows _ _ _ _ _ _) as [[v|]|e]; [| |done].
  - destruct H as (k & Hk & Hlen & Hv & Hbefore).
    exists k. split; [unfold in_window; lia|]. split; [done|].
    intros k' Hk'. apply Hbefore. lia.
  - intros k (Hk1 & Hk2 & Hk3). apply H; [lia|done].
Qed.

Lemma window_exclusive field v :
  first_in_window df config start_idx field v →
  none_in_window df config start_idx field → False.
Proof.
  intros (k & Hk & Hv & _) Hnone. specialize (Hnone k Hk). congruence.
Qed.

Lemma first_in_window_fun field v w :
  first_in_window df config start_idx field v →
  first_in_window df config start_idx field w → v = w.
Proof.
  intros (k & Hk & Hv & Hb) (k' & Hk' & Hw & Hb').
  destruct (lt_eq_lt_dec k k') as [[Hlt| ->]|Hlt].
  - destruct Hk as (? & _). specialize (Hb' k ltac:(lia)). congruence.
  - congruence.
  - destruct Hk' as (? & _). specialize (Hb k' ltac:(lia)). congruence.
Qed.

Lemma fill_fields_get fields rec0 :
  ∃ rec, fill_fields df start_idx (len df) config fields rec0 = Ok rec
    ∧ ∀ field,
        dict_get field rec =
          match searched field with
          | Ok (Some v) => if decide (field ∈ fields) then Some v
                           else dict_get field rec0
          | _ => dict_get field rec0
          end.
Proof.
  revert rec0. induction fields as [|f fields IH]; intros rec0; simpl.
  - exists rec0. split; [done|]. intros field.
    by destruct (searched field) as [[v|]|e].
  - pose proof (searched_window f) as Hf. fold (searched f).
    destruct (searched f) as [[v|]|e] eqn:Hsf; [| |done]; simpl.
    + destruct (IH (dict_set f v rec0)) as (rec & Hrec & Hget).
      exists rec. split; [done|]. intros field. rewrite Hget.
      destruct (decide (field = f)) as [->|Hne].
      * rewrite Hsf. rewrite dict_get_set_eq.
        rewrite (decide_True (P := f ∈ f :: fields)) by (apply elem_of_cons; by left).
        by destruct (decide (f ∈ fields)).
      * rewrite dict_get_set_ne by done.
        destruct (searched field) as [[w|]|e]; [|done..].
        destruct (decide (field ∈ fields)) as [Hin|Hnin].
        -- rewrite decide_True; [done|]. apply elem_of_cons; by right.
        -- rewrite decide_False; [done|]. rewrite elem_of_cons. tauto.
    + destruct (IH rec0) as (rec & Hrec & Hget).
      exists rec. split; [done|]. intros field. rewrite Hget.
      destruct (searched field) as [[w|]|e] eqn:Hs; [|done..].
      destruct (decide (field = f)) as [->|Hne]; [congruence|].
      destruct (decide (field ∈ fields)) as [Hin|Hnin].
      * rewrite decide_True; [done|]. apply elem_of_cons; by right.
      * rewrite decide_False; [done|]. rewrite elem_of_cons. tauto.
Qed.

Lemma fill_fields_keys fields rec0 rec :
  fill_fields df start_idx (len df) config fields rec0 = Ok rec →
  NoDup rec0.*1 →
  ∃ added, rec.*1 = rec0.*1 ++ added ∧ added `sublist_of` fields ∧ NoDup rec.*1.
Proof.
  revert rec0. induction fields as [|f fields IH]; intros rec0; simpl.
  - intros [= <-] Hnd. exists []. by rewrite app_nil_r.
  - fold (searched f). destruct (searched f) as [[v|]|e]; [| |done]; simpl.
    + intros Hfill Hnd.
      destruct (IH _ Hfill) as (added & Hkeys & Hsub & Hnd').
      { rewrite dict_set_keys. destruct (decide (f ∈ rec0.*1)); [done|].
        apply NoDup_app. split; [done|]. split; [|apply NoDup_singleton].
        intros x Hx ->%list_elem_of_singleton. done. }
      rewrite dict_set_keys in Hkeys.
      destruct (decide (f ∈ rec0.*1)).
      * exists added. split; [done|]. split; [by apply sublist_cons|done].
      * exists (f :: added). rewrite Hkeys, <- app_assoc.
        split; [done|]. split; [by apply sublist_skip|by rewrite app_assoc, <- Hkeys].
    + intros Hfill Hnd.
      destruct (IH _ Hfill Hnd) as (added & Hkeys & Hsub & Hnd').
      exists added. split; [done|]. split; [by apply sublist_cons|done].
Qed.

Lemma extract_single_record_keys fields rec :
  target_fields config = Some fields →
  _extract_single_record df start_idx (len df) config = Ok rec →
  NoDup rec.*1 ∧ rec.*1 `sublist_of` fields.
Proof.
  intros Ht. unfold _extract_single_record. rewrite Ht. intros Hfill.
  destruct (fill_fields_keys fields [] rec Hfill) as (added & Hkeys & Hsub & Hnd).
  { constructor. }
  split; [done|]. change ([].*1 ++ added) with added in Hkeys. by rewrite Hkeys.
Qed.

Lemma extract_single_record_get fields :
  target_fields config = Some fields →
  ∃ rec, _extract_single_record df start_idx (len df) config = Ok rec
    ∧ ∀ field,
        dict_get field rec =
          match searched field with
          | Ok (Some v) => if decide (field ∈ fields) then Some v else None
          | _ => None
          end.
Proof.
  intros Ht. unfold _extract_single_record. rewrite Ht.
  destruct (fill_fields_get fields []) as (rec & Hrec & Hget).
  exists rec. split; [done|]. intros field. rewrite Hget.
  by destruct (searched field) as [[v|]|e].
Qed.

End SingleRecord.

(** ** [_extract_records]: every record start is visited *)

Section ExtractRecords.
Variables (df : DataFrame) (config : TransformerConfig).

Lemma is_start_row i row :
  rows df !! i = Some row → is_start df config i = _is_record_start row config.
Proof. intros H. unfold is_start. by rewrite H. Qed.

Lemma filter_starts_none lo n :
  (∀ k, lo ≤ k < lo + n → is_start df config k = false) →
  filter (λ i, is_start df config i = true) (seq lo n) = [].
Proof.
  revert lo. induction n as [|n IH]; intros lo Hno; simpl; [done|].
  rewrite filter_cons_False by (rewrite Hno; [done|lia]).
  apply IH. intros k Hk. apply Hno. lia.
Qed.

Lemma find_next_go_seq lo n :
  lo + n = len df →
  match find_next_go df (len df) config (seq lo n) with
  | Ok next =>
      lo ≤ next ≤ len df
      ∧ (∀ k, lo ≤ k < next → is_start df config k = false)
      ∧ (next < len df → is_start df config next = true)
  | Raise _ => False
  end.
Proof.
  revert lo. induction n as [|n IH]; intros lo Hlen; simpl.
  - split; [lia|]. split; intros; lia.
  - destruct (lookup_lt_is_Some_2 (rows df) lo) as [row Hrow].
    { unfold len in Hlen. lia. }
    unfold iloc_row. rewrite Hrow. simpl.
    rewrite <- (is_start_row lo row Hrow).
    destruct (is_start df config lo) eqn:Hs.
    + split; [lia|]. split; [intros; lia|done].
    + specialize (IH (S lo) ltac:(lia)).
      destruct (find_next_go df (len df) config (seq (S lo) n)) as [next|e]; [|done].
      destruct IH as (Hn & Hbefore & Hat). split; [lia|]. split; [|done].
      intros k Hk. destruct (decide (k = lo)) as [->|]; [done|]. apply Hbefore. lia.
Qed.

Lemma find_next_record_start_spec i :
  i < len df →
  ∃ next, _find_next_record_start df (i + 1) (len df) config = Ok next
    ∧ i + 1 ≤ next ≤ len df
    ∧ filter (λ k, is_start df config k = true) (seq (i + 1) (len df - (i + 1)))
      = filter (λ k, is_start df config k = true) (seq next (len df - next)).
Proof.
  intros Hi. unfold _find_next_record_start, range.
  pose proof (find_next_go_seq (i + 1) (Z.to_nat (Z.of_nat (len df)) - (i + 1))
                ltac:(lia)) as H.
  destruct (find_next_go df (len df) config _) as [next|e]; [|done].
  destruct H as (Hn & Hbefore & _).
  exists next. split; [done|]. split; [done|].
  replace (len df - (i + 1)) with ((next - (i + 1)) + (len df - next)) by lia.
  rewrite seq_app, filter_app.
  rewrite filter_starts_none by (intros k Hk; apply Hbefore; lia).
  simpl. do 2 f_equal. lia.
Qed.

Lemma truthy_dict_nonempty (rec : record) : truthy_dict rec = true ↔ rec ≠ [].
Proof. by destruct rec. Qed.

Lemma extract_loop_spec fields :
  target_fields config = Some fields →
  ∀ fuel i records,
    i ≤ len df → len df - i ≤ fuel →
    extract_loop fuel df config (len df) i records
    = Ok (records
          ++ filter (λ rec, rec ≠ [])
               (record_at df config
                  <$> filter (λ k, is_start df config k = true)
                        (seq i (len df - i)))).
Proof.
  intros Ht. induction fuel as [|fuel IH]; intros i records Hi Hfuel.
  - simpl. rewrite decide_True by lia.
    replace (len df - i) with 0 by lia. simpl. by rewrite app_nil_r.
  - simpl. destruct (decide (len df ≤ i)) as [Hend|Hmore].
    { replace (len df - i) with 0 by lia. simpl. by rewrite app_nil_r. }
    destruct (lookup_lt_is_Some_2 (rows df) i) as [row Hrow].
    { unfold len in Hmore. lia. }
    unfold iloc_row at 1. rewrite Hrow. simpl.
    rewrite <- (is_start_row i row Hrow).
    replace (len df - i) with (S (len df - (i + 1))) by lia. simpl.
    destruct (is_start df config i) eqn:Hs.
    + rewrite filter_cons_True by done.
      destruct (extract_single_record_get df i config fields Ht) as (rec & Hrec & _).
      assert (record_at df config i = rec) as Hat.
      { unfold record_at. by rewrite Hrec. }
      rewrite Hrec. simpl.
      destruct (find_next_record_start_spec i ltac:(lia)) as (next & Hnext & Hn & Hfilter).
      rewrite Hnext. simpl. rewrite IH by lia.
      replace (S i) with (i + 1) by lia. rewrite Hfilter.
      rewrite Hat. f_equal.
      destruct rec as [|kv rec]; simpl.
      * by rewrite filter_cons_False by (intros H; by apply H).
      * rewrite filter_cons_True by done. by rewrite <- app_assoc.
    + rewrite filter_cons_False by (by rewrite Hs).
      rewrite IH by lia. by replace (S i) with (i + 1) by lia.
Qed.

End ExtractRecords.

(** * Column-name cleaning *)

Module CleanFacts.
Import PyStr.

(** ** The replacements, one character at a time *)

Lemma prefix_nil s : String.prefix "" s = true.
Proof. by destruct s. Qed.

Lemma prefix_cons c s a t :
  String.prefix (String c s) (String a t) = Ascii.eqb c a && String.prefix s t.
Proof.
  cbn [String.prefix]. destruct (ascii_dec c a) as [->|Hne].
  - by rewrite Ascii.eqb_refl.
  - apply Ascii.eqb_neq in Hne. by rewrite Hne.
Qed.

Lemma replace_go_cons old new a t :
  replace_go old new 0 (String a t)
  = if String.prefix old (String a t)
    then new +:+ replace_go old new (String.length old - 1) t
    else String a (replace_go old new 0 t).
Proof. done. Qed.

Lemma remove_cons c a t :
  replace (String c "") "" (String a t)
  = if Ascii.eqb c a then replace (String c "") "" t
    else String a (replace (String c "") "" t).
Proof.
  unfold replace. rewrite replace_go_cons, prefix_cons, prefix_nil, andb_true_r.
  by destruct (Ascii.eqb c a).
Qed.

Lemma swap_cons c d a t :
  replace (String c "") (String d "") (String a t)
  = String (if Ascii.eqb c a then d else a)
           (replace (String c "") (String d "") t).
Proof.
  unfold replace. rewrite replace_go_cons, prefix_cons, prefix_nil, andb_true_r.
  by destruct (Ascii.eqb c a).
Qed.

Lemma pair_cons a t :
  replace "__" "_" (String a t)
  = match t with
    | String b t' =>
        if Ascii.eqb a underscore && Ascii.eqb b underscore
        then String underscore (replace "__" "_" t')
        else String a (replace "__" "_" t)
    | "" => String a ""
    end.
Proof.
  unfold replace. rewrite replace_go_cons, prefix_cons.
  rewrite (Ascii.eqb_sym _ a). fold underscore.
  destruct t as [|b t'].
  - by rewrite andb_false_r.
  - rewrite prefix_cons, prefix_nil, andb_true_r, (Ascii.eqb_sym _ b).
    fold underscore. by destruct (Ascii.eqb a underscore && Ascii.eqb b underscore).
Qed.

Lemma sub_go_false_cons a t :
  sub_underscores_go false (String a t)
  = if Ascii.eqb a underscore && starts_underscore t
    then String underscore (sub_underscores_go true t)
    else String a (sub_underscores_go false t).
Proof.
  cbn [sub_underscores_go]. rewrite prefix_cons, (Ascii.eqb_sym _ a).
  fold underscore. destruct t as [|b t'].
  - by rewrite !andb_false_r.
  - by rewrite prefix_cons, prefix_nil, andb_true_r, (Ascii.eqb_sym _ b).
Qed.

Lemma sub_go_true_cons a t :
  sub_underscores_go true (String a t)
  = if Ascii.eqb a underscore then sub_underscores_go true t
    else String a (sub_underscores_go false t).
Proof. done. Qed.


(** ** Characters *)

Ltac by_cases_on_char c := destruct c as [[] [] [] [] [] [] [] []]; vm_compute; congruence.

Lemma lower_char_idem c : lower_char (lower_char c) = lower_char c.
Proof. by_cases_on_char c. Qed.

Lemma lower_char_space c : is_space (lower_char c) = is_space c.
Proof. by_cases_on_char c. Qed.

Lemma lower_char_newline c :
  Ascii.eqb (lower_char c) newline = Ascii.eqb c newline.
Proof. by_cases_on_char c. Qed.

Lemma lower_char_colon c :
  Ascii.eqb (lower_char c) ":"%char = Ascii.eqb c ":"%char.
Proof. by_cases_on_char c. Qed.

Lemma settled_not_space c : settled c = true → Ascii.eqb c " "%char = false.
Proof. by_cases_on_char c. Qed.

(** ** Two characters at a time *)

Lemma string_pair_ind (P : string → Prop) :
  P "" → (∀ a, P (String a "")) →
  (∀ a b t, P t → P (String b t) → P (String a (String b t))) →
  ∀ s, P s.
Proof.
  intros H0 H1 H2 s.
  assert (P s ∧ ∀ a, P (String a s)) as [? _]; [|done].
  induction s as [|b t [IHt IHbt]]; [by split|].
  split; [apply IHbt|]. intros a. apply H2; [done|apply IHbt].
Qed.

(** ** Steps that only pass characters on, or put an underscore *)

Section Passing.
Variable p : ascii → bool.

Lemma all_remove c s :
  all_chars p s = true → all_chars p (replace (String c "") "" s) = true.
Proof.
  induction s as [|a t IH]; [done|]. simpl. rewrite remove_cons.
  intros [Ha Ht]%andb_true_iff.
  destruct (Ascii.eqb c a); [by apply IH|]. simpl. rewrite Ha. by apply IH.
Qed.

Lemma all_swap c d s :
  p d = true →
  all_chars p s = true → all_chars p (replace (String c "") (String d "") s) = true.
Proof.
  intros Hd. induction s as [|a t IH]; [done|]. simpl. rewrite swap_cons.
  intros [Ha Ht]%andb_true_iff. simpl. rewrite (IH Ht), andb_true_r.
  by destruct (Ascii.eqb c a).
Qed.

Lemma all_pair s :
  p underscore = true →
  all_chars p s = true → all_chars p (replace "__" "_" s) = true.
Proof.
  intros Hu. induction s as [|a|a b t IHt IHbt] using string_pair_ind;
    [done|by rewrite pair_cons|].
  rewrite pair_cons. intros Hall.
  pose proof Hall as [Ha [Hb Ht]%andb_true_iff]%andb_true_iff.
  destruct (Ascii.eqb a underscore && Ascii.eqb b underscore).
  - cbn [all_chars]. by rewrite Hu, IHt.
  - cbn [all_chars]. rewrite Ha. simpl. apply IHbt. by apply andb_true_iff.
Qed.

Lemma all_sub_go in_run s :
  p underscore = true →
  all_chars p s = true → all_chars p (sub_underscores_go in_run s) = true.
Proof.
  intros Hu. revert in_run. induction s as [|a t IH]; intros in_run; [done|].
  intros [Ha Ht]%andb_true_iff. destruct in_run.
  - rewrite sub_go_true_cons. destruct (Ascii.eqb a underscore); [by apply IH|].
    cbn [all_chars]. by rewrite Ha, IH.
  - rewrite sub_go_false_cons.
    destruct (Ascii.eqb a underscore && starts_underscore t);
      cbn [all_chars]; rewrite ?Hu, ?Ha, IH; done.
Qed.

Lemma all_lower s :
  (∀ c, p c = true → p (lower_char c) = true) →
  all_chars p s = true → all_chars p (lower s) = true.
Proof.
  intros Hp. induction s as [|a t IH]; [done|]. simpl.
  intros [Ha Ht]%andb_true_iff. by rewrite (Hp a Ha), IH.
Qed.

Lemma all_lstrip s : all_chars p s = true → all_chars p (lstrip s) = true.
Proof.
  induction s as [|a t IH]; [done|]. simpl.
  intros Hall. pose proof Hall as [Ha Ht]%andb_true_iff.
  destruct (is_space a); [by apply IH|done].
Qed.

Lemma all_rstrip s : all_chars p s = true → all_chars p (rstrip s) = true.
Proof.
  induction s as [|a t IH]; [done|]. simpl.
  intros [Ha Ht]%andb_true_iff. specialize (IH Ht).
  destruct (rstrip t) as [|b r].
  - destruct (is_space a); [done|]. simpl. by rewrite Ha.
  - cbn [all_chars] in *. by rewrite Ha, IH.
Qed.

Lemma all_strip s : all_chars p s = true → all_chars p (strip s) = true.
Proof. intros H. unfold strip. by apply all_rstrip, all_lstrip. Qed.

End Passing.

Lemma all_chars_and p q s :
  all_chars (λ c, p c && q c) s = all_chars p s && all_chars q s.
Proof.
  induction s as [|a t IH]; [done|]. simpl. rewrite IH.
  destruct (p a), (q a), (all_chars p t), (all_chars q t); done.
Qed.

Lemma all_chars_impl (p q : ascii → bool) s :
  (∀ c, p c = true → q c = true) → all_chars p s = true → all_chars q s = true.
Proof.
  intros Hpq. induction s as [|a t IH]; [done|]. simpl.
  intros [Ha Ht]%andb_true_iff. by rewrite (Hpq a Ha), IH.
Qed.

(** ** Steps that take a character away *)

Lemma remove_gone c s : all_chars (is_not c) (replace (String c "") "" s) = true.
Proof.
  induction s as [|a t IH]; [done|]. rewrite remove_cons.
  destruct (Ascii.eqb c a) eqn:E; [done|]. simpl. unfold is_not at 1.
  by rewrite Ascii.eqb_sym, E.
Qed.

Lemma swap_gone c d s :
  Ascii.eqb d c = false →
  all_chars (is_not c) (replace (String c "") (String d "") s) = true.
Proof.
  intros Hd. induction s as [|a t IH]; [done|]. rewrite swap_cons. simpl.
  rewrite IH, andb_true_r. unfold is_not.
  destruct (Ascii.eqb c a) eqn:E; [by rewrite Hd|]. by rewrite Ascii.eqb_sym, E.
Qed.

Lemma lower_fixed s :
  all_chars (λ a, Ascii.eqb (lower_char a) a) (lower s) = true.
Proof.
  induction s as [|a t IH]; [done|]. simpl.
  by rewrite lower_char_idem, Ascii.eqb_refl, IH.
Qed.

(** ** Steps that find nothing to do *)

Lemma remove_id c s :
  all_chars (is_not c) s = true → replace (String c "") "" s = s.
Proof.
  induction s as [|a t IH]; [done|]. simpl. rewrite remove_cons.
  intros [Ha Ht]%andb_true_iff. unfold is_not in Ha.
  rewrite Ascii.eqb_sym. destruct (Ascii.eqb a c); [done|]. by rewrite IH.
Qed.

Lemma swap_id c d s :
  all_chars (is_not c) s = true → replace (String c "") (String d "") s = s.
Proof.
  induction s as [|a t IH]; [done|]. simpl. rewrite swap_cons.
  intros [Ha Ht]%andb_true_iff. unfold is_not in Ha.
  rewrite Ascii.eqb_sym. destruct (Ascii.eqb a c); [done|]. by rewrite IH.
Qed.

Lemma lower_id s :
  all_chars (λ a, Ascii.eqb (lower_char a) a) s = true → lower s = s.
Proof.
  induction s as [|a t IH]; [done|]. simpl.
  intros [Ha%Ascii.eqb_eq Ht]%andb_true_iff. by rewrite Ha, IH.
Qed.

Lemma pair_id s : no_double_underscore s = true → replace "__" "_" s = s.
Proof.
  induction s as [|a t IH]; [done|]. rewrite pair_cons.
  cbn [no_double_underscore]. intros [Ha Ht]%andb_true_iff.
  destruct t as [|b t']; [done|]. simpl in Ha.
  apply negb_true_iff in Ha. rewrite Ha. by rewrite IH.
Qed.

Lemma sub_id s : no_double_underscore s = true → sub_underscores s = s.
Proof.
  unfold sub_underscores. induction s as [|a t IH]; [done|].
  rewrite sub_go_false_cons. cbn [no_double_underscore].
  intros [Ha Ht]%andb_true_iff. apply negb_true_iff in Ha. rewrite Ha.
  by rewrite IH.
Qed.


(** ** Adjacent underscores *)

Lemma sub_go_shape s :
  (no_double_underscore (sub_underscores_go false s) = true
   ∧ starts_underscore (sub_underscores_go false s) = starts_underscore s)
  ∧ (no_double_underscore (sub_underscores_go true s) = true
     ∧ starts_underscore (sub_underscores_go true s) = false).
Proof.
  induction s as [|a t [[IHf1 IHf2] [IHt1 IHt2]]]; [done|].
  rewrite sub_go_false_cons, sub_go_true_cons. split.
  - destruct (Ascii.eqb a underscore && starts_underscore t) eqn:E.
    + apply andb_true_iff in E as [Ea Et].
      cbn [no_double_underscore starts_underscore].
      by rewrite IHt1, IHt2, Ea, andb_false_r.
    + cbn [no_double_underscore starts_underscore]. by rewrite IHf1, IHf2, E.
  - destruct (Ascii.eqb a underscore) eqn:E; [done|].
    cbn [no_double_underscore starts_underscore]. by rewrite IHf1, E.
Qed.

Lemma no_double_underscore_tail a t :
  no_double_underscore (String a t) = true → no_double_underscore t = true.
Proof. cbn [no_double_underscore]. by intros [_ ?]%andb_true_iff. Qed.

Lemma no_double_lstrip s :
  no_double_underscore s = true → no_double_underscore (lstrip s) = true.
Proof.
  induction s as [|a t IH]; [done|]. intros H. cbn [lstrip].
  destruct (is_space a); [|done]. by eapply IH, no_double_underscore_tail.
Qed.

Lemma rstrip_head s :
  rstrip s = "" ∨ starts_underscore (rstrip s) = starts_underscore s.
Proof.
  destruct s as [|a t]; [by left|]. cbn [rstrip].
  destruct (rstrip t); [|by right]. destruct (is_space a); [by left|by right].
Qed.

Lemma no_double_rstrip s :
  no_double_underscore s = true → no_double_underscore (rstrip s) = true.
Proof.
  induction s as [|a t IH]; [done|]. cbn [no_double_underscore].
  intros [Ha Ht]%andb_true_iff. specialize (IH Ht). cbn [rstrip].
  destruct (rstrip_head t) as [E|E].
  - rewrite E. by destruct (is_space a); cbn; rewrite ?andb_false_r.
  - destruct (rstrip t) as [|b r] eqn:Er.
    + by destruct (is_space a); cbn; rewrite ?andb_false_r.
    + cbn [no_double_underscore]. rewrite E, Ha. exact IH.
Qed.

Lemma no_double_strip s :
  no_double_underscore s = true → no_double_underscore (strip s) = true.
Proof. intros H. by apply no_double_rstrip, no_double_lstrip. Qed.

(** ** The cleaned label *)

Lemma all_settled s :
  all_chars settled s = true ↔
    all_chars (is_not newline) s = true ∧ all_chars (is_not " "%char) s = true
    ∧ all_chars (is_not "/"%char) s = true ∧ all_chars (is_not ":"%char) s = true
    ∧ all_chars (λ a, Ascii.eqb (lower_char a) a) s = true.
Proof.
  induction s as [|a t IH]; [done|]. cbn [all_chars].
  rewrite !andb_true_iff, IH. unfold settled, is_not.
  rewrite !andb_true_iff. tauto.
Qed.

Lemma clean_stripped_settled s : all_chars settled (clean_stripped s) = true.
Proof.
  apply all_settled. unfold clean_stripped, sub_underscores.
  repeat split.
  - apply all_sub_go, all_remove, all_swap, all_pair, all_swap, all_lower,
      remove_gone; try done.
    intros c. unfold is_not. by rewrite lower_char_newline.
  - apply all_sub_go, all_remove, all_swap, all_pair, swap_gone; done.
  - apply all_sub_go, all_remove, swap_gone; done.
  - apply all_sub_go, remove_gone; done.
  - apply all_sub_go, all_remove, all_swap, all_pair, all_swap, lower_fixed; done.
Qed.

Lemma clean_stripped_no_double s :
  no_double_underscore (clean_stripped s) = true.
Proof. unfold clean_stripped, sub_underscores. apply sub_go_shape. Qed.

Lemma clean_stripped_id s :
  all_chars settled s = true → no_double_underscore s = true →
  clean_stripped s = s.
Proof.
  intros (Hnl & Hsp & Hsl & Hco & Hlow)%all_settled Hno. unfold clean_stripped.
  rewrite (remove_id newline), lower_id, (swap_id " "%char), pair_id,
    (swap_id "/"%char), (remove_id ":"%char), sub_id; done.
Qed.

Lemma clean_column_name_twice s :
  clean_column_name (clean_column_name s) = strip (clean_column_name s).
Proof.
  change (clean_column_name (clean_column_name s))
    with (clean_stripped (strip (clean_stripped (strip s)))).
  change (clean_column_name s) with (clean_stripped (strip s)).
  apply clean_stripped_id.
  - apply all_strip, clean_stripped_settled.
  - apply no_double_strip, clean_stripped_no_double.
Qed.


(** ** Labels without a colon: the ends stay clear of whitespace *)

Lemma last_or_nonempty d d' s : s ≠ "" → last_or d s = last_or d' s.
Proof. by destruct s. Qed.

Lemma lstrip_id s : starts_space s = false → lstrip s = s.
Proof. destruct s as [|a t]; [done|]. simpl. by intros ->. Qed.

Lemma rstrip_id s d : is_space (last_or d s) = false → rstrip s = s.
Proof.
  revert d. induction s as [|a t IH]; intros d; [done|]. simpl. intros H.
  rewrite (IH a H). destruct t; [|done]. simpl in H. by rewrite H.
Qed.

Lemma strip_id s :
  starts_space s = false → is_space (last_or underscore s) = false →
  strip s = s.
Proof. intros Hs He. unfold strip. rewrite (lstrip_id s Hs). by eapply rstrip_id. Qed.

Lemma lstrip_starts s : starts_space (lstrip s) = false.
Proof.
  induction s as [|a t IH]; [done|]. simpl.
  destruct (is_space a) eqn:E; [done|]. simpl. done.
Qed.

Lemma rstrip_starts s : starts_space s = false → starts_space (rstrip s) = false.
Proof.
  destruct s as [|a t]; [done|]. simpl. intros Ha.
  destruct (rstrip t); [|done]. by rewrite Ha.
Qed.

Lemma rstrip_ends s d :
  is_space d = false → is_space (last_or d (rstrip s)) = false.
Proof.
  revert d. induction s as [|a t IH]; intros d Hd; [done|]. simpl.
  destruct (rstrip t) as [|b r] eqn:E.
  - destruct (is_space a) eqn:Ea; [done|]. simpl. done.
  - change (last_or d (String a (String b r))) with (last_or d (String b r)).
    by apply IH.
Qed.

Lemma remove_starts c s :
  is_space c = true →
  starts_space s = false → starts_space (replace (String c "") "" s) = false.
Proof.
  intros Hc. destruct s as [|a t]; [done|]. simpl. intros Ha.
  rewrite remove_cons. destruct (Ascii.eqb c a) eqn:E; [|done].
  apply Ascii.eqb_eq in E as ->. congruence.
Qed.

Lemma lower_starts s : starts_space (lower s) = starts_space s.
Proof. destruct s as [|a t]; [done|]. simpl. apply lower_char_space. Qed.

Lemma swap_starts c d s :
  is_space d = false →
  starts_space s = false →
  starts_space (replace (String c "") (String d "") s) = false.
Proof.
  intros Hd. destruct s as [|a t]; [done|]. rewrite swap_cons. simpl.
  by destruct (Ascii.eqb c a).
Qed.

Lemma pair_starts s : starts_space (replace "__" "_" s) = starts_space s.
Proof.
  destruct s as [|a t]; [done|]. rewrite pair_cons.
  destruct t as [|b t']; [done|].
  destruct (Ascii.eqb a underscore) eqn:E; simpl; [|done].
  apply Ascii.eqb_eq in E as ->. by destruct (Ascii.eqb b underscore).
Qed.

Lemma sub_starts s : starts_space (sub_underscores s) = starts_space s.
Proof.
  unfold sub_underscores. destruct s as [|a t]; [done|].
  rewrite sub_go_false_cons.
  destruct (Ascii.eqb a underscore) eqn:E; simpl; [|done].
  apply Ascii.eqb_eq in E as ->. by destruct (starts_underscore t).
Qed.

Lemma remove_ends c s d :
  is_space c = true →
  is_space (last_or d s) = false →
  is_space (last_or d (replace (String c "") "" s)) = false.
Proof.
  intros Hc. revert d. induction s as [|a t IH]; intros d; [done|].
  simpl. intros H. rewrite remove_cons.
  destruct (Ascii.eqb c a) eqn:E.
  - apply Ascii.eqb_eq in E as <-. specialize (IH c H).
    destruct (replace (String c "") "" t) eqn:Et; [simpl in IH; congruence|].
    exact IH.
  - simpl. by apply IH.
Qed.

Lemma lower_ends s d : last_or (lower_char d) (lower s) = lower_char (last_or d s).
Proof. revert d. induction s as [|a t IH]; intros d; [done|]. simpl. apply IH. Qed.

Lemma swap_ends c d' s d :
  last_or (if Ascii.eqb c d then d' else d)
          (replace (String c "") (String d' "") s)
  = (let x := last_or d s in if Ascii.eqb c x then d' else x).
Proof.
  revert d. induction s as [|a t IH]; intros d; [done|].
  rewrite swap_cons. simpl. apply IH.
Qed.

Lemma pair_ends s : ∀ d, last_or d (replace "__" "_" s) = last_or d s.
Proof.
  induction s as [|a|a b t IHt IHbt] using string_pair_ind; intros d;
    [done|by rewrite pair_cons|].
  rewrite pair_cons.
  destruct (Ascii.eqb a underscore && Ascii.eqb b underscore) eqn:E.
  - apply andb_true_iff in E as [_ ->%Ascii.eqb_eq]. simpl. apply IHt.
  - change (last_or d (String a (replace "__" "_" (String b t))))
      with (last_or a (replace "__" "_" (String b t))).
    by rewrite IHbt.
Qed.

Lemma sub_go_ends s :
  (∀ d, last_or d (sub_underscores_go false s) = last_or d s)
  ∧ last_or underscore (sub_underscores_go true s) = last_or underscore s.
Proof.
  induction s as [|a t [IHf IHt]]; [done|].
  rewrite sub_go_false_cons, sub_go_true_cons. split.
  - intros d. destruct (Ascii.eqb a underscore && starts_underscore t) eqn:E.
    + apply andb_true_iff in E as [->%Ascii.eqb_eq _]. simpl. apply IHt.
    + simpl. apply IHf.
  - destruct (Ascii.eqb a underscore) eqn:E.
    + apply Ascii.eqb_eq in E as ->. simpl. apply IHt.
    + simpl. apply IHf.
Qed.

Lemma swap_ends_clear c d' s :
  is_space d' = false → Ascii.eqb c underscore = false →
  is_space (last_or underscore s) = false →
  is_space (last_or underscore (replace (String c "") (String d' "") s)) = false.
Proof.
  intros Hd Hc Hs. pose proof (swap_ends c d' s underscore) as H.
  rewrite Hc in H. rewrite H. cbv zeta.
  by destruct (Ascii.eqb c (last_or underscore s)).
Qed.

Lemma lower_ends_clear s :
  is_space (last_or underscore s) = false →
  is_space (last_or underscore (lower s)) = false.
Proof.
  intros Hs. change underscore with (lower_char underscore) at 1.
  by rewrite lower_ends, lower_char_space.
Qed.

Lemma mentions_all c s :
  mentions c s = false ↔ all_chars (is_not c) s = true.
Proof.
  induction s as [|a t IH]; [done|]. simpl. unfold is_not at 1.
  rewrite orb_false_iff, andb_true_iff, negb_true_iff, IH. done.
Qed.

Lemma clean_column_name_trimmed s :
  mentions ":"%char s = false → trimmed (clean_column_name s).
Proof.
  intros Hno%mentions_all. unfold trimmed, clean_column_name.
  set (x := replace "/" "_" (replace "__" "_" (replace " " "_"
              (lower (replace nl "" (strip s)))))).
  assert (all_chars (is_not ":"%char) x = true) as Hx.
  { unfold x. apply all_swap, all_pair, all_swap, all_lower, all_remove, all_strip;
      try done.
    intros c. unfold is_not. by rewrite lower_char_colon. }
  rewrite (remove_id ":"%char x Hx). apply strip_id.
  - rewrite sub_starts. unfold x.
    apply swap_starts; [done|]. rewrite pair_starts.
    apply swap_starts; [done|]. rewrite lower_starts.
    apply remove_starts; [done|]. unfold strip.
    apply rstrip_starts, lstrip_starts.
  - unfold sub_underscores. rewrite (proj1 (sub_go_ends x)). unfold x.
    apply (swap_ends_clear "/"%char underscore); [done..|].
    rewrite pair_ends.
    apply (swap_ends_clear " "%char underscore); [done..|].
    apply lower_ends_clear, remove_ends; [done|].
    unfold strip. by apply rstrip_ends.
Qed.

End CleanFacts.

(** * The store: what [transform] touches *)

Section Store.
Variable P : gmap ref DataFrame.

(** ** Rules *)

Lemma hoare_ret {A} (a : A) (post : A → world → Prop) epost :
  hoare (post a) (mret a) post epost.
Proof. intros w Hw. exact Hw. Qed.

Lemma hoare_bind {A B} (m : M A) (f : A → M B) pre mid post epost :
  hoare pre m mid epost →
  (∀ a, hoare (mid a) (f a) post epost) →
  hoare pre (m ≫= f) post epost.
Proof.
  intros Hm Hf w Hw. unfold mbind, M_bind. specialize (Hm w Hw).
  destruct (m w) as [[a|e] w']; [by apply Hf|done].
Qed.

Lemma hoare_conseq {A} (m : M A) (pre pre' : world → Prop)
    (post post' : A → world → Prop) epost :
  (∀ w, pre' w → pre w) → (∀ a w, post a w → post' a w) →
  hoare pre m post epost → hoare pre' m post' epost.
Proof.
  intros Hpre Hpost Hm w Hw. specialize (Hm w (Hpre w Hw)).
  destruct (m w) as [[a|e] w']; [by apply Hpost|done].
Qed.

Lemma hoare_info S e :
  hoare (kept P S) (info e) (λ _, kept P S) (benign P).
Proof. intros w Hw. exact Hw. Qed.

Lemma hoare_lift {A} S (r : res A) :
  pythonic r →
  hoare (kept P S) (lift r) (λ a w, kept P S w ∧ r = Ok a) (benign P).
Proof.
  intros [Hd Ho] w Hw. unfold lift. destruct r as [a|e]; [done|].
  split; [apply Hw|]. split; congruence.
Qed.

Lemma hoare_alloc S frame :
  hoare (kept P S) (alloc frame)
        (λ l w, kept P (S ∪ {[l]}) w ∧ P !! l = None) (benign P).
Proof.
  intros w [HP HS]. unfold alloc. simpl.
  pose proof (is_fresh (dom (heap w))) as Hfresh.
  assert (heap w !! fresh (dom (heap w)) = None) as Hnone.
  { by apply not_elem_of_dom. }
  assert (P !! fresh (dom (heap w)) = None) as HPnone.
  { destruct (P !! fresh (dom (heap w))) as [f|] eqn:E; [|done].
    eapply lookup_weaken in E; [|exact HP]. congruence. }
  split; [|done]. split.
  - by apply insert_subseteq_r.
  - simpl. rewrite dom_insert_L. set_solver.
Qed.

Lemma hoare_load S l :
  l ∈ S →
  hoare (kept P S) (load l) (λ _, kept P S) (benign P).
Proof.
  intros Hl w [HP HS]. unfold load.
  assert (l ∈ dom (heap w)) as [f Hf]%elem_of_dom by set_solver.
  rewrite Hf. done.
Qed.

Lemma hoare_store S l frame :
  l ∈ S → P !! l = None →
  hoare (kept P S) (store l frame) (λ _, kept P S) (benign P).
Proof.
  intros Hl HPl w [HP HS]. unfold store. simpl. split.
  - by apply insert_subseteq_r.
  - simpl. rewrite dom_insert_L. set_solver.
Qed.

Lemma kept_fewer S S' w : S' ⊆ S → kept P S w → kept P S' w.
Proof. intros HSS [HP HS]. split; [done|set_solver]. Qed.

Lemma hoare_pre {A} (m : M A) (pre pre' : world → Prop) post epost :
  (∀ w, pre' w → pre w) → hoare pre m post epost → hoare pre' m post epost.
Proof. intros Hpre Hm. by eapply hoare_conseq; [exact Hpre| |exact Hm]. Qed.

Lemma hoare_pure {A} (m : M A) (φ : Prop) pre post epost :
  (φ → hoare pre m post epost) → hoare (λ w, pre w ∧ φ) m post epost.
Proof. intros Hm w [Hw Hφ]. by apply Hm. Qed.

Lemma hoare_done {A} (a : A) (pre : world → Prop) (post : A → world → Prop) epost :
  (∀ w, pre w → post a w) → hoare pre (mret a) post epost.
Proof. intros H w Hw. by apply H. Qed.

(** ** What the lifted computations may raise *)

Lemma pythonic_Ok {A} (a : A) : pythonic (Ok a).
Proof. done. Qed.

Lemma pythonic_bind {A B} (m : res A) (f : A → res B) :
  pythonic m → (∀ a, pythonic (f a)) → pythonic (m ≫= f).
Proof.
  intros [H1 H2] Hf. destruct m as [a|e]; [apply Hf|].
  unfold mbind, res_bind, pythonic. split; congruence.
Qed.

Lemma index_at_pythonic labels i : pythonic (index_at labels i).
Proof.
  unfold pythonic, index_at.
  destruct (decide _); [destruct (labels !! _)|]; done.
Qed.

Lemma index_take_pythonic labels positions :
  pythonic (index_take labels positions).
Proof.
  induction positions as [|i rest IH]; [done|]. simpl.
  apply pythonic_bind; [apply index_at_pythonic|]. intros label.
  apply pythonic_bind; [exact IH|]. intros others. apply pythonic_Ok.
Qed.

Lemma get_column_pythonic col frame : pythonic (get_column col frame).
Proof.
  unfold pythonic, get_column.
  destruct (position_of col (columns frame)); [|done].
  destruct (bool_decide _); done.
Qed.

Lemma str_accessor_pythonic records frame :
  pythonic (str_accessor records frame).
Proof. unfold pythonic. by destruct records. Qed.

Lemma validate_config_pythonic config : pythonic (_validate_config config).
Proof.
  unfold pythonic, _validate_config.
  destruct (negb _); [done|]. destruct (negb _); done.
Qed.

Lemma validate_config_Ok config u :
  _validate_config config = Ok u →
  truthy_str (identifier_field config) = true
  ∧ ∃ field fields, target_fields config = Some (field :: fields).
Proof.
  unfold _validate_config.
  destruct (truthy_str (identifier_field config)); [|done]. simpl.
  destruct (target_fields config) as [[|field fields]|]; try done.
  intros ?. split; [done|]. by exists field, fields.
Qed.

Lemma extract_records_pythonic frame config fields :
  target_fields config = Some fields → pythonic (extract_records frame config).
Proof.
  intros Ht. unfold extract_records.
  rewrite (extract_loop_spec frame config fields Ht) by lia. done.
Qed.

(** ** The methods *)

Section Methods.
Variable to_datetime : list cell → list cell.

Lemma apply_initial_kept S df config :
  df ∈ S →
  hoare (kept P S) (_apply_initial_transformations df config)
        (λ l, kept P (S ∪ {[l]})) (benign P).
Proof.
  intros Hdf. unfold _apply_initial_transformations.
  eapply hoare_bind with (mid := λ l, kept P (S ∪ {[l]})).
  - destruct (decide (skip_rows config ≠ 0%Z)).
    + eapply hoare_bind; [by apply hoare_load|]. intros frame.
      eapply hoare_bind; [apply hoare_alloc|]. intros sliced.
      apply hoare_pure; intros ?.
      eapply hoare_bind; [apply hoare_load; set_solver|]. intros frame'.
      eapply hoare_bind; [apply hoare_alloc|]. intros df'.
      apply hoare_pure; intros ?.
      eapply hoare_bind; [apply hoare_info|]. intros ?.
      apply hoare_done. intros w. apply kept_fewer. set_solver.
    + apply hoare_done. intros w. apply kept_fewer. set_solver.
  - intros l. destruct (drop_columns config) as [[|c cs]|].
    + apply hoare_done. done.
    + eapply hoare_bind; [apply hoare_load; set_solver|]. intros frame.
      eapply hoare_bind; [apply hoare_lift, index_take_pythonic|]. intros labels.
      apply hoare_pure; intros ?.
      eapply hoare_bind; [apply hoare_alloc|]. intros df'.
      apply hoare_pure; intros ?.
      eapply hoare_bind; [apply hoare_info|]. intros ?.
      apply hoare_done. intros w. apply kept_fewer. set_solver.
    + apply hoare_done. done.
Qed.

Lemma extract_records_kept S df config fields :
  target_fields config = Some fields →
  df ∈ S →
  hoare (kept P S) (_extract_records df config) (λ _, kept P S) (benign P).
Proof.
  intros Ht Hdf. unfold _extract_records.
  eapply hoare_bind; [by apply hoare_load|]. intros frame.
  eapply hoare_bind; [by eapply hoare_lift, extract_records_pythonic|].
  intros records. apply hoare_pure; intros ?.
  eapply hoare_bind; [apply hoare_info|]. intros ?.
  by apply hoare_done.
Qed.

Lemma convert_dates_kept S df cols :
  df ∈ S → P !! df = None →
  hoare (kept P S) (convert_dates to_datetime df cols) (λ _, kept P S) (benign P).
Proof.
  intros Hdf HP. induction cols as [|col rest IH]; simpl.
  - by apply hoare_done.
  - eapply hoare_bind; [by apply hoare_load|]. intros frame.
    eapply hoare_bind with (mid := λ _, kept P S); [|intros ?; exact IH].
    destruct (bool_decide (col ∈ columns frame)).
    + eapply hoare_bind; [apply hoare_lift, get_column_pythonic|].
      intros series. apply hoare_pure; intros ?. by apply hoare_store.
    + by apply hoare_done.
Qed.

Lemma create_final_kept S records config :
  hoare (kept P S) (_create_final_dataframe to_datetime records config)
        (λ l w, kept P (S ∪ {[l]}) w ∧ P !! l = None) (benign P).
Proof.
  unfold _create_final_dataframe.
  eapply hoare_bind; [apply hoare_alloc|]. intros df.
  apply hoare_pure; intros Hfresh.
  eapply hoare_bind; [apply hoare_load; set_solver|]. intros frame.
  eapply hoare_bind; [apply hoare_lift, str_accessor_pythonic|]. intros labels.
  apply hoare_pure; intros _.
  eapply hoare_bind; [apply hoare_store; [set_solver|done]|]. intros ?.
  eapply hoare_bind with (mid := λ _, kept P (S ∪ {[df]})).
  { destruct (date_columns config) as [[|c cs]|].
    - by apply hoare_done.
    - apply convert_dates_kept; [set_solver|done].
    - by apply hoare_done. }
  intros ?.
  eapply hoare_bind; [apply hoare_load; set_solver|]. intros frame'.
  eapply hoare_bind; [apply hoare_alloc|]. intros df'.
  apply hoare_pure; intros Hfresh'.
  eapply hoare_bind; [apply hoare_info|]. intros ?.
  apply hoare_done. intros w Hw. split; [|done].
  revert Hw. apply kept_fewer. set_solver.
Qed.

Lemma transform_kept S df config :
  df ∈ S →
  hoare (kept P S) (transform to_datetime df config)
        (λ l w, kept P (S ∪ {[l]}) w ∧ P !! l = None) (benign P).
Proof.
  intros Hdf. unfold transform.
  eapply hoare_bind; [apply hoare_info|]. intros ?.
  eapply hoare_bind; [apply hoare_lift, validate_config_pythonic|]. intros u.
  apply hoare_pure. intros (_ & field & fields & Ht)%validate_config_Ok.
  eapply hoare_bind; [by apply apply_initial_kept|]. intros df1.
  eapply hoare_bind; [eapply extract_records_kept; [done|set_solver]|].
  intros records.
  eapply hoare_bind; [apply create_final_kept|]. intros processed_df.
  apply hoare_pure; intros Hfresh.
  apply hoare_done. intros w Hw. split; [|done].
  revert Hw. apply kept_fewer. set_solver.
Qed.

End Methods.

End Store.

(** * The validator *)

Section ValidatorFacts.
Context {bound : Type}.
Implicit Types (check : V bound ()) (self : DataValidator bound).

Lemma appends_ret : appends (mret tt : V bound ()).
Proof. intros [es ws]. unfold reported. simpl. by rewrite app_nil_r. Qed.

Lemma appends_error (e : error_message bound) : appends (append_error e).
Proof. intros [es ws]. done. Qed.

Lemma reported_seq check1 check2 :
  appends check1 → appends check2 →
  reported (check1;; check2) = reported check1 ++ reported check2.
Proof.
  intros H1 H2. unfold reported at 1, mbind, V_bind.
  rewrite H1. simpl. rewrite H2. done.
Qed.

Lemma appends_seq check1 check2 :
  appends check1 → appends check2 → appends (check1;; check2).
Proof.
  intros H1 H2 self. rewrite reported_seq by done.
  unfold mbind, V_bind. rewrite H1, H2. simpl. by rewrite app_assoc.
Qed.

Lemma appends_for_each {A} (l : list A) (body : A → V bound ()) :
  (∀ x, appends (body x)) → appends (for_each l body).
Proof.
  intros Hbody. induction l as [|x rest IH]; simpl.
  - apply appends_ret.
  - by apply appends_seq.
Qed.

Lemma appends_when_present {A} (rule : option A) (check : A → V bound ()) :
  (∀ a, appends (check a)) → appends (when_present rule check).
Proof. intros H. destruct rule; [apply H|apply appends_ret]. Qed.

Lemma reported_when_present {A} (rule : option A) (check : A → V bound ()) :
  reported (when_present rule check) = category rule check.
Proof. by destruct rule. Qed.

Lemma reported_ret : reported (mret tt : V bound ()) = [].
Proof. done. Qed.

Lemma reported_error (e : error_message bound) : reported (append_error e) = [e].
Proof. done. Qed.

Lemma reported_for_each {A} (l : list A) (body : A → V bound ()) :
  (∀ x, appends (body x)) →
  reported (for_each l body) = flat_map (λ x, reported (body x)) l.
Proof.
  intros Hbody. induction l as [|x rest IH]; [done|]. simpl.
  rewrite reported_seq; [by rewrite IH|done|by apply appends_for_each].
Qed.

(** ** Checks that may raise *)

Lemma appends_steady check : appends check → steady check ∧ outcome check = Ok tt.
Proof.
  intros H. assert (outcome check = Ok tt) as Ho.
  { unfold outcome. by rewrite H. }
  split; [|done]. intros self. by rewrite Ho, H.
Qed.

Lemma steady_appends check : steady check → outcome check = Ok tt → appends check.
Proof. intros H Ho self. by rewrite H, Ho. Qed.

Lemma outcome_seq check1 check2 :
  steady check1 → steady check2 →
  outcome (check1;; check2)
  = match outcome check1 with
    | Ok _ => outcome check2
    | Raise e => Raise e
    end.
Proof.
  intros H1 H2. unfold outcome at 1, mbind, V_bind. rewrite H1.
  destruct (outcome check1); [|done]. by rewrite H2.
Qed.

Lemma reported_steps check1 check2 :
  steady check1 → steady check2 →
  reported (check1;; check2)
  = reported check1 ++ match outcome check1 with
                       | Ok _ => reported check2
                       | Raise _ => []
                       end.
Proof.
  intros H1 H2. unfold reported at 1, mbind, V_bind. rewrite H1.
  destruct (outcome check1); simpl; [by rewrite H2|by rewrite app_nil_r].
Qed.

Lemma steady_seq check1 check2 :
  steady check1 → steady check2 → steady (check1;; check2).
Proof.
  intros H1 H2 self. rewrite outcome_seq, reported_steps by done.
  unfold mbind, V_bind. rewrite H1.
  destruct (outcome check1); [|by rewrite app_nil_r].
  rewrite H2. simpl. by rewrite app_assoc.
Qed.

Lemma steady_for_each {A} (l : list A) (body : A → V bound ()) :
  (∀ x, steady (body x)) → steady (for_each l body).
Proof.
  intros Hbody. induction l as [|x rest IH]; simpl.
  - apply appends_steady, appends_ret.
  - by apply steady_seq.
Qed.

Lemma appends_for_each_in {A} (l : list A) (body : A → V bound ()) :
  (∀ x, x ∈ l → appends (body x)) → appends (for_each l body).
Proof.
  induction l as [|x rest IH]; intros Hbody; simpl.
  - apply appends_ret.
  - apply appends_seq; [apply Hbody, elem_of_cons; by left|].
    apply IH. intros y Hy. apply Hbody, elem_of_cons. by right.
Qed.

Lemma reported_for_each_in {A} (l : list A) (body : A → V bound ()) :
  (∀ x, x ∈ l → appends (body x)) →
  reported (for_each l body) = flat_map (λ x, reported (body x)) l.
Proof.
  induction l as [|x rest IH]; intros Hbody; [done|]. simpl.
  assert (∀ y, y ∈ rest → appends (body y)) as Hrest.
  { intros y Hy. apply Hbody, elem_of_cons. by right. }
  rewrite reported_seq; [by rewrite IH| |by apply appends_for_each_in].
  apply Hbody, elem_of_cons. by left.
Qed.

(** A loop returns exactly when every round does, and raises what one of
    its rounds raises. *)
Lemma outcome_for_each {A} (l : list A) (body : A → V bound ()) :
  (∀ x, steady (body x)) →
  match outcome (for_each l body) with
  | Ok _ => ∀ x, x ∈ l → outcome (body x) = Ok tt
  | Raise e => ∃ x, x ∈ l ∧ outcome (body x) = Raise e
  end.
Proof.
  intros Hbody. induction l as [|x rest IH]; simpl.
  - intros x Hx. by apply elem_of_nil in Hx.
  - rewrite outcome_seq by (done || by apply steady_for_each).
    destruct (outcome (body x)) as [[]|e] eqn:Hx.
    + destruct (outcome (for_each rest body)) as [u|e].
      * intros y [->|Hy]%elem_of_cons; [done|by apply IH].
      * destruct IH as (y & Hy & He). exists y. split; [|done].
        apply elem_of_cons. by right.
    + exists x. split; [apply elem_of_cons; by left|done].
Qed.

Lemma reported_for_each_short {A} (l : list A) (body : A → V bound ()) :
  (∀ x, steady (body x)) → (∀ x, length (reported (body x)) ≤ 1) →
  length (reported (for_each l body)) ≤ length l.
Proof.
  intros Hbody Hshort. induction l as [|x rest IH]; [done|]. simpl.
  rewrite reported_steps by (done || by apply steady_for_each).
  rewrite length_app. specialize (Hshort x).
  destruct (outcome (body x)); simpl; lia.
Qed.

(** The body of a bound check: the comparison, then at most one error. *)
Lemma bound_body_run (compare : res (list bool))
    (err : list nat → error_message bound) self :
  (mask ← raising compare;
   match masked_rows mask with
   | [] => mret tt
   | _ :: _ => append_error (err (masked_rows mask))
   end) self
  = match compare with
    | Ok mask =>
        (Ok tt,
         mkValidator
           (self_errors self ++ match masked_rows mask with
                                | [] => []
                                | at_rows => [err at_rows]
                                end)
           (self_warnings self))
    | Raise e => (Raise e, self)
    end.
Proof.
  unfold mbind, V_bind, raising. destruct compare as [mask|e]; [|done].
  destruct (masked_rows mask); [|done].
  destruct self. simpl. by rewrite app_nil_r.
Qed.

Lemma bound_body_steady (compare : res (list bool))
    (err : list nat → error_message bound) :
  steady (mask ← raising compare;
          match masked_rows mask with
          | [] => mret tt
          | _ :: _ => append_error (err (masked_rows mask))
          end).
Proof.
  intros self. unfold outcome, reported. rewrite !bound_body_run.
  destruct compare as [mask|e]; simpl; [done|].
  destruct self. simpl. by rewrite app_nil_r.
Qed.

Lemma bound_body_outcome (compare : res (list bool))
    (err : list nat → error_message bound) :
  outcome (mask ← raising compare;
           match masked_rows mask with
           | [] => mret tt
           | _ :: _ => append_error (err (masked_rows mask))
           end)
  = match compare with Ok _ => Ok tt | Raise e => Raise e end.
Proof. unfold outcome. rewrite bound_body_run. by destruct compare. Qed.

Lemma bound_body_reported (compare : res (list bool))
    (err : list nat → error_message bound) mask :
  compare = Ok mask →
  reported (mask ← raising compare;
            match masked_rows mask with
            | [] => mret tt
            | _ :: _ => append_error (err (masked_rows mask))
            end)
  = match masked_rows mask with
    | [] => []
    | at_rows => [err at_rows]
    end.
Proof. intros ->. unfold reported. by rewrite bound_body_run. Qed.

Lemma when_present_run {A} (rule : option A) (check : A → V bound ()) self :
  (∀ a, steady (check a)) →
  when_present rule check self
  = (category_outcome rule check,
     mkValidator (self_errors self ++ category rule check) (self_warnings self)).
Proof.
  intros H. destruct rule as [a|]; [apply H|].
  destruct self. simpl. by rewrite app_nil_r.
Qed.

Lemma seq_run {A} (check : V bound ()) (rest : V bound A) self r self' :
  check self = (r, self') →
  (check;; rest) self
  = match r with
    | Ok _ => rest self'
    | Raise e => (Raise e, self')
    end.
Proof. intros H. unfold mbind, V_bind. by rewrite H. Qed.

Section Checks.
Variable strptime_ok : string → string → bool.
Variables series_lt series_gt : list cell → bound → res (list bool).
Variable duplicated : list cell → list bool.
Variable df : DataFrame.

Lemma appends_required required :
  appends (_validate_required_columns (bound := bound) df required).
Proof.
  unfold _validate_required_columns.
  destruct (filter _ required); [apply appends_ret|apply appends_error].
Qed.

Lemma appends_dates date_formats :
  appends (_validate_dates strptime_ok (bound := bound) df date_formats).
Proof.
  apply appends_for_each. intros [column date_format].
  destruct (bool_decide _); [|apply appends_ret].
  destruct (filter _ _); [apply appends_ret|apply appends_error].
Qed.

Lemma appends_numeric numeric :
  appends (_validate_numeric_columns (bound := bound) df numeric).
Proof.
  apply appends_for_each. intros column.
  destruct (bool_decide _); [|apply appends_ret].
  destruct (rows_where _ _); [apply appends_ret|apply appends_error].
Qed.

(** One error per listed column that is present and has an offending
    cell, with the positions of all its offending cells. *)
Lemma reported_numeric numeric :
  reported (_validate_numeric_columns (bound := bound) df numeric)
  = flat_map
      (λ column,
         if bool_decide (column ∈ columns df) then
           match rows_where (λ x, negb (numeric_ok x)) (column_items column df) with
           | [] => []
           | at_rows => [NonNumeric column at_rows]
           end
         else [])
      numeric.
Proof.
  unfold _validate_numeric_columns. rewrite reported_for_each.
  - induction numeric as [|column rest IH]; [done|]. simpl. rewrite IH. f_equal.
    destruct (bool_decide _); [|done]. by destruct (rows_where _ _).
  - intros column. destruct (bool_decide _); [|apply appends_ret].
    destruct (rows_where _ _); [apply appends_ret|apply appends_error].
Qed.

Lemma steady_min min_values :
  steady (_validate_min_values series_lt df min_values).
Proof.
  apply steady_for_each. intros [column min_value].
  destruct (bool_decide _); [|apply appends_steady, appends_ret].
  apply (bound_body_steady _ (BelowMinimum column min_value)).
Qed.

Lemma steady_max max_values :
  steady (_validate_max_values series_gt df max_values).
Proof.
  apply steady_for_each. intros [column max_value].
  destruct (bool_decide _); [|apply appends_steady, appends_ret].
  apply (bound_body_steady _ (AboveMaximum column max_value)).
Qed.

(** With comparisons that give a mask, a bound check returns. *)
Lemma min_round_appends min_values column min_value :
  comparable series_lt df (Some min_values) →
  (column, min_value) ∈ min_values →
  appends
    (if bool_decide (column ∈ columns df) then
       mask ← raising (series_lt (column_cells column df) min_value);
       match masked_rows mask with
       | [] => mret tt
       | _ :: _ => append_error (BelowMinimum column min_value (masked_rows mask))
       end
     else mret tt).
Proof.
  intros Hcmp Hin. destruct (bool_decide _) eqn:Hcol; [|apply appends_ret].
  apply bool_decide_eq_true in Hcol.
  destruct (Hcmp column min_value Hin Hcol) as [mask Hmask].
  apply steady_appends;
    [apply (bound_body_steady _ (BelowMinimum column min_value))|].
  rewrite (bound_body_outcome _ (BelowMinimum column min_value)).
  by rewrite Hmask.
Qed.

Lemma max_round_appends max_values column max_value :
  comparable series_gt df (Some max_values) →
  (column, max_value) ∈ max_values →
  appends
    (if bool_decide (column ∈ columns df) then
       mask ← raising (series_gt (column_cells column df) max_value);
       match masked_rows mask with
       | [] => mret tt
       | _ :: _ => append_error (AboveMaximum column max_value (masked_rows mask))
       end
     else mret tt).
Proof.
  intros Hcmp Hin. destruct (bool_decide _) eqn:Hcol; [|apply appends_ret].
  apply bool_decide_eq_true in Hcol.
  destruct (Hcmp column max_value Hin Hcol) as [mask Hmask].
  apply steady_appends;
    [apply (bound_body_steady _ (AboveMaximum column max_value))|].
  rewrite (bound_body_outcome _ (AboveMaximum column max_value)).
  by rewrite Hmask.
Qed.

Lemma appends_min min_values :
  comparable series_lt df (Some min_values) →
  appends (_validate_min_values series_lt df min_values).
Proof.
  intros Hcmp. apply appends_for_each_in. intros [column min_value] Hin.
  by apply (min_round_appends min_values).
Qed.

Lemma appends_max max_values :
  comparable series_gt df (Some max_values) →
  appends (_validate_max_values series_gt df max_values).
Proof.
  intros Hcmp. apply appends_for_each_in. intros [column max_value] Hin.
  by apply (max_round_appends max_values).
Qed.

Lemma category_returns {A} (rule : option A) (check : A → V bound ()) :
  (∀ a, rule = Some a → appends (check a)) →
  category_outcome rule check = Ok tt.
Proof.
  intros H. destruct rule as [a|]; [|done]. simpl.
  by apply appends_steady, H.
Qed.

Lemma appends_unique unique :
  appends (_validate_unique_columns (bound := bound) duplicated df unique).
Proof.
  apply appends_for_each. intros column.
  destruct (bool_decide _); [|apply appends_ret].
  destruct (masked_rows _); [apply appends_ret|apply appends_error].
Qed.

Lemma appends_custom customs :
  appends (_run_custom_validations (bound := bound) df customs).
Proof.
  apply appends_for_each. intros validation.
  destruct (function validation) as [func|]; [|apply appends_ret].
  cbv zeta.
  destruct (default true (valid (func df))); [apply appends_ret|apply appends_error].
Qed.

Local Abbreviation all_reported :=
  (all_reported strptime_ok series_lt series_gt duplicated df).

(** One call of [validate]: the categories run in order up to the first
    that raises, which only a bound check can; the result is made when
    none does. *)
Lemma validate_run rules self :
  validate strptime_ok series_lt series_gt duplicated df rules self
  = match category_outcome (min_value rules) (_validate_min_values series_lt df) with
    | Raise e =>
        (Raise e,
         mkValidator
           (category (required_columns rules) (_validate_required_columns df)
            ++ category (date_format rules) (_validate_dates strptime_ok df)
            ++ category (numeric_columns rules) (_validate_numeric_columns df)
            ++ category (min_value rules) (_validate_min_values series_lt df))
           [])
    | Ok _ =>
        match category_outcome (max_value rules)
                (_validate_max_values series_gt df) with
        | Raise e =>
            (Raise e,
             mkValidator
               (category (required_columns rules) (_validate_required_columns df)
                ++ category (date_format rules) (_validate_dates strptime_ok df)
                ++ category (numeric_columns rules) (_validate_numeric_columns df)
                ++ category (min_value rules) (_validate_min_values series_lt df)
                ++ category (max_value rules) (_validate_max_values series_gt df))
               [])
        | Ok _ =>
            (Ok (mkResult (bool_decide (length (all_reported rules) = 0))
                          (all_reported rules) []),
             mkValidator (all_reported rules) [])
        end
    end.
Proof.
  unfold validate, all_reported.
  erewrite seq_run by reflexivity. cbv beta iota.
  erewrite seq_run by apply (appends_when_present _ _ appends_required).
  cbv beta iota.
  erewrite seq_run by apply (appends_when_present _ _ appends_dates).
  cbv beta iota.
  erewrite seq_run by apply (appends_when_present _ _ appends_numeric).
  cbv beta iota.
  erewrite seq_run by apply (when_present_run _ _ _ steady_min).
  rewrite !reported_when_present. simpl self_errors. simpl self_warnings.
  destruct (category_outcome (min_value rules) _) as [u|e];
    [|by rewrite <- !app_assoc].
  erewrite seq_run by apply (when_present_run _ _ _ steady_max).
  simpl self_errors. simpl self_warnings.
  destruct (category_outcome (max_value rules) _) as [u'|e];
    [|by rewrite <- !app_assoc].
  erewrite seq_run by apply (appends_when_present _ _ appends_unique).
  cbv beta iota.
  erewrite seq_run by apply (appends_when_present _ _ appends_custom).
  cbv beta iota.
  rewrite !reported_when_present. unfold make_result. simpl.
  by rewrite <- !app_assoc.
Qed.

End Checks.

End ValidatorFacts.

(** ** Numerals pass the numeric check *)

Lemma digit_not_dot c : PyStr.is_digit c = true → Ascii.eqb "."%char c = false.
Proof. CleanFacts.by_cases_on_char c. Qed.

Lemma digit_not_dash c : PyStr.is_digit c = true → is_not "-"%char c = true.
Proof. CleanFacts.by_cases_on_char c. Qed.

Lemma decimal_body_digits seen_digit seen_dot s :
  decimal_body seen_digit seen_dot s = true →
  PyStr.all_chars PyStr.is_digit (PyStr.replace "." "" s) = true
  ∧ (seen_digit = false → PyStr.replace "." "" s ≠ "").
Proof.
  revert seen_digit seen_dot. induction s as [|c t IH]; intros sd dot; simpl.
  - intros ->. done.
  - change (PyStr.replace "." "" (String c t))
      with (PyStr.replace (String "."%char "") "" (String c t)).
    rewrite CleanFacts.remove_cons.
    destruct (PyStr.is_digit c) eqn:Hd.
    + rewrite (digit_not_dot c Hd). intros [Hall _]%IH.
      split; [|done]. simpl. by rewrite Hd.
    + destruct (Ascii.eqb c "."%char) eqn:Hc; [|done].
      rewrite Ascii.eqb_sym, Hc. intros [_ Hbody]%andb_true_iff.
      by apply IH in Hbody.
Qed.

Lemma isdigit_of_digits s :
  PyStr.all_chars PyStr.is_digit s = true → s ≠ "" →
  PyStr.isdigit (PyStr.replace "-" "" s) = true.
Proof.
  intros Hall Hne.
  change (PyStr.replace "-" "" s) with (PyStr.replace (String "-"%char "") "" s).
  rewrite CleanFacts.remove_id.
  - by destruct s.
  - eapply CleanFacts.all_chars_impl; [|exact Hall]. apply digit_not_dash.
Qed.

Lemma signed_decimal_accepted s :
  signed_decimal s = true → numeric_ok (Val s) = true.
Proof.
  unfold signed_decimal, numeric_ok. simpl.
  destruct s as [|c t]; [done|].
  destruct (Ascii.eqb c "-"%char) eqn:Hc.
  - apply Ascii.eqb_eq in Hc as ->. intros [Hall Hne]%decimal_body_digits.
    change (PyStr.replace "." "" (String "-"%char t))
      with (PyStr.replace (String "."%char "") "" (String "-"%char t)).
    rewrite CleanFacts.remove_cons. simpl Ascii.eqb. cbv iota.
    change (PyStr.replace "-" "" (String "-"%char ?x))
      with (PyStr.replace (String "-"%char "") "" (String "-"%char x)).
    rewrite CleanFacts.remove_cons, Ascii.eqb_refl.
    by apply isdigit_of_digits, Hne.
  - intros [Hall Hne]%decimal_body_digits. by apply isdigit_of_digits, Hne.
Qed.

(** * The claims *)

(** C1, as stated, fails: an identifier row whose record comes out empty is
    a record start, yet no record is returned for it. *)
Lemma extract_records_drops_empty_record :
  record_starts lone_identifier name_only_config = [0]
  ∧ record_at lone_identifier name_only_config 0 = []
  ∧ ∃ recs,
      extract_records lone_identifier name_only_config = Ok recs
      ∧ length recs ≠ length (record_starts lone_identifier name_only_config).
Proof.
  split; [vm_compute; reflexivity|]. split; [vm_compute; reflexivity|].
  exists []. split; [vm_compute; reflexivity|]. vm_compute. discriminate.
Qed.

(** C1, amended: for every grid and every config with target fields, the
    scan returns normally; every record-start row is visited, and the
    records returned are, in row order, the non-empty records of those
    rows.  Their number is the number of record-start rows whose record is
    non-empty: an empty record is dropped. *)
Theorem extract_records_keeps_nonempty df config fields :
  target_fields config = Some fields →
  ∃ recs,
    extract_records df config = Ok recs
    ∧ recs = filter (λ rec, rec ≠ [])
               (record_at df config <$> record_starts df config)
    ∧ length recs
      = length (filter (λ i, record_at df config i ≠ []) (record_starts df config))
    ∧ ∀ i, i ∈ record_starts df config →
           _extract_single_record df i (len df) config
           = Ok (record_at df config i).
Proof.
  intros Ht. eexists. split; [|split; [reflexivity|split]].
  - unfold extract_records.
    rewrite (extract_loop_spec df config fields Ht) by lia.
    simpl. by rewrite Nat.sub_0_r.
  - generalize (record_starts df config). intros starts.
    induction starts as [|i starts IH]; [done|]. rewrite fmap_cons.
    destruct (decide (record_at df config i = [])) as [E|E].
    + by rewrite !filter_cons_False by (by intros H; apply H).
    + rewrite !filter_cons_True by done. simpl. f_equal. exact IH.
  - intros i _.
    destruct (extract_single_record_get df i config fields Ht) as (rec & Hrec & _).
    unfold record_at. by rewrite Hrec.
Qed.

Lemma extract_records_keeps_nonempty_witness :
  target_fields (three_config 3) = Some ["Customer ID"; "Name"; "Total"]
  ∧ ∃ recs,
      extract_records three_rows (three_config 3) = Ok recs
      ∧ recs = filter (λ rec, rec ≠ [])
                 (record_at three_rows (three_config 3)
                    <$> record_starts three_rows (three_config 3))
      ∧ length recs
        = length (filter (λ i, record_at three_rows (three_config 3) i ≠ [])
                    (record_starts three_rows (three_config 3)))
      ∧ ∀ i, i ∈ record_starts three_rows (three_config 3) →
             _extract_single_record three_rows i (len three_rows) (three_config 3)
             = Ok (record_at three_rows (three_config 3) i).
Proof.
  split; [reflexivity|].
  apply (extract_records_keeps_nonempty three_rows (three_config 3)
           ["Customer ID"; "Name"; "Total"]).
  reflexivity.
Defined.

(** C2, the code at two inputs the claim decides the other way.  With the
    aliases of [test_field_aliases], a row whose cell is the alias
    ["Customer Number"] of the identifier is not a record start, although
    the alias maps to the identifier; and without aliases a row that holds
    only empty strings is one. *)
Theorem is_record_start_misses_aliases :
  bool_decide ("Customer Number" ∈ identifier_names alias_config) = true
  ∧ _is_record_start (text_row ["Customer Number"; "12345"]) alias_config = false
  ∧ _is_record_start (text_row [""; ""]) basic_config = true
  ∧ ∃ recs, extract_records (iloc_from 2 sample_data) basic_config = Ok recs
            ∧ length recs = 11.
Proof.
  split; [|split; [|split]]; try (vm_compute; reflexivity).
  eexists. split; vm_compute; reflexivity.
Qed.

(** C3: for every grid and every row of it, [_find_field_value] returns
    normally, and its result is the one the specification's search gives:
    nothing without a label column; else the first non-empty trimmed cell
    at offsets [1 .. min(column_search_radius, remaining columns) - 1] to
    the right of the label; only when all of those are blank, the first
    non-empty trimmed cell of the label's column in rows
    [row+1 .. min(row+search_radius, height) - 1]; else nothing.  No other
    result meets that description. *)
Theorem find_field_value_right_then_down df row_idx names config :
  row_idx < len df →
  ∃ result,
    _find_field_value df row_idx names config = Ok result
    ∧ field_value_spec df row_idx names config result
    ∧ ∀ r, field_value_spec df row_idx names config r → r = result.
Proof.
  intros Hrow.
  destruct (find_field_value_sound df row_idx names config Hrow)
    as (result & Hres & Hspec).
  exists result. split; [done|]. split; [done|].
  intros r Hr. by eapply field_value_spec_fun.
Qed.

Lemma find_field_value_right_then_down_witness :
  0 < len three_rows
  ∧ ∃ result,
      _find_field_value three_rows 0 {["Customer ID"]} (three_config 3) = Ok result
      ∧ field_value_spec three_rows 0 {["Customer ID"]} (three_config 3) result
      ∧ ∀ r, field_value_spec three_rows 0 {["Customer ID"]} (three_config 3) r →
             r = result.
Proof.
  split; [vm_compute; lia|].
  apply (find_field_value_right_then_down three_rows 0 {["Customer ID"]}
           (three_config 3)).
  vm_compute. lia.
Defined.

(** C4: for every grid, start row and config with target fields,
    [_extract_single_record] returns a record whose keys are target fields,
    each once and in config order, and in which a field has the value [v]
    exactly when it is a target field and [v] is the result of
    [_find_field_value] at the first row of
    [start_row .. start_row+search_radius-1] (within the grid) where that
    result is not null; a target field with no such row is not a key of the
    record, and no value of the record is the empty string. *)
Theorem extract_single_record_window df start_idx config fields :
  target_fields config = Some fields →
  ∃ rec,
    _extract_single_record df start_idx (len df) config = Ok rec
    ∧ NoDup rec.*1 ∧ rec.*1 `sublist_of` fields
    ∧ ∀ field,
        (∀ v, dict_get field rec = Some v
              ↔ field ∈ fields ∧ first_in_window df config start_idx field v)
        ∧ (field ∉ rec.*1
           ↔ field ∉ fields ∨ none_in_window df config start_idx field)
        ∧ (∀ v, dict_get field rec = Some v → v ≠ "").
Proof.
  intros Ht.
  destruct (extract_single_record_get df start_idx config fields Ht)
    as (rec & Hrec & Hget).
  exists rec. split; [done|].
  destruct (extract_single_record_keys df start_idx config fields rec Ht Hrec)
    as [Hnd Hsub].
  split; [done|]. split; [done|]. intros field.
  pose proof (searched_window df start_idx config field) as Hw.
  specialize (Hget field).
  assert (∀ v, dict_get field rec = Some v
               ↔ field ∈ fields ∧ first_in_window df config start_idx field v)
    as Hsome.
  { intros v. rewrite Hget.
    destruct (searched df start_idx config field) as [[w|]|e]; [| |done].
    - destruct (decide (field ∈ fields)) as [Hin|Hnin].
      + split.
        * intros [= ->]. by split.
        * intros [_ Hv]. f_equal. by eapply first_in_window_fun.
      + split; [done|]. by intros [? _].
    - split; [done|]. intros [_ Hv].
      by destruct (window_exclusive df start_idx config field v). }
  split; [exact Hsome|]. split.
  - rewrite <- dict_get_None. rewrite Hget.
    destruct (searched df start_idx config field) as [[w|]|e]; [| |done].
    + destruct (decide (field ∈ fields)) as [Hin|Hnin].
      * split; [done|]. intros [Hnin|Hnone]; [done|].
        by destruct (window_exclusive df start_idx config field w).
      * split; [by left|done].
    + split; [by right|done].
  - intros v [_ (k & _ & Hv & _)]%Hsome.
    by eapply find_field_value_nonempty.
Qed.

Lemma extract_single_record_window_witness :
  target_fields (three_config 1) = Some ["Customer ID"; "Name"; "Total"]
  ∧ ∃ rec,
      _extract_single_record three_rows 0 (len three_rows) (three_config 1) = Ok rec
      ∧ NoDup rec.*1 ∧ rec.*1 `sublist_of` ["Customer ID"; "Name"; "Total"]
      ∧ ∀ field,
          (∀ v, dict_get field rec = Some v
                ↔ field ∈ ["Customer ID"; "Name"; "Total"]
                  ∧ first_in_window three_rows (three_config 1) 0 field v)
          ∧ (field ∉ rec.*1
             ↔ field ∉ ["Customer ID"; "Name"; "Total"]
               ∨ none_in_window three_rows (three_config 1) 0 field)
          ∧ (∀ v, dict_get field rec = Some v → v ≠ "").
Proof.
  split; [reflexivity|].
  apply (extract_single_record_window three_rows 0 (three_config 1)
           ["Customer ID"; "Name"; "Total"]).
  reflexivity.
Defined.

(** C5, the code at a grid with zero rows (whatever its columns) and the
    test suite's config: no input error is raised before the steps.  The
    config is accepted, the rows are skipped, the scan runs over no row and
    logs that it extracted 0 records; only then, in
    [_create_final_dataframe], the [.str] accessor of the column index of
    [pd.DataFrame([])] raises an [AttributeError], before the closing log
    line ([test_empty_dataframe] expects a [ValueError] instead). *)
Theorem transform_empty_grid_fails_late to_datetime labels :
  _validate_config basic_config = Ok tt
  ∧ len (mkDataFrame labels []) = 0
  ∧ ∃ w',
      transform to_datetime 1%positive basic_config
        (world_of (mkDataFrame labels []))
      = (Raise AttributeError, w')
      ∧ log w' = [LogStart; LogSkipped 2; LogExtracted 0]
      ∧ heap w' !! 1%positive = Some (mkDataFrame labels []).
Proof.
  split; [reflexivity|]. split; [reflexivity|].
  eexists. split; [vm_compute; reflexivity|].
  split; vm_compute; reflexivity.
Qed.

(** C6, the code at a cell that is no numeral: ["1.2.3"] has two dots, and
    ["1-2"] a dash that does not lead, yet the check passes both and
    [validate] reports nothing for the column. *)
Theorem numeric_check_accepts_non_numerals :
  signed_decimal "1.2.3" = false ∧ signed_decimal "1-2" = false
  ∧ numeric_ok (Val "1.2.3") = true ∧ numeric_ok (Val "1-2") = true
  ∧ (validate any_format never never no_repeats (amounts ["1.2.3"; "1-2"])
       numeric_rules (mkValidator [] [])).1
    = Ok (mkResult true [] []).
Proof. repeat split; vm_compute; reflexivity. Qed.

(** C7, as stated, fails: [validate] has no [try] around its categories,
    so what a category raises ends the call.  On a table whose ["note"]
    column holds texts, with a [min_value] rule for that column, the
    comparison of pandas raises a [TypeError]: no result is returned, the
    error of the required columns stays in [self.errors], and the custom
    validation, which would have reported, is never run. *)
Lemma validate_halts_on_text_column :
  validate any_format text_compare text_compare no_repeats notes note_rules
    (mkValidator [] [])
  = (Raise TypeError, mkValidator [MissingColumns ["id"]] [])
  ∧ category (custom_validations note_rules)
             (_run_custom_validations (bound := Z) notes)
    = [CustomFailure "Custom validation failed"]
  ∧ ∀ result,
      (validate any_format text_compare text_compare no_repeats notes note_rules
         (mkValidator [] [])).1 ≠ Ok result.
Proof.
  split; [vm_compute; reflexivity|]. split; [vm_compute; reflexivity|].
  intros result. vm_compute. discriminate.
Qed.

(** C7, amended: for every table and rule set on which the comparisons of
    the bound rules give a mask (none raises), and whatever the validator
    held before, [validate] returns a result whose errors are the reports
    of the categories present in the rule set, each as it reports when run
    on its own, in the fixed order: none is skipped because an earlier one
    reported.  No warning is produced, and [is_valid] holds exactly when
    there is no error. *)
Theorem validate_runs_every_category {bound} strptime_ok
    (series_lt series_gt : list cell → bound → res (list bool)) duplicated
    df rules self :
  comparable series_lt df (min_value rules) →
  comparable series_gt df (max_value rules) →
  ∃ result,
    (validate strptime_ok series_lt series_gt duplicated df rules self).1
    = Ok result
    ∧ errors result
      = category (required_columns rules) (_validate_required_columns df)
        ++ category (date_format rules) (_validate_dates strptime_ok df)
        ++ category (numeric_columns rules) (_validate_numeric_columns df)
        ++ category (min_value rules) (_validate_min_values series_lt df)
        ++ category (max_value rules) (_validate_max_values series_gt df)
        ++ category (unique_columns rules) (_validate_unique_columns duplicated df)
        ++ category (custom_validations rules) (_run_custom_validations df)
    ∧ warnings result = []
    ∧ (is_valid result = true ↔ errors result = []).
Proof.
  intros Hmin Hmax. rewrite validate_run.
  rewrite (category_returns (min_value rules))
    by (intros a Ha; apply appends_min; by rewrite <- Ha).
  rewrite (category_returns (max_value rules))
    by (intros a Ha; apply appends_max; by rewrite <- Ha).
  eexists. split; [reflexivity|]. simpl. split; [done|]. split; [done|].
  rewrite bool_decide_eq_true. apply length_zero_iff_nil.
Qed.

Lemma validate_runs_every_category_witness :
  comparable text_compare notes (min_value amount_rules)
  ∧ comparable text_compare notes (max_value amount_rules)
  ∧ ∃ result,
      (validate any_format text_compare text_compare no_repeats notes amount_rules
         (mkValidator [] [])).1 = Ok result
      ∧ errors result
        = category (required_columns amount_rules) (_validate_required_columns notes)
          ++ category (date_format amount_rules) (_validate_dates any_format notes)
          ++ category (numeric_columns amount_rules)
                      (_validate_numeric_columns notes)
          ++ category (min_value amount_rules)
                      (_validate_min_values text_compare notes)
          ++ category (max_value amount_rules)
                      (_validate_max_values text_compare notes)
          ++ category (unique_columns amount_rules)
                      (_validate_unique_columns no_repeats notes)
          ++ category (custom_validations amount_rules)
                      (_run_custom_validations notes)
      ∧ warnings result = []
      ∧ (is_valid result = true ↔ errors result = []).
Proof.
  assert (∀ b, comparable text_compare notes (Some [("amount", b)])) as Hcmp.
  { intros b column b' Hin _. apply list_elem_of_singleton in Hin.
    injection Hin as -> ->. by eexists. }
  split; [apply Hcmp|]. split; [apply Hcmp|].
  apply (validate_runs_every_category any_format text_compare text_compare
           no_repeats notes amount_rules (mkValidator [] []));
    apply Hcmp.
Defined.

(** C8: for every grid reference, world and config whose identifier field
    is empty or absent, or whose target fields are, [transform] raises a
    [ValueError] with the store as it was: nothing was loaded, and only the
    opening log line was written. *)
Theorem transform_rejects_bad_config to_datetime df config w :
  truthy_str (identifier_field config) = false
  ∨ truthy_list (target_fields config) = false →
  ∃ msg,
    transform to_datetime df config w
    = (Raise (ValueError msg), mkWorld (heap w) (log w ++ [LogStart])).
Proof.
  intros Hbad. unfold transform, mbind, M_bind, info, lift, _validate_config.
  simpl. destruct (truthy_str (identifier_field config)); simpl.
  - destruct Hbad as [?|Ht]; [done|]. rewrite Ht. simpl. by eexists.
  - by eexists.
Qed.

Lemma transform_rejects_bad_config_witness :
  (truthy_str (identifier_field default_config) = false
   ∨ truthy_list (target_fields default_config) = false)
  ∧ ∃ msg,
      transform no_dates 7%positive default_config (world_of sample_data)
      = (Raise (ValueError msg),
         mkWorld (heap (world_of sample_data))
                 (log (world_of sample_data) ++ [LogStart])).
Proof.
  split; [left; reflexivity|].
  apply (transform_rejects_bad_config no_dates 7%positive default_config
           (world_of sample_data)).
  left. reflexivity.
Defined.

(** C9, as stated, fails: cleaning [":<tab>x"] leaves the tab in front,
    which a second cleaning trims. *)
Lemma clean_column_name_not_idempotent :
  clean_column_name (clean_column_name (String ":" (String PyStr.tab "x")))
  ≠ clean_column_name (String ":" (String PyStr.tab "x")).
Proof. vm_compute. discriminate. Qed.

(** C9, amended: for every label, cleaning the cleaned label gives the
    cleaned label with its leading and trailing whitespace trimmed; so
    cleaning twice is cleaning once for every label whose cleaned form has
    no whitespace at its ends, and every label without a [':'] is one. *)
Theorem clean_column_name_twice_trims s :
  clean_column_name (clean_column_name s) = PyStr.strip (clean_column_name s)
  ∧ (mentions ":"%char s = false →
     clean_column_name (clean_column_name s) = clean_column_name s).
Proof.
  split; [apply CleanFacts.clean_column_name_twice|].
  intros Hno. rewrite CleanFacts.clean_column_name_twice.
  by apply CleanFacts.clean_column_name_trimmed.
Qed.

Lemma clean_column_name_twice_trims_witness :
  mentions ":"%char "Order  Date / Total" = false
  ∧ clean_column_name (clean_column_name "Order  Date / Total")
    = clean_column_name "Order  Date / Total".
Proof.
  split; [reflexivity|].
  apply (proj2 (clean_column_name_twice_trims "Order  Date / Total")).
  reflexivity.
Defined.

(** C10: for every world, config and reference to a grid in the store,
    after [transform] (whether it returns or raises) the grid behind the
    reference is the one that was there, as is every other object of the
    store; the table that [transform] returns is a new object. *)
Theorem transform_input_unchanged to_datetime df config w grid :
  heap w !! df = Some grid →
  heap (transform to_datetime df config w).2 !! df = Some grid
  ∧ heap w ⊆ heap (transform to_datetime df config w).2
  ∧ (∀ l, (transform to_datetime df config w).1 = Ok l → heap w !! l = None)
  ∧ (transform to_datetime df config w).1 ≠ Raise Dangling
  ∧ (transform to_datetime df config w).1 ≠ Raise OutOfFuel.
Proof.
  intros Hdf.
  pose proof (transform_kept (heap w) to_datetime {[df]} df config
                ltac:(set_solver) w) as H.
  assert (kept (heap w) {[df]} w) as Hkept.
  { split; [done|]. apply singleton_subseteq_l, elem_of_dom. by eexists. }
  specialize (H Hkept).
  destruct (transform to_datetime df config w) as [[l|e] w']; simpl.
  - destruct H as [[HP _] Hfresh]. split; [by eapply lookup_weaken|].
    split; [done|]. split; [|done]. by intros ? [= <-].
  - destruct H as (HP & Hd & Ho). split; [by eapply lookup_weaken|].
    split; [done|]. split; [done|]. split; congruence.
Qed.

Lemma transform_input_unchanged_witness :
  heap (world_of sample_data) !! 1%positive = Some sample_data
  ∧ heap (transform no_dates 1%positive basic_config (world_of sample_data)).2
      !! 1%positive = Some sample_data
  ∧ heap (world_of sample_data)
    ⊆ heap (transform no_dates 1%positive basic_config (world_of sample_data)).2
  ∧ (∀ l, (transform no_dates 1%positive basic_config (world_of sample_data)).1
          = Ok l → heap (world_of sample_data) !! l = None)
  ∧ (transform no_dates 1%positive basic_config (world_of sample_data)).1
    ≠ Raise Dangling
  ∧ (transform no_dates 1%positive basic_config (world_of sample_data)).1
    ≠ Raise OutOfFuel.
Proof.
  split; [reflexivity|].
  apply (transform_input_unchanged no_dates 1%positive basic_config
           (world_of sample_data) sample_data).
  reflexivity.
Defined.

(** * Further properties of the scanner *)

Lemma strip_strip s : PyStr.strip (PyStr.strip s) = PyStr.strip s.
Proof.
  apply CleanFacts.strip_id.
  - unfold PyStr.strip. apply CleanFacts.rstrip_starts, CleanFacts.lstrip_starts.
  - unfold PyStr.strip. by apply CleanFacts.rstrip_ends.
Qed.

Lemma dict_all_None (rec : record) : (∀ k, dict_get k rec = None) → rec = [].
Proof.
  destruct rec as [|[k v] rec]; [done|]. intros H. specialize (H k).
  simpl in H. by rewrite decide_True in H.
Qed.

(** X1: [_find_next_record_start]: from a start inside the grid (or just past
    it), the result is the first record-start row at or after the start,
    and the number of rows when there is none. *)
Theorem find_next_record_start_least df config start_idx :
  start_idx ≤ len df →
  ∃ next,
    _find_next_record_start df start_idx (len df) config = Ok next
    ∧ start_idx ≤ next ≤ len df
    ∧ (∀ k, start_idx ≤ k < next → is_start df config k = false)
    ∧ (next < len df → is_start df config next = true).
Proof.
  intros Hstart. unfold _find_next_record_start, range.
  pose proof (find_next_go_seq df config start_idx
                (Z.to_nat (Z.of_nat (len df)) - start_idx) ltac:(lia)) as H.
  destruct (find_next_go df (len df) config _) as [next|e]; [|done].
  by exists next.
Qed.

Lemma find_next_record_start_least_witness :
  3 ≤ len sample_data
  ∧ ∃ next,
      _find_next_record_start sample_data 3 (len sample_data) alias_config = Ok next
      ∧ 3 ≤ next ≤ len sample_data
      ∧ (∀ k, 3 ≤ k < next → is_start sample_data alias_config k = false)
      ∧ (next < len sample_data → is_start sample_data alias_config next = true).
Proof.
  split; [vm_compute; lia|].
  apply (find_next_record_start_least sample_data alias_config 3).
  vm_compute. lia.
Defined.

(** X2: [_find_field_value]: a value that is returned is never empty and has
    no whitespace at its ends. *)
Theorem find_field_value_trimmed df row_idx names config v :
  _find_field_value df row_idx names config = Ok (Some v) →
  v ≠ "" ∧ PyStr.strip v = v.
Proof.
  intros Hfv. split; [by eapply find_field_value_nonempty|].
  assert (row_idx < len df) as Hrow.
  { unfold _find_field_value, iloc_row in Hfv.
    destruct (rows df !! row_idx) eqn:E; [|done]. by eapply lookup_lt_Some. }
  destruct (find_field_value_sound df row_idx names config Hrow)
    as (r & Hr & Hspec).
  rewrite Hfv in Hr. injection Hr as <-.
  inversion Hspec as [ | ? ? ? _ _ _ Ht _ | ? ? ? _ _ _ _ Ht _ | ]; subst;
    destruct Ht as (_ & <- & _); apply strip_strip.
Qed.

Lemma find_field_value_trimmed_witness :
  _find_field_value down_only 0 {["Name"]} default_config = Ok (Some "Down")
  ∧ "Down" ≠ "" ∧ PyStr.strip "Down" = "Down".
Proof.
  split; [vm_compute; reflexivity|].
  apply (find_field_value_trimmed down_only 0 {["Name"]} default_config "Down").
  vm_compute. reflexivity.
Defined.

(** X3: [_find_field_value]: both radii count the label's own cell, so with a
    column radius and a row radius of at most 1 neither scan has a cell to
    look at and nothing is ever found. *)
Theorem find_field_value_radius_one df row_idx names config :
  row_idx < len df →
  (column_search_radius config ≤ 1)%Z → (search_radius config ≤ 1)%Z →
  _find_field_value df row_idx names config = Ok None.
Proof.
  intros Hrow Hc Hr.
  destruct (find_field_value_sound df row_idx names config Hrow)
    as (r & -> & Hspec).
  f_equal.
  inversion Hspec as [ | col o v _ Ho1 Ho2 _ _ | col k v _ _ Hk1 Hk2 _ _ | ];
    subst; try done.
  - unfold right_end in Ho2. lia.
  - unfold down_end in Hk2. lia.
Qed.

Lemma find_field_value_radius_one_witness :
  0 < len right_and_down
  ∧ (column_search_radius (mkConfig 0 None None None None None 1 1) ≤ 1)%Z
  ∧ (search_radius (mkConfig 0 None None None None None 1 1) ≤ 1)%Z
  ∧ _find_field_value right_and_down 0 {["Name"]}
      (mkConfig 0 None None None None None 1 1) = Ok None.
Proof.
  split; [vm_compute; lia|]. split; [vm_compute; discriminate|].
  split; [vm_compute; discriminate|].
  apply (find_field_value_radius_one right_and_down 0 {["Name"]}
           (mkConfig 0 None None None None None 1 1)).
  - vm_compute. lia.
  - vm_compute. discriminate.
  - vm_compute. discriminate.
Defined.

(** X4: [_extract_single_record]: with a row radius of zero or less, or a start
    row at or past the end of the grid, no row is searched and the record
    is empty. *)
Theorem extract_single_record_empty df start_idx config fields :
  target_fields config = Some fields →
  (search_radius config ≤ 0)%Z ∨ len df ≤ start_idx →
  _extract_single_record df start_idx (len df) config = Ok [].
Proof.
  intros Ht Hedge.
  destruct (extract_single_record_get df start_idx config fields Ht)
    as (rec & -> & Hget).
  f_equal. apply dict_all_None. intros field. rewrite Hget.
  pose proof (searched_window df start_idx config field) as Hw.
  destruct (searched df start_idx config field) as [[v|]|e]; [|done..].
  destruct Hw as (k & (Hk1 & Hk2 & Hk3) & _). lia.
Qed.

Lemma extract_single_record_empty_witness :
  target_fields (three_config 0) = Some ["Customer ID"; "Name"; "Total"]
  ∧ ((search_radius (three_config 0) ≤ 0)%Z ∨ len three_rows ≤ 0)
  ∧ _extract_single_record three_rows 0 (len three_rows) (three_config 0) = Ok [].
Proof.
  split; [reflexivity|]. split; [left; vm_compute; discriminate|].
  apply (extract_single_record_empty three_rows 0 (three_config 0)
           ["Customer ID"; "Name"; "Total"]).
  - reflexivity.
  - left. vm_compute. discriminate.
Defined.

(** X9: [_is_record_start]: a row is a record start exactly when one of its
    non-missing cells, trimmed, is the identifier or is what
    [field_aliases.get(identifier, '')] gives: the value stored under the
    identifier as a key, and the empty string when there is none.  So a
    row of missing cells never is one, and without such a key a cell that
    is empty after trimming makes its row one. *)
Theorem is_record_start_by_cells row config identifier :
  identifier_field config = Some identifier →
  _is_record_start row config = true
  ↔ ∃ c, c ∈ row ∧ notnull c = true
         ∧ (PyStr.strip (str c) = identifier
            ∨ PyStr.strip (str c)
              = default "" (default ∅ (field_aliases config) !! identifier)).
Proof.
  intros Hid. rewrite is_record_start_labelled. unfold labelled, valid_identifiers.
  rewrite Hid. split.
  - intros (c & Hc & Hn & Hin). exists c. split; [done|]. split; [done|].
    apply elem_of_union in Hin as [Hin|Hin]; apply elem_of_singleton in Hin; tauto.
  - intros (c & Hc & Hn & Hs). exists c. split; [done|]. split; [done|].
    apply elem_of_union. rewrite !elem_of_singleton. tauto.
Qed.

Lemma is_record_start_by_cells_witness :
  identifier_field basic_config = Some "Customer ID"
  ∧ (_is_record_start (text_row [" "; "x"]) basic_config = true
     ↔ ∃ c, c ∈ text_row [" "; "x"] ∧ notnull c = true
            ∧ (PyStr.strip (str c) = "Customer ID"
               ∨ PyStr.strip (str c)
                 = default "" (default ∅ (field_aliases basic_config)
                                 !! "Customer ID"))).
Proof.
  split; [reflexivity|].
  apply (is_record_start_by_cells (text_row [" "; "x"]) basic_config "Customer ID").
  reflexivity.
Defined.

(** X5: The alias set that [_extract_single_record] builds for a field holds
    the field itself and exactly the keys of [field_aliases] whose value is
    the field. *)
Theorem aliases_of_elem name field config :
  name ∈ aliases_of field config
  ↔ name = field
    ∨ ∃ m, field_aliases config = Some m ∧ m !! name = Some field.
Proof.
  unfold aliases_of. destruct (field_aliases config) as [m|].
  - rewrite elem_of_union, elem_of_singleton, elem_of_dom. split.
    + intros [->|[x Hx]]; [by left|]. right. exists m. split; [done|].
      apply map_lookup_filter_Some in Hx as [Hm Hv]. simpl in Hv. by subst.
    + intros [->|(m' & [= <-] & Hm)]; [by left|]. right. exists field.
      by apply map_lookup_filter_Some.
  - rewrite elem_of_singleton. split; [by left|].
    by intros [->|(m & ? & _)].
Qed.

Lemma filter_nil_none {A} (P : A → Prop) `{!∀ x, Decision (P x)} (l : list A) :
  filter P l = [] → ∀ x, x ∈ l → ¬ P x.
Proof.
  induction l as [|a l IH]; intros Hnil x Hx; [by apply elem_of_nil in Hx|].
  destruct (decide (P a)) as [Ha|Ha].
  - by rewrite filter_cons_True in Hnil.
  - rewrite filter_cons_False in Hnil by done.
    apply elem_of_cons in Hx as [->|Hx]; [done|by apply IH].
Qed.

Lemma extract_loop_no_starts df config fuel i records :
  (∀ k, i ≤ k < len df → is_start df config k = false) →
  i ≤ len df → len df - i ≤ fuel →
  extract_loop fuel df config (len df) i records = Ok records.
Proof.
  revert i. induction fuel as [|fuel IH]; intros i Hno Hi Hfuel; simpl.
  - by rewrite decide_True by lia.
  - destruct (decide (len df ≤ i)) as [|Hmore]; [done|].
    destruct (lookup_lt_is_Some_2 (rows df) i) as [row Hrow].
    { unfold len in Hmore. lia. }
    unfold iloc_row. rewrite Hrow. simpl.
    rewrite <- (is_start_row df config i row Hrow), (Hno i) by lia.
    apply IH; [|lia..]. intros k Hk. apply Hno. lia.
Qed.

(** X6: [_extract_records]: when no row is a record start the scan returns no
    records, whatever the config holds; the target fields are not looked
    at. *)
Theorem extract_records_no_start df config :
  record_starts df config = [] → extract_records df config = Ok [].
Proof.
  intros Hnone. unfold extract_records.
  apply extract_loop_no_starts; [|lia..].
  intros k Hk. destruct (is_start df config k) eqn:E; [|done].
  destruct (filter_nil_none _ _ Hnone k); [|done].
  apply elem_of_seq. lia.
Qed.

Lemma extract_records_no_start_witness :
  record_starts sample_data (mkConfig 0 None None (Some "Order") None
                               (Some {["Order" := "Order No"]}) 10 5) = []
  ∧ extract_records sample_data (mkConfig 0 None None (Some "Order") None
                                   (Some {["Order" := "Order No"]}) 10 5) = Ok [].
Proof.
  split; [vm_compute; reflexivity|].
  apply (extract_records_no_start sample_data
           (mkConfig 0 None None (Some "Order") None
              (Some {["Order" := "Order No"]}) 10 5)).
  vm_compute. reflexivity.
Defined.

(** X7: [_extract_records]: with a row radius of zero or less every record
    comes out empty and is dropped, so no record is returned however many
    record starts the grid has. *)
Theorem extract_records_zero_radius df config fields :
  target_fields config = Some fields →
  (search_radius config ≤ 0)%Z →
  extract_records df config = Ok [].
Proof.
  intros Ht Hr. unfold extract_records.
  rewrite (extract_loop_spec df config fields Ht) by lia. f_equal. simpl.
  generalize (filter (λ k, is_start df config k = true) (seq 0 (len df - 0))).
  intros starts. induction starts as [|i starts IH]; [done|].
  rewrite fmap_cons.
  assert (record_at df config i = []) as ->.
  { unfold record_at.
    destruct (extract_single_record_get df i config fields Ht) as (rec & -> & Hget).
    apply dict_all_None. intros field. rewrite Hget.
    pose proof (searched_window df i config field) as Hw.
    destruct (searched df i config field) as [[v|]|e]; [|done..].
    destruct Hw as (k & (Hk1 & Hk2 & Hk3) & _). lia. }
  by rewrite filter_cons_False by (by intros H; apply H).
Qed.

Lemma extract_records_zero_radius_witness :
  target_fields (three_config 0) = Some ["Customer ID"; "Name"; "Total"]
  ∧ (search_radius (three_config 0) ≤ 0)%Z
  ∧ extract_records three_rows (three_config 0) = Ok [].
Proof.
  split; [reflexivity|]. split; [vm_compute; discriminate|].
  apply (extract_records_zero_radius three_rows (three_config 0)
           ["Customer ID"; "Name"; "Total"]).
  - reflexivity.
  - vm_compute. discriminate.
Defined.

Lemma record_at_shape df config fields i :
  target_fields config = Some fields →
  NoDup (record_at df config i).*1
  ∧ ∀ k v, dict_get k (record_at df config i) = Some v → k ∈ fields ∧ v ≠ "".
Proof.
  intros Ht.
  destruct (extract_single_record_get df i config fields Ht) as (rec & Hrec & Hget).
  destruct (extract_single_record_keys df i config fields rec Ht Hrec) as [Hnd _].
  unfold record_at. rewrite Hrec. split; [done|]. intros k v. rewrite Hget.
  pose proof (searched_window df i config k) as Hw.
  destruct (searched df i config k) as [[w|]|e]; [|done..].
  destruct (decide (k ∈ fields)); [|done]. intros [= ->]. split; [done|].
  destruct Hw as (r & _ & Hv & _). by eapply find_field_value_nonempty.
Qed.

(** X8: [_extract_records]: every record returned is non-empty, has each key
    once, has only target fields as keys and no empty value; and there are
    at most as many records as record starts, which are at most as many as
    rows. *)
Theorem extract_records_shape df config fields recs :
  target_fields config = Some fields →
  extract_records df config = Ok recs →
  Forall (λ rec, rec ≠ [] ∧ NoDup rec.*1
                 ∧ ∀ k v, dict_get k rec = Some v → k ∈ fields ∧ v ≠ "") recs
  ∧ length recs ≤ length (record_starts df config)
  ∧ length (record_starts df config) ≤ len df.
Proof.
  intros Ht. unfold extract_records.
  rewrite (extract_loop_spec df config fields Ht) by lia. simpl.
  rewrite Nat.sub_0_r. fold (record_starts df config). intros [= <-].
  split; [|split].
  - apply Forall_forall. intros rec [Hne Hin]%list_elem_of_filter.
    apply list_elem_of_fmap in Hin as (i & -> & _).
    split; [done|]. by apply record_at_shape.
  - etrans; [apply length_filter|]. by rewrite length_fmap.
  - unfold record_starts. etrans; [apply length_filter|]. by rewrite length_seq.
Qed.

Lemma extract_records_shape_witness :
  target_fields (three_config 3) = Some ["Customer ID"; "Name"; "Total"]
  ∧ extract_records three_rows (three_config 3)
    = Ok [[("Customer ID", "12345"); ("Name", "John Doe"); ("Total", "500.00")]]
  ∧ Forall (λ rec, rec ≠ [] ∧ NoDup rec.*1
                   ∧ ∀ k v, dict_get k rec = Some v
                            → k ∈ ["Customer ID"; "Name"; "Total"] ∧ v ≠ "")
      [[("Customer ID", "12345"); ("Name", "John Doe"); ("Total", "500.00")]]
  ∧ length [[("Customer ID", "12345"); ("Name", "John Doe"); ("Total", "500.00")]]
    ≤ length (record_starts three_rows (three_config 3))
  ∧ length (record_starts three_rows (three_config 3)) ≤ len three_rows.
Proof.
  split; [reflexivity|]. split; [vm_compute; reflexivity|].
  apply (extract_records_shape three_rows (three_config 3)
           ["Customer ID"; "Name"; "Total"]).
  - reflexivity.
  - vm_compute. reflexivity.
Defined.

(** * Further properties of the column-name cleaning *)

Module CleanLength.
Import PyStr.

Lemma length_lstrip s : String.length (lstrip s) ≤ String.length s.
Proof.
  induction s as [|a t IH]; [done|]. simpl. destruct (is_space a); simpl; lia.
Qed.

Lemma length_rstrip s : String.length (rstrip s) ≤ String.length s.
Proof.
  induction s as [|a t IH]; [done|]. simpl.
  destruct (rstrip t) as [|b r].
  - destruct (is_space a); simpl; lia.
  - simpl in *. lia.
Qed.

Lemma length_strip s : String.length (strip s) ≤ String.length s.
Proof.
  unfold strip. etrans; [apply length_rstrip|apply length_lstrip].
Qed.

Lemma length_remove c s :
  String.length (replace (String c "") "" s) ≤ String.length s.
Proof.
  induction s as [|a t IH]; [done|]. rewrite CleanFacts.remove_cons.
  destruct (Ascii.eqb c a); simpl; lia.
Qed.

Lemma length_swap c d s :
  String.length (replace (String c "") (String d "") s) = String.length s.
Proof.
  induction s as [|a t IH]; [done|]. rewrite CleanFacts.swap_cons.
  simpl. by rewrite IH.
Qed.

Lemma length_lower s : String.length (lower s) = String.length s.
Proof. induction s as [|a t IH]; [done|]. simpl. by rewrite IH. Qed.

Lemma length_pair s : String.length (replace "__" "_" s) ≤ String.length s.
Proof.
  induction s as [|a|a b t IHt IHbt] using CleanFacts.string_pair_ind;
    [done|by rewrite CleanFacts.pair_cons|].
  rewrite CleanFacts.pair_cons.
  destruct (Ascii.eqb a underscore && Ascii.eqb b underscore).
  - simpl. lia.
  - change (String.length (String a (replace "__" "_" (String b t))))
      with (S (String.length (replace "__" "_" (String b t)))).
    change (String.length (String a (String b t)))
      with (S (String.length (String b t))).
    lia.
Qed.

Lemma length_sub_go in_run s :
  String.length (sub_underscores_go in_run s) ≤ String.length s.
Proof.
  revert in_run. induction s as [|a t IH]; intros in_run; [done|].
  destruct in_run.
  - rewrite CleanFacts.sub_go_true_cons.
    destruct (Ascii.eqb a underscore); simpl;
      [specialize (IH true)|specialize (IH false)]; lia.
  - rewrite CleanFacts.sub_go_false_cons.
    destruct (Ascii.eqb a underscore && starts_underscore t); simpl;
      [specialize (IH true)|specialize (IH false)]; lia.
Qed.

End CleanLength.

(** X10: [_clean_column_names]: a cleaned label holds no space, newline, ['/']
    or [':'], no upper-case letter, and no two underscores in a row. *)
Theorem clean_column_name_form s :
  mentions " "%char (clean_column_name s) = false
  ∧ mentions PyStr.newline (clean_column_name s) = false
  ∧ mentions "/"%char (clean_column_name s) = false
  ∧ mentions ":"%char (clean_column_name s) = false
  ∧ PyStr.lower (clean_column_name s) = clean_column_name s
  ∧ no_double_underscore (clean_column_name s) = true.
Proof.
  change (clean_column_name s) with (clean_stripped (PyStr.strip s)).
  pose proof (CleanFacts.clean_stripped_settled (PyStr.strip s)) as H.
  apply CleanFacts.all_settled in H as (Hnl & Hsp & Hsl & Hco & Hlow).
  rewrite !CleanFacts.mentions_all.
  repeat split; try done.
  - by apply CleanFacts.lower_id.
  - apply CleanFacts.clean_stripped_no_double.
Qed.

(** X11: [_clean_column_names]: a cleaned label is never longer than the
    label in lower case.  Lower-casing is the one step that can lengthen a
    label (it keeps the length of every label of this model; beyond the
    code points below 256, U+0130 lowers to two code points); every other
    step removes characters or puts one in the place of one. *)
Theorem clean_column_name_length s :
  String.length (clean_column_name s) ≤ String.length (PyStr.lower s).
Proof.
  rewrite (CleanLength.length_lower s).
  unfold clean_column_name, PyStr.sub_underscores.
  etrans; [apply CleanLength.length_sub_go|].
  etrans; [apply (CleanLength.length_remove ":"%char)|].
  rewrite (CleanLength.length_swap "/"%char PyStr.underscore).
  etrans; [apply CleanLength.length_pair|].
  rewrite (CleanLength.length_swap " "%char PyStr.underscore).
  rewrite CleanLength.length_lower.
  etrans; [apply (CleanLength.length_remove PyStr.newline)|].
  apply CleanLength.length_strip.
Qed.

(** X12: [_clean_column_names]: a second cleaning may still change a label, a
    third never does. *)
Theorem clean_column_name_settles s :
  clean_column_name (clean_column_name (clean_column_name s))
  = clean_column_name (clean_column_name s).
Proof.
  rewrite (CleanFacts.clean_column_name_twice (clean_column_name s)).
  rewrite (CleanFacts.clean_column_name_twice s).
  apply strip_strip.
Qed.

(** * Further properties of the table methods *)

(** ** Running a computation step by step *)

Lemma bind_Ok {A B} (m : M A) (f : A → M B) w a w1 :
  m w = (Ok a, w1) → (m ≫= f) w = f a w1.
Proof. intros H. unfold mbind, M_bind. by rewrite H. Qed.

Lemma bind_Raise {A B} (m : M A) (f : A → M B) w e w1 :
  m w = (Raise e, w1) → (m ≫= f) w = (Raise e, w1).
Proof. intros H. unfold mbind, M_bind. by rewrite H. Qed.

Lemma load_Some l w frame : heap w !! l = Some frame → load l w = (Ok frame, w).
Proof. intros H. unfold load. by rewrite H. Qed.

Lemma fresh_None (w : world) : heap w !! fresh (dom (heap w)) = None.
Proof. apply not_elem_of_dom, is_fresh. Qed.

(** ** Frames cut down to all of their positions *)

Lemma fmap_lookup_seq {A} (d : A) (l : list A) :
  (λ j, default d (l !! j)) <$> seq 0 (length l) = l.
Proof.
  apply list_eq. intros i. rewrite list_lookup_fmap.
  destruct (decide (i < length l)) as [Hi|Hi].
  - rewrite lookup_seq_lt by done. simpl.
    destruct (lookup_lt_is_Some_2 l i Hi) as [x ->]. done.
  - rewrite lookup_seq_ge by lia. simpl. symmetry. apply lookup_ge_None. lia.
Qed.

Lemma filter_seq_all (keep : nat → bool) lo n :
  (∀ j, lo ≤ j < lo + n → keep j = true) →
  filter (λ j, keep j = true) (seq lo n) = seq lo n.
Proof.
  revert lo. induction n as [|n IH]; intros lo Hk; [done|].
  simpl. rewrite filter_cons_True by (apply Hk; lia). f_equal.
  apply IH. intros j Hj. apply Hk. lia.
Qed.

Lemma select_all_positions df :
  Forall (λ row, length row = width df) (rows df) →
  select_positions (seq 0 (width df)) df = df.
Proof.
  intros Hrows. destruct df as [cols rws]. unfold select_positions, width in *.
  simpl in *. f_equal.
  - apply fmap_lookup_seq.
  - induction Hrows as [|row rws Hrow _ IH]; [done|].
    rewrite fmap_cons, IH. f_equal. rewrite <- Hrow. apply fmap_lookup_seq.
Qed.

(** ** The keys of a list of records *)

Lemma add_keys_elem k keys (rec : record) :
  k ∈ add_keys keys rec ↔ k ∈ keys ∨ k ∈ rec.*1.
Proof.
  revert keys. induction rec as [|[k' v'] rec IH]; intros keys; simpl.
  - rewrite elem_of_nil. tauto.
  - rewrite IH, elem_of_cons. destruct (bool_decide (k' ∈ keys)) eqn:E.
    + apply bool_decide_eq_true in E. split; [tauto|].
      intros [?|[->|?]]; tauto.
    + rewrite elem_of_app, list_elem_of_singleton. tauto.
Qed.

Lemma keys_of_elem_from k keys (records : list record) :
  k ∈ foldl add_keys keys records
  ↔ k ∈ keys ∨ ∃ rec, rec ∈ records ∧ k ∈ rec.*1.
Proof.
  revert keys. induction records as [|rec records IH]; intros keys; simpl.
  - split; [by left|]. intros [?|(rec & Hin & _)]; [done|].
    by apply elem_of_nil in Hin.
  - rewrite IH, add_keys_elem. split.
    + intros [[?|?]|(rec' & Hin & Hk)]; [by left| |].
      * right. exists rec. split; [apply elem_of_cons; by left|done].
      * right. exists rec'. split; [apply elem_of_cons; by right|done].
    + intros [?|(rec' & [->|Hin]%elem_of_cons & Hk)]; [tauto|tauto|].
      right. by exists rec'.
Qed.

Lemma keys_of_elem k (records : list record) :
  k ∈ keys_of records ↔ ∃ rec, rec ∈ records ∧ k ∈ rec.*1.
Proof.
  unfold keys_of. rewrite keys_of_elem_from, elem_of_nil. tauto.
Qed.

Lemma add_keys_NoDup keys (rec : record) : NoDup keys → NoDup (add_keys keys rec).
Proof.
  revert keys. induction rec as [|[k v] rec IH]; intros keys Hnd; [done|].
  simpl. apply IH. destruct (bool_decide (k ∈ keys)) eqn:E; [done|].
  apply bool_decide_eq_false in E. apply NoDup_app. split; [done|].
  split; [|apply NoDup_singleton]. by intros x Hx ->%list_elem_of_singleton.
Qed.

Lemma keys_of_NoDup (records : list record) : NoDup (keys_of records).
Proof.
  unfold keys_of. assert (NoDup (@nil string)) as H by constructor.
  revert H. generalize (@nil string). induction records as [|rec records IH];
    intros keys Hnd; [done|].
  simpl. by apply IH, add_keys_NoDup.
Qed.

(** ** The order of the keys *)

Lemma add_keys_app keys (r1 r2 : record) :
  add_keys keys (r1 ++ r2) = add_keys (add_keys keys r1) r2.
Proof.
  revert keys. induction r1 as [|[k v] r1 IH]; intros keys; [done|].
  simpl. apply IH.
Qed.

Lemma keys_of_flat keys (records : list record) :
  foldl add_keys keys records = add_keys keys (mjoin records).
Proof.
  revert keys. induction records as [|rec records IH]; intros keys; [done|].
  simpl. by rewrite IH, add_keys_app.
Qed.

Lemma add_keys_prefix keys (rec : record) : ∃ ext, add_keys keys rec = keys ++ ext.
Proof.
  revert keys. induction rec as [|[k v] rec IH]; intros keys; simpl.
  - exists []. by rewrite app_nil_r.
  - destruct (bool_decide (k ∈ keys)); [apply IH|].
    destruct (IH (keys ++ [k])) as [ext ->]. exists ([k] ++ ext).
    by rewrite <- app_assoc.
Qed.

Lemma add_keys_new keys (rec : record) j k :
  NoDup keys → add_keys keys rec !! j = Some k → length keys ≤ j → k ∉ keys.
Proof.
  intros Hnd Hj Hle Hin. destruct (add_keys_prefix keys rec) as [ext Hext].
  apply list_elem_of_lookup in Hin as [i Hi].
  pose proof (lookup_lt_Some _ _ _ Hi) as Hlt.
  assert (add_keys keys rec !! i = Some k) as Hi'.
  { rewrite Hext. by apply lookup_app_l_Some. }
  pose proof (NoDup_lookup _ i j k (add_keys_NoDup keys rec Hnd) Hi' Hj). lia.
Qed.

Lemma add_keys_order keys (rec : record) j1 j2 k1 k2 :
  NoDup keys →
  add_keys keys rec !! j1 = Some k1 → add_keys keys rec !! j2 = Some k2 →
  j1 < j2 → length keys ≤ j2 →
  j1 < length keys ∨ met_before rec.*1 k1 k2.
Proof.
  revert keys. induction rec as [|[k v] rec IH]; intros keys Hnd H1 H2 Hlt Hle.
  - simpl in H2. apply lookup_lt_Some in H2. lia.
  - simpl in H1, H2. destruct (bool_decide (k ∈ keys)) eqn:E.
    + apply bool_decide_eq_true in E.
      destruct (IH keys Hnd H1 H2 Hlt Hle) as [?|(p1 & Hp1 & Hfirst)]; [by left|].
      right. exists (S p1). split; [done|]. intros [|p2] Hp2.
      * simpl in Hp2. injection Hp2 as <-.
        by destruct (add_keys_new keys rec j2 k Hnd H2 Hle).
      * apply Hfirst in Hp2. lia.
    + apply bool_decide_eq_false in E.
      assert (NoDup (keys ++ [k])) as Hnd'.
      { apply NoDup_app. split; [done|]. split; [|apply NoDup_singleton].
        by intros x Hx ->%list_elem_of_singleton. }
      assert (NoDup (add_keys (keys ++ [k]) rec)) as Hall
        by (by apply add_keys_NoDup).
      assert (add_keys (keys ++ [k]) rec !! length keys = Some k) as Hk.
      { destruct (add_keys_prefix (keys ++ [k]) rec) as [ext ->].
        rewrite <- app_assoc. by apply list_lookup_middle. }
      destruct (decide (length (keys ++ [k]) ≤ j2)) as [Hfar|Hnear].
      * destruct (IH (keys ++ [k]) Hnd' H1 H2 Hlt Hfar)
          as [Hin|(p1 & Hp1 & Hfirst)].
        -- rewrite length_app in Hin. simpl in Hin.
           destruct (decide (j1 < length keys)) as [|Hj1]; [by left|].
           assert (j1 = length keys) as -> by lia.
           assert (k1 = k) as -> by congruence.
           right. exists 0. split; [done|]. intros [|p2] Hp2; [|lia].
           simpl in Hp2. injection Hp2 as <-.
           pose proof (NoDup_lookup _ _ _ _ Hall Hk H2). lia.
        -- right. exists (S p1). split; [done|]. intros [|p2] Hp2.
           ++ simpl in Hp2. injection Hp2 as <-.
              destruct (add_keys_new (keys ++ [k]) rec j2 k Hnd' H2 Hfar).
              apply elem_of_app. right. by apply list_elem_of_singleton.
           ++ apply Hfirst in Hp2. lia.
      * rewrite length_app in Hnear. simpl in Hnear. left. lia.
Qed.

Lemma keys_of_order (records : list record) j1 j2 k1 k2 :
  keys_of records !! j1 = Some k1 → keys_of records !! j2 = Some k2 →
  j1 < j2 → met_before (keys_read records) k1 k2.
Proof.
  unfold keys_of, keys_read. rewrite keys_of_flat. intros H1 H2 Hlt.
  destruct (add_keys_order [] (mjoin records) j1 j2 k1 k2) as [Hin|Hmet];
    try done.
  - constructor.
  - simpl. lia.
  - simpl in Hin. lia.
Qed.

(** ** The assembled table *)

Lemma assembled_rows_width (records : list record) :
  Forall (λ row, length row = width (assembled records)) (rows (assembled records)).
Proof.
  unfold assembled, frame_of_records, width, _clean_column_names. simpl.
  apply Forall_fmap, Forall_forall. intros rec _. simpl.
  by rewrite !length_fmap.
Qed.

Lemma assembled_cell (records : list record) i j rec k :
  records !! i = Some rec → keys_of records !! j = Some k →
  cell_at (assembled records) i j
  = match dict_get k rec with Some v => Val v | None => NaN end.
Proof.
  intros Hi Hj. unfold cell_at, assembled, frame_of_records, cell_of. simpl.
  rewrite list_lookup_fmap, Hi. simpl. rewrite list_lookup_fmap, Hj. done.
Qed.

Lemma assembled_column_filled (records : list record) j :
  j < width (assembled records) →
  existsb (λ row, notnull (cell_of row j)) (rows (assembled records)) = true.
Proof.
  unfold width, assembled, _clean_column_names. simpl. rewrite length_fmap.
  intros Hj. destruct (lookup_lt_is_Some_2 _ _ Hj) as [k Hk].
  assert (k ∈ keys_of records) as Hin by (by eapply list_elem_of_lookup_2).
  apply keys_of_elem in Hin as (rec & Hrec & Hkey).
  apply existsb_exists.
  exists ((λ k, match dict_get k rec with Some v => Val v | None => NaN end)
            <$> keys_of records).
  split.
  - apply list_elem_of_In. unfold frame_of_records. simpl.
    apply list_elem_of_fmap. by exists rec.
  - unfold cell_of. rewrite list_lookup_fmap, Hk. simpl.
    destruct (dict_get k rec) eqn:E; [done|].
    by apply dict_get_None in E.
Qed.

Lemma dropna_assembled (records : list record) :
  dropna_columns (assembled records) = assembled records.
Proof.
  unfold dropna_columns, positions_where.
  rewrite filter_seq_all.
  - apply select_all_positions, assembled_rows_width.
  - intros j Hj. apply assembled_column_filled. lia.
Qed.

(** ** [_apply_initial_transformations] *)

Lemma alloc_run frame w :
  alloc frame w
  = (Ok (fresh (dom (heap w))),
     mkWorld (<[fresh (dom (heap w)) := frame]> (heap w)) (log w)).
Proof. done. Qed.

Lemma heap_grows_alloc (w : world) frame :
  heap w ⊆ <[fresh (dom (heap w)) := frame]> (heap w).
Proof. apply insert_subseteq, fresh_None. Qed.

Lemma skip_run df (k : Z) w grid :
  heap w !! df = Some grid →
  ∃ l w1,
    (frame ← load df;
     sliced ← alloc (iloc_from k frame);
     frame ← load sliced;
     df ← alloc (reset_index frame);
     info (LogSkipped k);;
     mret df) w = (Ok l, w1)
    ∧ heap w1 !! l = Some (iloc_from k grid)
    ∧ heap w ⊆ heap w1
    ∧ log w1 = log w ++ [LogSkipped k]
    ∧ heap w !! l = None.
Proof.
  intros Hdf. eexists _, _. split.
  - erewrite bind_Ok by (by apply load_Some).
    erewrite bind_Ok by apply alloc_run.
    erewrite bind_Ok by (apply load_Some; simpl; apply lookup_insert_eq).
    erewrite bind_Ok by apply alloc_run.
    reflexivity.
  - simpl. split; [apply lookup_insert_eq|]. split; [|split; [done|]].
    + etrans; [apply heap_grows_alloc|].
      apply insert_subseteq, not_elem_of_dom, is_fresh.
    + apply not_elem_of_dom. intros Hin.
      apply (is_fresh (dom (<[fresh (dom (heap w)) := iloc_from k grid]> (heap w)))).
      by apply dom_insert_subseteq.
Qed.

Lemma drop_run df positions w frame :
  heap w !! df = Some frame →
  match index_take (columns frame) positions with
  | Ok labels =>
      ∃ l w1,
        (frame ← load df;
         labels ← lift (index_take (columns frame) positions);
         df ← alloc (drop_labels labels frame);
         info (LogDropped positions);;
         mret df) w = (Ok l, w1)
        ∧ heap w1 !! l = Some (drop_labels labels frame)
        ∧ heap w ⊆ heap w1
        ∧ log w1 = log w ++ [LogDropped positions]
        ∧ heap w !! l = None
  | Raise e =>
      (frame ← load df;
       labels ← lift (index_take (columns frame) positions);
       df ← alloc (drop_labels labels frame);
       info (LogDropped positions);;
       mret df) w = (Raise e, w)
  end.
Proof.
  intros Hdf. destruct (index_take (columns frame) positions) as [labels|e] eqn:E.
  - eexists _, _. split.
    + erewrite bind_Ok by (by apply load_Some).
      erewrite bind_Ok by (unfold lift; by rewrite E).
      erewrite bind_Ok by apply alloc_run.
      reflexivity.
    + simpl. split; [apply lookup_insert_eq|]. split; [|split; [done|]].
      * apply heap_grows_alloc.
      * apply fresh_None.
  - erewrite bind_Ok by (by apply load_Some).
    erewrite bind_Raise by (unfold lift; by rewrite E). done.
Qed.

Lemma apply_initial_run df config w grid :
  heap w !! df = Some grid →
  match prepared config grid with
  | Ok frame =>
      ∃ l w1,
        _apply_initial_transformations df config w = (Ok l, w1)
        ∧ heap w1 !! l = Some frame
        ∧ heap w ⊆ heap w1
        ∧ log w1 = log w ++ prepared_log config
        ∧ (prepared_log config = [] → l = df ∧ w1 = w)
        ∧ (prepared_log config ≠ [] → heap w !! l = None)
  | Raise e =>
      ∃ w1, _apply_initial_transformations df config w = (Raise e, w1)
            ∧ heap w ⊆ heap w1
  end.
Proof.
  intros Hdf. unfold _apply_initial_transformations, prepared, prepared_log.
  destruct (decide (skip_rows config ≠ 0%Z)) as [Hskip|Hskip].
  - destruct (skip_run df (skip_rows config) w grid Hdf)
      as (l1 & w1 & Hrun & Hl1 & Hsub & Hlog & Hnew).
    erewrite bind_Ok by exact Hrun.
    destruct (drop_columns config) as [[|c cs]|].
    + exists l1, w1. rewrite Hlog. by repeat split.
    + pose proof (drop_run l1 (c :: cs) w1 _ Hl1) as Hdrop.
      cbv zeta. simpl columns in *.
      destruct (index_take (columns grid) (c :: cs)) as [labels|e]; simpl.
      * destruct Hdrop as (l2 & w2 & Hrun2 & Hl2 & Hsub2 & Hlog2 & Hnew2).
        exists l2, w2. split; [done|]. split; [done|].
        split; [by etrans|]. split; [|split; [done|]].
        -- by rewrite Hlog2, Hlog, <- app_assoc.
        -- intros _. destruct (heap w !! l2) as [x|] eqn:E; [|done].
           eapply lookup_weaken in E; [|exact Hsub]. congruence.
      * exists w1. by split.
    + exists l1, w1. rewrite Hlog. by repeat split.
  - erewrite bind_Ok by reflexivity.
    destruct (drop_columns config) as [[|c cs]|].
    + exists df, w. rewrite app_nil_r. by repeat split.
    + pose proof (drop_run df (c :: cs) w _ Hdf) as Hdrop. cbv zeta.
      destruct (index_take (columns grid) (c :: cs)) as [labels|e]; simpl.
      * destruct Hdrop as (l2 & w2 & Hrun2 & Hl2 & Hsub2 & Hlog2 & Hnew2).
        exists l2, w2. by repeat split.
      * exists w. by split.
    + exists df, w. rewrite app_nil_r. by repeat split.
Qed.

(** ** The prepared grid, cell by cell *)

Lemma slice_from_drop {A} (k : Z) (l : list A) :
  slice_from k l = drop (rows_skipped k (length l)) l.
Proof. unfold slice_from, rows_skipped. by destruct (decide _). Qed.

Lemma iloc_from_cell k grid i j :
  cell_at (iloc_from k grid) i j
  = cell_at grid (rows_skipped k (len grid) + i) j.
Proof.
  unfold cell_at, iloc_from, len. simpl. by rewrite slice_from_drop, lookup_drop.
Qed.

Lemma iloc_from_len k grid :
  len (iloc_from k grid) = len grid - rows_skipped k (len grid).
Proof.
  unfold len, iloc_from. simpl. by rewrite slice_from_drop, length_drop.
Qed.

Lemma index_at_label labels p :
  index_at labels p
  = match label_at labels p with
    | Some c => Ok c
    | None => Raise IndexError
    end.
Proof.
  unfold index_at, label_at. destruct (decide (0 ≤ p)%Z).
  - rewrite decide_True by done. by destruct (labels !! _).
  - destruct (decide (0 ≤ _ + p)%Z); [by destruct (labels !! _)|done].
Qed.

Lemma index_take_spec labels positions :
  match index_take labels positions with
  | Ok ls => Forall2 (λ p c, label_at labels p = Some c) positions ls
  | Raise e =>
      e = IndexError ∧ ¬ Forall (λ p, is_Some (label_at labels p)) positions
  end.
Proof.
  induction positions as [|p rest IH]; simpl; [constructor|].
  rewrite index_at_label. destruct (label_at labels p) as [c|] eqn:Hp; simpl.
  - destruct (index_take labels rest) as [ls|e]; simpl.
    + by constructor.
    + destruct IH as [-> IH]. split; [done|]. intros H. apply IH.
      by inversion H.
  - split; [done|]. intros H. inversion H as [|? ? [c Hc]]. congruence.
Qed.

Lemma filter_positions {A} (d : A) (P : A → Prop) `{!∀ x, Decision (P x)}
    (l1 l2 : list A) :
  (λ j, default d ((l1 ++ l2) !! j))
    <$> filter (λ j, P (default d ((l1 ++ l2) !! j)))
          (seq (length l1) (length l2))
  = filter P l2.
Proof.
  revert l1. induction l2 as [|x l2 IH]; intros l1; [done|]. simpl.
  assert ((l1 ++ x :: l2) !! length l1 = Some x) as Hx
    by (by apply list_lookup_middle).
  specialize (IH (l1 ++ [x])). rewrite <- app_assoc in IH. simpl in IH.
  rewrite length_app in IH. simpl in IH. rewrite Nat.add_1_r in IH.
  destruct (decide (P x)) as [HP|HP].
  - rewrite filter_cons_True by (by rewrite Hx).
    rewrite (filter_cons_True P) by done.
    rewrite fmap_cons, Hx. simpl. by rewrite IH.
  - rewrite filter_cons_False by (by rewrite Hx).
    by rewrite (filter_cons_False P) by done.
Qed.

Lemma drop_labels_columns labels df :
  columns (drop_labels labels df) = filter (λ c, c ∉ labels) (columns df).
Proof.
  unfold drop_labels, select_positions, positions_where, width. simpl.
  pose proof (filter_positions "" (λ c, bool_decide (c ∉ labels) = true)
                [] (columns df)) as H.
  simpl in H. rewrite H. apply list_filter_iff. intros c.
  apply bool_decide_eq_true.
Qed.

Lemma select_positions_cell ps df j' c :
  Forall (λ j, j < width df) ps →
  columns (select_positions ps df) !! j' = Some c →
  ∃ j, columns df !! j = Some c
       ∧ ∀ i, cell_at (select_positions ps df) i j' = cell_at df i j.
Proof.
  intros Hps. unfold select_positions. simpl. rewrite list_lookup_fmap.
  destruct (ps !! j') as [j|] eqn:Hj; [|done]. simpl. intros [= <-].
  assert (j < width df) as Hlt.
  { eapply Forall_forall in Hps; [exact Hps|]. by eapply list_elem_of_lookup_2. }
  destruct (lookup_lt_is_Some_2 (columns df) j Hlt) as [c Hc].
  exists j. rewrite Hc. split; [done|]. intros i. unfold cell_at. simpl.
  rewrite list_lookup_fmap. destruct (rows df !! i) as [row|]; simpl.
  - unfold cell_of at 1. by rewrite list_lookup_fmap, Hj.
  - unfold cell_of. by rewrite !lookup_nil.
Qed.

Lemma positions_where_inside keep df :
  Forall (λ j, j < width df) (positions_where keep df).
Proof.
  apply Forall_forall. intros j [_ Hj]%list_elem_of_filter.
  apply elem_of_seq in Hj. lia.
Qed.

Lemma filter_none_listed (l : list string) : filter (λ c, c ∉ []) l = l.
Proof.
  induction l as [|c cs IH]; [done|].
  rewrite filter_cons_True by apply not_elem_of_nil. by rewrite IH.
Qed.

Lemma prepared_spec config grid :
  match prepared config grid with
  | Ok frame =>
      ∃ labels,
        Forall2 (λ p c, label_at (columns grid) p = Some c)
                (default [] (drop_columns config)) labels
        ∧ columns frame = filter (λ c, c ∉ labels) (columns grid)
        ∧ len frame = len grid - rows_skipped (skip_rows config) (len grid)
        ∧ ∀ j' c, columns frame !! j' = Some c →
            ∃ j, columns grid !! j = Some c
                 ∧ ∀ i, cell_at frame i j'
                        = cell_at grid
                            (rows_skipped (skip_rows config) (len grid) + i) j
  | Raise e =>
      e = IndexError
      ∧ ¬ Forall (λ p, is_Some (label_at (columns grid) p))
                 (default [] (drop_columns config))
  end.
Proof.
  unfold prepared.
  set (skipped := if decide (skip_rows config ≠ 0%Z)
                  then iloc_from (skip_rows config) grid else grid).
  assert (columns skipped = columns grid) as Hcols.
  { unfold skipped. by destruct (decide _). }
  assert (len skipped = len grid - rows_skipped (skip_rows config) (len grid))
    as Hlen.
  { unfold skipped. destruct (decide _) as [|Hz]; [apply iloc_from_len|].
    apply dec_stable in Hz. rewrite Hz. unfold rows_skipped. simpl. lia. }
  assert (∀ i j, cell_at skipped i j
                 = cell_at grid (rows_skipped (skip_rows config) (len grid) + i) j)
    as Hcell.
  { intros i j. unfold skipped. destruct (decide _) as [|Hz];
      [apply iloc_from_cell|].
    apply dec_stable in Hz. rewrite Hz. done. }
  pose proof (filter_none_listed (columns grid)) as Hall.
  assert (∀ j' c, columns skipped !! j' = Some c →
            ∃ j, columns grid !! j = Some c
                 ∧ ∀ i, cell_at skipped i j'
                        = cell_at grid
                            (rows_skipped (skip_rows config) (len grid) + i) j)
    as Hplain.
  { intros j' c Hc. exists j'. by rewrite <- Hcols. }
  destruct (drop_columns config) as [[|p ps]|]; simpl default.
  - exists []. split; [constructor|]. by rewrite Hall.
  - pose proof (index_take_spec (columns skipped) (p :: ps)) as Hspec.
    rewrite Hcols in Hspec. rewrite Hcols.
    destruct (index_take (columns grid) (p :: ps)) as [labels|e];
      unfold mbind, res_bind; [|done].
    exists labels. split; [done|]. split; [by rewrite drop_labels_columns, Hcols|].
    split.
    + rewrite <- Hlen. unfold len, drop_labels, select_positions. simpl.
      by rewrite length_fmap.
    + intros j' c Hc.
      destruct (select_positions_cell _ skipped j' c
                  (positions_where_inside _ skipped) Hc) as (j & Hj & Hcells).
      exists j. rewrite <- Hcols. split; [done|]. intros i.
      rewrite <- Hcell. apply Hcells.
  - exists []. split; [constructor|]. by rewrite Hall.
Qed.

(** ** [_create_final_dataframe] *)

Lemma convert_dates_skip to_datetime df cols w frame :
  heap w !! df = Some frame →
  (∀ c, c ∈ cols → c ∉ columns frame) →
  convert_dates to_datetime df cols w = (Ok tt, w).
Proof.
  intros Hdf. induction cols as [|col rest IH]; intros Hno; [done|]. simpl.
  erewrite bind_Ok by (by apply load_Some).
  rewrite bool_decide_eq_false_2 by (apply Hno, elem_of_cons; by left).
  erewrite bind_Ok by reflexivity.
  apply IH. intros c Hc. apply Hno, elem_of_cons. by right.
Qed.

Lemma cleaned_form s : ¬ not_cleaned_form (clean_column_name s).
Proof.
  change (clean_column_name s) with (clean_stripped (PyStr.strip s)).
  pose proof (CleanFacts.clean_stripped_settled (PyStr.strip s)) as H.
  apply CleanFacts.all_settled in H as (Hnl & Hsp & Hsl & Hco & Hlow).
  apply CleanFacts.mentions_all in Hnl, Hsp, Hsl, Hco.
  apply CleanFacts.lower_id in Hlow.
  pose proof (CleanFacts.clean_stripped_no_double (PyStr.strip s)) as Hno.
  intros [?|[?|[?|[?|[?|?]]]]]; congruence.
Qed.

Lemma not_cleaned_absent c (labels : list string) :
  not_cleaned_form c → c ∉ _clean_column_names labels.
Proof.
  intros Hc (s & -> & _)%list_elem_of_fmap. by apply (cleaned_form s).
Qed.

Lemma str_accessor_Ok records frame :
  records ≠ [] → str_accessor records frame = Ok (columns frame).
Proof. by destruct records. Qed.

(** Without records the [.str] accessor raises, with the frame just built
    as the only new object. *)
Lemma create_final_empty to_datetime config w :
  _create_final_dataframe to_datetime [] config w
  = (Raise AttributeError,
     mkWorld (<[fresh (dom (heap w)) := mkDataFrame [] []]> (heap w)) (log w)).
Proof.
  unfold _create_final_dataframe.
  erewrite bind_Ok by apply alloc_run.
  erewrite bind_Ok by (apply load_Some; simpl; apply lookup_insert_eq).
  by erewrite bind_Raise by reflexivity.
Qed.

Lemma create_final_run to_datetime records config w :
  records ≠ [] →
  (∀ c, c ∈ default [] (date_columns config) →
        c ∉ _clean_column_names (keys_of records)) →
  ∃ l w1,
    _create_final_dataframe to_datetime records config w = (Ok l, w1)
    ∧ heap w !! l = None
    ∧ heap w1 !! l = Some (assembled records)
    ∧ heap w ⊆ heap w1
    ∧ log w1 = log w ++ [LogFinished]
    ∧ ∀ config', w1 = (_create_final_dataframe to_datetime records
                         (without_dates config') w).2
                 ∧ Ok l = (_create_final_dataframe to_datetime records
                             (without_dates config') w).1.
Proof.
  intros Hsome Hdates. unfold _create_final_dataframe.
  set (tmp := fresh (dom (heap w))).
  set (w1 := mkWorld (<[tmp := assembled records]> (heap w)) (log w)).
  assert (heap w1 !! tmp = Some (assembled records)) as Htmp.
  { apply lookup_insert_eq. }
  assert (∀ (k : M ref),
            (df ← alloc (frame_of_records records);
             frame ← load df;
             labels ← lift (str_accessor records frame);
             store df (mkDataFrame (_clean_column_names labels) (rows frame));;
             match date_columns config with
             | Some (c :: cs) => convert_dates to_datetime df (c :: cs)
             | _ => mret tt
             end;;
             frame ← load df;
             df ← alloc (dropna_columns frame);
             info LogFinished;;
             mret df) w
            = (df ← alloc (assembled records); info LogFinished;; mret df) w1)
    as Hrun.
  { intros _. erewrite bind_Ok by apply alloc_run.
    erewrite bind_Ok by (apply load_Some; simpl; apply lookup_insert_eq).
    erewrite bind_Ok by (unfold lift; by rewrite str_accessor_Ok).
    erewrite bind_Ok.
    2:{ unfold store. simpl. rewrite insert_insert_eq. reflexivity. }
    fold tmp. change (mkDataFrame _ _) with (assembled records). fold w1.
    erewrite bind_Ok.
    2:{ destruct (date_columns config) as [[|c cs]|]; [reflexivity| |reflexivity].
        by apply (convert_dates_skip to_datetime tmp (c :: cs) w1 (assembled records)). }
    erewrite bind_Ok by (by apply load_Some).
    by rewrite dropna_assembled. }
  rewrite (Hrun (mret tmp)). clear Hrun.
  eexists _, _. split; [reflexivity|]. simpl.
  assert (fresh (dom (<[tmp := assembled records]> (heap w)))
          ∉ dom (<[tmp := assembled records]> (heap w))) as Hfresh
    by apply is_fresh.
  split; [|split; [|split; [|split]]].
  - apply not_elem_of_dom. intros Hin. apply Hfresh.
    rewrite dom_insert. set_solver.
  - apply lookup_insert_eq.
  - etrans; [apply (heap_grows_alloc w (assembled records))|].
    apply insert_subseteq. by apply not_elem_of_dom.
  - done.
  - intros config'. simpl.
    erewrite bind_Ok by apply alloc_run.
    erewrite bind_Ok by (apply load_Some; simpl; apply lookup_insert_eq).
    erewrite bind_Ok by (unfold lift; by rewrite str_accessor_Ok).
    erewrite bind_Ok.
    2:{ unfold store. simpl. rewrite insert_insert_eq. reflexivity. }
    fold tmp. change (mkDataFrame _ _) with (assembled records). fold w1.
    erewrite bind_Ok by reflexivity.
    erewrite bind_Ok by (by apply load_Some).
    rewrite dropna_assembled. done.
Qed.

(** X13: [_apply_initial_transformations]: for a grid in the store.  When
    every drop position lies inside the column index, the method returns a
    reference to a frame that has the grid's columns except those whose
    label sits at a drop position, in the grid's order, and the grid's rows
    except the ones that [iloc[skip_rows:]] leaves out, cell for cell.  The
    reference is new (not in the store before) as soon as a step applies,
    and each step that applies logs its line; with nothing to skip and
    nothing to drop the reference that comes back is the caller's own and
    the world is untouched.  A drop position outside the columns raises
    the [IndexError] of the column index.  The objects of the store stay
    as they were. *)
Theorem apply_initial_transformations_prepared df config w grid :
  heap w !! df = Some grid →
  if decide (Forall (λ p, is_Some (label_at (columns grid) p))
                    (default [] (drop_columns config)))
  then
    ∃ l w1 frame labels,
      _apply_initial_transformations df config w = (Ok l, w1)
      ∧ heap w1 !! l = Some frame
      ∧ heap w ⊆ heap w1
      ∧ log w1 = log w ++ prepared_log config
      ∧ (prepared_log config = [] → l = df ∧ w1 = w)
      ∧ (prepared_log config ≠ [] → heap w !! l = None)
      ∧ Forall2 (λ p c, label_at (columns grid) p = Some c)
                (default [] (drop_columns config)) labels
      ∧ columns frame = filter (λ c, c ∉ labels) (columns grid)
      ∧ len frame = len grid - rows_skipped (skip_rows config) (len grid)
      ∧ ∀ j' c, columns frame !! j' = Some c →
          ∃ j, columns grid !! j = Some c
               ∧ ∀ i, cell_at frame i j'
                      = cell_at grid
                          (rows_skipped (skip_rows config) (len grid) + i) j
  else
    ∃ w1, _apply_initial_transformations df config w = (Raise IndexError, w1)
          ∧ heap w ⊆ heap w1.
Proof.
  intros Hdf. pose proof (apply_initial_run df config w grid Hdf) as Hrun.
  pose proof (prepared_spec config grid) as Hspec.
  destruct (prepared config grid) as [frame|e].
  - destruct Hspec as (labels & Hlabels & Hcols & Hlen & Hcells).
    rewrite decide_True.
    + destruct Hrun as (l & w1 & Hrun & Hl & Hsub & Hlog & Hsame & Hnew).
      by exists l, w1, frame, labels.
    + clear -Hlabels. induction Hlabels; constructor; by eauto.
  - destruct Hspec as [-> Hnot]. by rewrite decide_False.
Qed.

Lemma apply_initial_transformations_prepared_witness :
  heap (world_of sample_data) !! 1%positive = Some sample_data
  ∧ ∃ l w1 frame labels,
      _apply_initial_transformations 1%positive
        (mkConfig 2 (Some [(-1)%Z; 2%Z]) None None None None 10 5)
        (world_of sample_data) = (Ok l, w1)
      ∧ heap w1 !! l = Some frame
      ∧ heap (world_of sample_data) ⊆ heap w1
      ∧ log w1
        = log (world_of sample_data)
          ++ prepared_log (mkConfig 2 (Some [(-1)%Z; 2%Z]) None None None
                             None 10 5)
      ∧ (prepared_log (mkConfig 2 (Some [(-1)%Z; 2%Z]) None None None
                         None 10 5) = []
         → l = 1%positive ∧ w1 = world_of sample_data)
      ∧ (prepared_log (mkConfig 2 (Some [(-1)%Z; 2%Z]) None None None
                         None 10 5) ≠ []
         → heap (world_of sample_data) !! l = None)
      ∧ Forall2 (λ p c, label_at (columns sample_data) p = Some c)
                [(-1)%Z; 2%Z] labels
      ∧ columns frame = filter (λ c, c ∉ labels) (columns sample_data)
      ∧ len frame = len sample_data - rows_skipped 2 (len sample_data)
      ∧ ∀ j' c, columns frame !! j' = Some c →
          ∃ j, columns sample_data !! j = Some c
               ∧ ∀ i, cell_at frame i j'
                      = cell_at sample_data
                          (rows_skipped 2 (len sample_data) + i) j.
Proof.
  split; [reflexivity|].
  apply (apply_initial_transformations_prepared 1%positive
           (mkConfig 2 (Some [(-1)%Z; 2%Z]) None None None None 10 5)
           (world_of sample_data) sample_data).
  reflexivity.
Defined.

(** X14: [_create_final_dataframe]: when no date column names a cleaned
    label.  From at least one record, the table returned is a new object
    with one row per record and one column per key of the records, under
    its cleaned label; the keys stand in the order in which the records,
    read in order, first show them; the cell of a record under a key is
    the record's value for it, and missing when the record lacks the key.
    No key is lost: every column has a value in some record, so none is
    dropped.  From no record at all, the method raises the
    [AttributeError] of the [.str] accessor, before the closing log line,
    and the store keeps its objects. *)
Theorem create_final_dataframe_assembles to_datetime records config w :
  (∀ c, c ∈ default [] (date_columns config) →
        c ∉ _clean_column_names (keys_of records)) →
  match records with
  | [] =>
      ∃ w1,
        _create_final_dataframe to_datetime [] config w
        = (Raise AttributeError, w1)
        ∧ heap w ⊆ heap w1 ∧ log w1 = log w
  | _ :: _ =>
      ∃ l w1 table,
        _create_final_dataframe to_datetime records config w = (Ok l, w1)
        ∧ heap w !! l = None ∧ heap w1 !! l = Some table ∧ heap w ⊆ heap w1
        ∧ log w1 = log w ++ [LogFinished]
        ∧ len table = length records
        ∧ columns table = clean_column_name <$> keys_of records
        ∧ NoDup (keys_of records)
        ∧ (∀ k, k ∈ keys_of records ↔ ∃ rec, rec ∈ records ∧ k ∈ rec.*1)
        ∧ (∀ j1 j2 k1 k2,
             keys_of records !! j1 = Some k1 → keys_of records !! j2 = Some k2 →
             j1 < j2 → met_before (keys_read records) k1 k2)
        ∧ ∀ i j rec k,
            records !! i = Some rec → keys_of records !! j = Some k →
            cell_at table i j
            = match dict_get k rec with Some v => Val v | None => NaN end
  end.
Proof.
  intros Hdates. destruct records as [|rec0 records].
  - rewrite create_final_empty. eexists. split; [done|]. simpl.
    split; [apply heap_grows_alloc|done].
  - destruct (create_final_run to_datetime (rec0 :: records) config w
                ltac:(done) Hdates)
      as (l & w1 & Hrun & Hnew & Hl & Hsub & Hlog & _).
    exists l, w1, (assembled (rec0 :: records)). repeat split; try done.
    + unfold len, assembled, frame_of_records. simpl. by rewrite length_fmap.
    + apply keys_of_NoDup.
    + by apply keys_of_elem.
    + by apply keys_of_elem.
    + apply keys_of_order.
    + intros i j rec k. apply assembled_cell.
Qed.

Lemma create_final_dataframe_assembles_witness :
  (∀ c, c ∈ default [] (date_columns basic_config) →
        c ∉ _clean_column_names
              (keys_of [[("Order Date", "2024-01-15"); ("Total", "500.00")];
                        [("Total", "750.50"); ("Name", "Jane Smith")]]))
  ∧ ∃ l w1 table,
      _create_final_dataframe no_dates
        [[("Order Date", "2024-01-15"); ("Total", "500.00")];
         [("Total", "750.50"); ("Name", "Jane Smith")]]
        basic_config (world_of sample_data) = (Ok l, w1)
      ∧ heap (world_of sample_data) !! l = None
      ∧ heap w1 !! l = Some table
      ∧ heap (world_of sample_data) ⊆ heap w1
      ∧ log w1 = log (world_of sample_data) ++ [LogFinished]
      ∧ len table
        = length [[("Order Date", "2024-01-15"); ("Total", "500.00")];
                  [("Total", "750.50"); ("Name", "Jane Smith")]]
      ∧ columns table
        = clean_column_name
            <$> keys_of [[("Order Date", "2024-01-15"); ("Total", "500.00")];
                         [("Total", "750.50"); ("Name", "Jane Smith")]]
      ∧ NoDup (keys_of [[("Order Date", "2024-01-15"); ("Total", "500.00")];
                        [("Total", "750.50"); ("Name", "Jane Smith")]])
      ∧ (∀ k, k ∈ keys_of [[("Order Date", "2024-01-15"); ("Total", "500.00")];
                           [("Total", "750.50"); ("Name", "Jane Smith")]]
              ↔ ∃ rec, rec ∈ [[("Order Date", "2024-01-15"); ("Total", "500.00")];
                              [("Total", "750.50"); ("Name", "Jane Smith")]]
                       ∧ k ∈ rec.*1)
      ∧ (∀ j1 j2 k1 k2,
           keys_of [[("Order Date", "2024-01-15"); ("Total", "500.00")];
                    [("Total", "750.50"); ("Name", "Jane Smith")]] !! j1
           = Some k1 →
           keys_of [[("Order Date", "2024-01-15"); ("Total", "500.00")];
                    [("Total", "750.50"); ("Name", "Jane Smith")]] !! j2
           = Some k2 →
           j1 < j2 →
           met_before
             (keys_read [[("Order Date", "2024-01-15"); ("Total", "500.00")];
                         [("Total", "750.50"); ("Name", "Jane Smith")]]) k1 k2)
      ∧ ∀ i j rec k,
          [[("Order Date", "2024-01-15"); ("Total", "500.00")];
           [("Total", "750.50"); ("Name", "Jane Smith")]] !! i = Some rec →
          keys_of [[("Order Date", "2024-01-15"); ("Total", "500.00")];
                   [("Total", "750.50"); ("Name", "Jane Smith")]] !! j = Some k →
          cell_at table i j
          = match dict_get k rec with Some v => Val v | None => NaN end.
Proof.
  assert (∀ c, c ∈ default [] (date_columns basic_config) →
               c ∉ _clean_column_names
                     (keys_of [[("Order Date", "2024-01-15"); ("Total", "500.00")];
                               [("Total", "750.50"); ("Name", "Jane Smith")]]))
    as Hdates.
  { intros c Hc. vm_compute in Hc. apply list_elem_of_singleton in Hc. subst c.
    vm_compute. intros H. by repeat (apply elem_of_cons in H as [H|H]; [discriminate|]);
      apply elem_of_nil in H. }
  split; [exact Hdates|].
  apply (create_final_dataframe_assembles no_dates
           [[("Order Date", "2024-01-15"); ("Total", "500.00")];
            [("Total", "750.50"); ("Name", "Jane Smith")]]
           basic_config (world_of sample_data)).
  exact Hdates.
Defined.

(** X15: [_create_final_dataframe]: the date columns are looked up among the
    labels after cleaning, so an entry that is not itself in cleaned form
    (one with an upper-case letter, a space, a ['/'] and so on, such as
    ["Order Date"]) matches no column: with only such entries the result
    is the one without any date column, and [to_datetime] is never run. *)
Theorem date_columns_need_cleaned_names to_datetime records config w :
  (∀ c, c ∈ default [] (date_columns config) → not_cleaned_form c) →
  _create_final_dataframe to_datetime records config w
  = _create_final_dataframe to_datetime records (without_dates config) w.
Proof.
  intros Hdates. destruct records as [|rec0 records].
  { by rewrite !create_final_empty. }
  destruct (create_final_run to_datetime (rec0 :: records) config w)
    as (l & w1 & Hrun & _ & _ & _ & _ & Hsame); [done| |].
  { intros c Hc. by apply not_cleaned_absent, Hdates. }
  rewrite Hrun. destruct (Hsame config) as [Hw Hl].
  destruct (_create_final_dataframe to_datetime (rec0 :: records)
              (without_dates config) w) as [r w2].
  simpl in *. by subst.
Qed.

Lemma date_columns_need_cleaned_names_witness :
  (∀ c, c ∈ default [] (date_columns basic_config) → not_cleaned_form c)
  ∧ _create_final_dataframe (λ _, []) [[("Order Date", "2024-01-15")]]
      basic_config (world_of empty_frame)
    = _create_final_dataframe (λ _, []) [[("Order Date", "2024-01-15")]]
        (without_dates basic_config) (world_of empty_frame).
Proof.
  assert (∀ c, c ∈ default [] (date_columns basic_config) → not_cleaned_form c)
    as Hdates.
  { intros c Hc. vm_compute in Hc. apply list_elem_of_singleton in Hc. subst c.
    right. left. reflexivity. }
  split; [exact Hdates|].
  apply (date_columns_need_cleaned_names (λ _, []) [[("Order Date", "2024-01-15")]]
           basic_config (world_of empty_frame)).
  exact Hdates.
Defined.

(** ** [transform], end to end *)

Lemma validate_config_valid config :
  truthy_str (identifier_field config) = true →
  truthy_list (target_fields config) = true →
  _validate_config config = Ok tt.
Proof. intros Hi Ht. unfold _validate_config. by rewrite Hi, Ht. Qed.

Lemma truthy_list_Some {A} (l : option (list A)) :
  truthy_list l = true → ∃ fields, l = Some fields.
Proof. destruct l as [[|x xs]|]; [done| |done]. intros _. by eexists. Qed.

Lemma transform_run to_datetime df config w grid frame :
  heap w !! df = Some grid →
  truthy_str (identifier_field config) = true →
  truthy_list (target_fields config) = true →
  prepared config grid = Ok frame →
  (∀ c, c ∈ default [] (date_columns config) → not_cleaned_form c) →
  ∃ recs,
    extract_records frame config = Ok recs
    ∧ (recs ≠ [] →
       ∃ l w1,
         transform to_datetime df config w = (Ok l, w1)
         ∧ heap w !! l = None
         ∧ heap w1 !! l = Some (assembled recs)
         ∧ len (assembled recs) = length recs
         ∧ log w1 = log w ++ [LogStart] ++ prepared_log config
                    ++ [LogExtracted (length recs); LogFinished])
    ∧ (recs = [] →
       ∃ w1,
         transform to_datetime df config w = (Raise AttributeError, w1)
         ∧ heap w ⊆ heap w1
         ∧ log w1 = log w ++ [LogStart] ++ prepared_log config
                    ++ [LogExtracted 0]).
Proof.
  intros Hdf Hid Htf Hprep Hdates.
  destruct (truthy_list_Some _ Htf) as [fields Hfields].
  assert (∃ recs, extract_records frame config = Ok recs) as [recs Hrecs].
  { unfold extract_records.
    rewrite (extract_loop_spec frame config fields Hfields) by lia. by eexists. }
  set (w0 := mkWorld (heap w) (log w ++ [LogStart])).
  pose proof (apply_initial_run df config w0 grid Hdf) as Hinit.
  rewrite Hprep in Hinit.
  destruct Hinit as (l1 & w1 & Hrun1 & Hl1 & Hsub1 & Hlog1 & _).
  set (w2 := mkWorld (heap w1) (log w1 ++ [LogExtracted (length recs)])).
  assert (transform to_datetime df config w
          = (processed_df ← _create_final_dataframe to_datetime recs config;
             mret processed_df) w2) as Hsteps.
  { unfold transform.
    erewrite bind_Ok by reflexivity.
    erewrite bind_Ok by (unfold lift; by rewrite validate_config_valid).
    fold w0. erewrite bind_Ok by exact Hrun1.
    erewrite bind_Ok.
    2:{ unfold _extract_records.
        erewrite bind_Ok by (by apply load_Some).
        erewrite bind_Ok by (unfold lift; by rewrite Hrecs).
        reflexivity. }
    done. }
  exists recs. split; [done|]. split.
  - intros Hsome.
    destruct (create_final_run to_datetime recs config w2 Hsome)
      as (l & w3 & Hrun3 & Hnew & Hl & Hsub3 & Hlog3 & _).
    { intros c Hc. by apply not_cleaned_absent, Hdates. }
    exists l, w3. split; [|split; [|split; [done|split]]].
    + rewrite Hsteps. by erewrite bind_Ok by exact Hrun3.
    + destruct (heap w !! l) as [x|] eqn:E; [|done].
      eapply (lookup_weaken _ (heap w2)) in E; [congruence|]. exact Hsub1.
    + unfold len, assembled, frame_of_records. simpl. by rewrite length_fmap.
    + rewrite Hlog3. simpl. rewrite Hlog1. simpl. by rewrite <- !app_assoc.
  - intros ->. eexists. split.
    + rewrite Hsteps. erewrite bind_Raise by apply create_final_empty. done.
    + simpl. split.
      * etrans; [exact Hsub1|]. apply (heap_grows_alloc w2).
      * rewrite Hlog1. simpl. by rewrite <- !app_assoc.
Qed.

(** X16: [transform]: with an identifier field and target fields, drop
    positions inside the columns, and no date column in cleaned form,
    [transform] returns exactly when the scan of the prepared grid finds a
    record.  Then the table is a new object holding the records that the
    scan extracts, one row each, and the log has the opening line, the
    lines of the initial steps, the number of records and the closing
    line.  When the scan finds no record, [transform] raises the
    [AttributeError] of [_create_final_dataframe], after the line that
    counts 0 records and without the closing line. *)
Theorem transform_assembles to_datetime df config w grid frame :
  heap w !! df = Some grid →
  truthy_str (identifier_field config) = true →
  truthy_list (target_fields config) = true →
  prepared config grid = Ok frame →
  (∀ c, c ∈ default [] (date_columns config) → not_cleaned_form c) →
  ∃ recs,
    extract_records frame config = Ok recs
    ∧ (recs ≠ [] →
       ∃ l w1,
         transform to_datetime df config w = (Ok l, w1)
         ∧ heap w !! l = None
         ∧ heap w1 !! l = Some (assembled recs)
         ∧ len (assembled recs) = length recs
         ∧ log w1 = log w ++ [LogStart] ++ prepared_log config
                    ++ [LogExtracted (length recs); LogFinished])
    ∧ (recs = [] →
       ∃ w1,
         transform to_datetime df config w = (Raise AttributeError, w1)
         ∧ heap w ⊆ heap w1
         ∧ log w1 = log w ++ [LogStart] ++ prepared_log config
                    ++ [LogExtracted 0]).
Proof. apply transform_run. Qed.

Lemma transform_assembles_witness :
  heap (world_of sample_data) !! 1%positive = Some sample_data
  ∧ truthy_str (identifier_field basic_config) = true
  ∧ truthy_list (target_fields basic_config) = true
  ∧ prepared basic_config sample_data = Ok (iloc_from 2 sample_data)
  ∧ (∀ c, c ∈ default [] (date_columns basic_config) → not_cleaned_form c)
  ∧ ∃ recs,
      extract_records (iloc_from 2 sample_data) basic_config = Ok recs
      ∧ (recs ≠ [] →
         ∃ l w1,
           transform no_dates 1%positive basic_config (world_of sample_data)
           = (Ok l, w1)
           ∧ heap (world_of sample_data) !! l = None
           ∧ heap w1 !! l = Some (assembled recs)
           ∧ len (assembled recs) = length recs
           ∧ log w1 = log (world_of sample_data) ++ [LogStart]
                      ++ prepared_log basic_config
                      ++ [LogExtracted (length recs); LogFinished])
      ∧ (recs = [] →
         ∃ w1,
           transform no_dates 1%positive basic_config (world_of sample_data)
           = (Raise AttributeError, w1)
           ∧ heap (world_of sample_data) ⊆ heap w1
           ∧ log w1 = log (world_of sample_data) ++ [LogStart]
                      ++ prepared_log basic_config ++ [LogExtracted 0]).
Proof.
  assert (∀ c, c ∈ default [] (date_columns basic_config) → not_cleaned_form c)
    as Hdates.
  { intros c Hc. vm_compute in Hc. apply list_elem_of_singleton in Hc. subst c.
    right. left. reflexivity. }
  split; [reflexivity|]. split; [reflexivity|]. split; [reflexivity|].
  split; [reflexivity|]. split; [exact Hdates|].
  apply (transform_assembles no_dates 1%positive basic_config
           (world_of sample_data) sample_data (iloc_from 2 sample_data));
    [reflexivity..|exact Hdates].
Defined.

(** X17: [transform]: when no row of the prepared grid is a record start,
    [transform] returns no table: the scan extracts no record, and
    [_create_final_dataframe] raises the [AttributeError] of the [.str]
    accessor on the columns of [pd.DataFrame([])].  The objects of the
    store stay as they were, and the log ends with the line that counts 0
    records. *)
Theorem transform_without_records to_datetime df config w grid frame :
  heap w !! df = Some grid →
  truthy_str (identifier_field config) = true →
  truthy_list (target_fields config) = true →
  prepared config grid = Ok frame →
  (∀ c, c ∈ default [] (date_columns config) → not_cleaned_form c) →
  record_starts frame config = [] →
  ∃ w1,
    transform to_datetime df config w = (Raise AttributeError, w1)
    ∧ heap w ⊆ heap w1
    ∧ log w1 = log w ++ [LogStart] ++ prepared_log config ++ [LogExtracted 0].
Proof.
  intros Hdf Hid Htf Hprep Hdates Hnone.
  destruct (transform_run to_datetime df config w grid frame Hdf Hid Htf Hprep Hdates)
    as (recs & Hrecs & _ & Hraise).
  apply Hraise.
  unfold extract_records in Hrecs.
  rewrite extract_loop_no_starts in Hrecs; [congruence| |lia..].
  intros k Hk. destruct (is_start frame config k) eqn:E; [|done].
  destruct (filter_nil_none _ _ Hnone k); [|done]. apply elem_of_seq. lia.
Qed.

Lemma transform_without_records_witness :
  heap (world_of three_rows) !! 1%positive = Some three_rows
  ∧ truthy_str (identifier_field
                  (mkConfig 0 None None (Some "Order") (Some ["Name"])
                     (Some {["Order" := "Order No"]}) 10 5)) = true
  ∧ truthy_list (target_fields
                   (mkConfig 0 None None (Some "Order") (Some ["Name"])
                      (Some {["Order" := "Order No"]}) 10 5)) = true
  ∧ prepared (mkConfig 0 None None (Some "Order") (Some ["Name"])
                (Some {["Order" := "Order No"]}) 10 5) three_rows = Ok three_rows
  ∧ (∀ c, c ∈ default [] (date_columns
                            (mkConfig 0 None None (Some "Order") (Some ["Name"])
                               (Some {["Order" := "Order No"]}) 10 5))
          → not_cleaned_form c)
  ∧ record_starts three_rows
      (mkConfig 0 None None (Some "Order") (Some ["Name"])
         (Some {["Order" := "Order No"]}) 10 5) = []
  ∧ ∃ w1,
      transform no_dates 1%positive
        (mkConfig 0 None None (Some "Order") (Some ["Name"])
           (Some {["Order" := "Order No"]}) 10 5) (world_of three_rows)
      = (Raise AttributeError, w1)
      ∧ heap (world_of three_rows) ⊆ heap w1
      ∧ log w1
        = log (world_of three_rows) ++ [LogStart]
          ++ prepared_log (mkConfig 0 None None (Some "Order") (Some ["Name"])
                             (Some {["Order" := "Order No"]}) 10 5)
          ++ [LogExtracted 0].
Proof.
  assert (∀ c, c ∈ default [] (date_columns
                                 (mkConfig 0 None None (Some "Order") (Some ["Name"])
                                    (Some {["Order" := "Order No"]}) 10 5))
               → not_cleaned_form c) as Hdates.
  { intros c Hc. simpl in Hc. by apply elem_of_nil in Hc. }
  split; [reflexivity|]. split; [reflexivity|]. split; [reflexivity|].
  split; [reflexivity|]. split; [exact Hdates|].
  split; [vm_compute; reflexivity|].
  apply (transform_without_records no_dates 1%positive
           (mkConfig 0 None None (Some "Order") (Some ["Name"])
              (Some {["Order" := "Order No"]}) 10 5)
           (world_of three_rows) three_rows three_rows);
    [reflexivity|reflexivity|reflexivity|reflexivity|exact Hdates|
     vm_compute; reflexivity].
Defined.

(** * Further properties of the validator *)

Section ValidatorMore.
Context {bound : Type}.
Variable strptime_ok : string → string → bool.
Variables series_lt series_gt : list cell → bound → res (list bool).
Variable duplicated : list cell → list bool.
Variable df : DataFrame.

Lemma flat_map_nil {A B} (f : A → list B) (l : list A) :
  flat_map f l = [] ↔ ∀ x, x ∈ l → f x = [].
Proof.
  induction l as [|a l IH]; simpl.
  - split; [|done]. intros _ x Hx. by apply elem_of_nil in Hx.
  - split.
    + intros [Ha Hl]%app_eq_nil x [->|Hx]%elem_of_cons; [done|]. by apply IH.
    + intros H. rewrite (H a) by (apply elem_of_cons; by left). simpl.
      apply IH. intros x Hx. apply H, elem_of_cons. by right.
Qed.

Lemma flat_map_short {A B} (f : A → list B) (l : list A) :
  (∀ x, length (f x) ≤ 1) → length (flat_map f l) ≤ length l.
Proof.
  intros H. induction l as [|a l IH]; [done|]. simpl.
  rewrite length_app. specialize (H a). lia.
Qed.

(** What the body of each loop reports. *)
Lemma reported_dates date_formats :
  reported (_validate_dates strptime_ok (bound := bound) df date_formats)
  = flat_map
      (λ '(column, date_format),
         if bool_decide (column ∈ columns df) then
           match filter (λ it, invalid_date strptime_ok date_format it.2 = true)
                        (column_items column df) with
           | [] => []
           | invalid => [InvalidDates column date_format invalid]
           end
         else [])
      date_formats.
Proof.
  unfold _validate_dates. rewrite reported_for_each.
  - induction date_formats as [|[column fmt] rest IH]; [done|]. simpl.
    rewrite IH. f_equal. destruct (bool_decide _); [|done].
    by destruct (filter _ _).
  - intros [column fmt]. destruct (bool_decide _); [|apply appends_ret].
    destruct (filter _ _); [apply appends_ret|apply appends_error].
Qed.

(** One round of a bound check. *)
Local Abbreviation bound_round := (bound_round df).

Lemma bound_round_steady (compare : list cell → bound → res (list bool))
    (err : string → bound → list nat → error_message bound) column b :
  steady (bound_round compare err column b).
Proof.
  unfold bound_round.
  destruct (bool_decide _); [|apply appends_steady, appends_ret].
  apply (bound_body_steady _ (err column b)).
Qed.

Lemma bound_round_outcome (compare : list cell → bound → res (list bool))
    (err : string → bound → list nat → error_message bound) column b :
  outcome (bound_round compare err column b)
  = if bool_decide (column ∈ columns df) then
      match compare (column_cells column df) b with
      | Ok _ => Ok tt
      | Raise e => Raise e
      end
    else Ok tt.
Proof.
  unfold bound_round. destruct (bool_decide _); [|done].
  apply (bound_body_outcome _ (err column b)).
Qed.

Lemma bound_round_reported (compare : list cell → bound → res (list bool))
    (err : string → bound → list nat → error_message bound) column b :
  reported (bound_round compare err column b)
  = if bool_decide (column ∈ columns df) then
      match compare (column_cells column df) b with
      | Ok mask =>
          match masked_rows mask with
          | [] => []
          | at_rows => [err column b at_rows]
          end
      | Raise _ => []
      end
    else [].
Proof.
  unfold bound_round. destruct (bool_decide _); [|done].
  destruct (compare (column_cells column df) b) as [mask|e] eqn:E.
  - by apply (bound_body_reported _ (err column b)).
  - unfold reported. by rewrite (bound_body_run _ (err column b)).
Qed.

Lemma masked_rows_nil (mask : list bool) :
  masked_rows mask = [] ↔ ∀ i, mask !! i ≠ Some true.
Proof.
  unfold masked_rows. split.
  - intros E i Hi. apply (filter_nil_none _ _ E i); [|done].
    apply elem_of_seq. apply lookup_lt_Some in Hi. lia.
  - intros H. induction (seq 0 (length mask)) as [|i rest IH]; [done|].
    by rewrite filter_cons_False by apply H.
Qed.

Lemma elem_of_masked_rows (mask : list bool) i :
  i ∈ masked_rows mask ↔ mask !! i = Some true.
Proof.
  unfold masked_rows. rewrite list_elem_of_filter, elem_of_seq. split;
    [by intros [? _]|].
  intros Hi. split; [done|]. apply lookup_lt_Some in Hi. lia.
Qed.

(** A loop of bound rounds: it raises what the comparison of a listed
    column raises, and when it returns every comparison gave a mask and
    nothing is reported exactly when no mask holds anywhere. *)
Lemma bound_loop_spec (compare : list cell → bound → res (list bool))
    (err : string → bound → list nat → error_message bound) bounds :
  match outcome (for_each bounds (λ '(column, b),
                   bound_round compare err column b)) with
  | Ok _ =>
      comparable compare df (Some bounds)
      ∧ (reported (for_each bounds (λ '(column, b),
                     bound_round compare err column b)) = []
         ↔ ∀ column b mask i,
             (column, b) ∈ bounds → column ∈ columns df →
             compare (column_cells column df) b = Ok mask →
             mask !! i ≠ Some true)
  | Raise e =>
      ∃ column b,
        (column, b) ∈ bounds ∧ column ∈ columns df
        ∧ compare (column_cells column df) b = Raise e
  end.
Proof.
  set (body := λ '(column, b), bound_round compare err column b).
  assert (∀ x, steady (body x)) as Hsteady.
  { intros [column b]. apply bound_round_steady. }
  pose proof (outcome_for_each bounds body Hsteady) as H.
  destruct (outcome (for_each bounds body)) as [u|e].
  - assert (comparable compare df (Some bounds)) as Hcmp.
    { intros column b Hin Hcol. specialize (H _ Hin). simpl in H.
      rewrite bound_round_outcome, bool_decide_eq_true_2 in H by done.
      destruct (compare (column_cells column df) b) as [mask|]; [|done].
      by exists mask. }
    split; [done|].
    rewrite reported_for_each_in.
    2:{ intros x Hx. apply steady_appends; [done|by apply H]. }
    rewrite flat_map_nil. split.
    + intros Hnone column b mask i Hin Hcol Hmask.
      specialize (Hnone _ Hin). simpl in Hnone.
      rewrite bound_round_reported, bool_decide_eq_true_2, Hmask in Hnone by done.
      apply masked_rows_nil. by destruct (masked_rows mask).
    + intros Hnone [column b] Hin. simpl. rewrite bound_round_reported.
      destruct (bool_decide _) eqn:Hcol; [|done].
      apply bool_decide_eq_true in Hcol.
      destruct (compare (column_cells column df) b) as [mask|] eqn:Hmask; [|done].
      assert (masked_rows mask = []) as ->; [|done].
      apply masked_rows_nil. intros i. by eapply Hnone.
  - destruct H as ([column b] & Hin & He). simpl in He.
    rewrite bound_round_outcome in He.
    destruct (bool_decide _) eqn:Hcol; [|done].
    apply bool_decide_eq_true in Hcol.
    destruct (compare (column_cells column df) b) as [mask|e'] eqn:Hmask; [done|].
    injection He as ->. by exists column, b.
Qed.

Lemma bound_loop_short (compare : list cell → bound → res (list bool))
    (err : string → bound → list nat → error_message bound) bounds :
  length (reported (for_each bounds (λ '(column, b),
                      bound_round compare err column b)))
  ≤ length bounds.
Proof.
  apply reported_for_each_short.
  - intros [column b]. apply bound_round_steady.
  - intros [column b]. rewrite bound_round_reported.
    destruct (bool_decide _); [|simpl; lia].
    destruct (compare _ _) as [mask|]; [|simpl; lia].
    destruct (masked_rows mask); simpl; lia.
Qed.

Lemma reported_unique unique :
  reported (_validate_unique_columns (bound := bound) duplicated df unique)
  = flat_map
      (λ column,
         if bool_decide (column ∈ columns df) then
           match masked_rows (duplicated (column_cells column df)) with
           | [] => []
           | duplicates => [Duplicates column duplicates]
           end
         else [])
      unique.
Proof.
  unfold _validate_unique_columns. rewrite reported_for_each.
  - induction unique as [|column rest IH]; [done|]. simpl.
    rewrite IH. f_equal. destruct (bool_decide _); [|done].
    by destruct (masked_rows _).
  - intros column. destruct (bool_decide _); [|apply appends_ret].
    destruct (masked_rows _); [apply appends_ret|apply appends_error].
Qed.

Lemma reported_custom customs :
  reported (_run_custom_validations (bound := bound) df customs)
  = flat_map
      (λ validation,
         match function validation with
         | Some func =>
             if negb (default true (valid (func df)))
             then [CustomFailure
                     (default "Custom validation failed" (message (func df)))]
             else []
         | None => []
         end)
      customs.
Proof.
  unfold _run_custom_validations. rewrite reported_for_each.
  - induction customs as [|validation rest IH]; [done|]. simpl.
    rewrite IH. f_equal. destruct (function validation) as [func|]; [|done].
    cbv zeta. by destruct (negb _).
  - intros validation. destruct (function validation) as [func|];
      [|apply appends_ret].
    cbv zeta. destruct (negb _); [apply appends_error|apply appends_ret].
Qed.

Lemma reported_required required :
  reported (_validate_required_columns (bound := bound) df required)
  = match filter (λ col, col ∉ columns df) required with
    | [] => []
    | missing => [MissingColumns missing]
    end.
Proof. unfold _validate_required_columns. by destruct (filter _ _). Qed.

Lemma all_reported_nil rules :
  all_reported strptime_ok series_lt series_gt duplicated df rules = [] →
  category (required_columns rules)
           (_validate_required_columns (bound := bound) df) = [].
Proof. unfold all_reported. by intros [? _]%app_eq_nil. Qed.

Lemma filter_nil_all {A} (P : A → Prop) `{!∀ x, Decision (P x)} (l : list A) :
  filter P l = [] ↔ ∀ x, x ∈ l → ¬ P x.
Proof.
  split; [apply filter_nil_none|].
  induction l as [|a l IH]; intros Hall; [done|].
  rewrite filter_cons_False by (apply Hall, elem_of_cons; by left).
  apply IH. intros x Hx. apply Hall, elem_of_cons. by right.
Qed.

(** What [validate] returns, when it does. *)
Lemma validate_returned rules self result :
  (validate strptime_ok series_lt series_gt duplicated df rules self).1
  = Ok result →
  result
  = mkResult
      (bool_decide
         (length (all_reported strptime_ok series_lt series_gt duplicated df rules)
          = 0))
      (all_reported strptime_ok series_lt series_gt duplicated df rules) [].
Proof.
  rewrite validate_run.
  destruct (category_outcome (min_value rules) _); [|done].
  destruct (category_outcome (max_value rules) _); [|done].
  simpl. by intros [= <-].
Qed.

Lemma dates_absent date_formats :
  (∀ c, c ∈ date_formats.*1 → c ∉ columns df) →
  reported (_validate_dates strptime_ok (bound := bound) df date_formats) = [].
Proof.
  intros H. rewrite reported_dates. apply flat_map_nil. intros [c fmt] Hin.
  rewrite bool_decide_eq_false_2; [done|].
  apply H, list_elem_of_fmap. by exists (c, fmt).
Qed.

Lemma numeric_absent numeric :
  (∀ c, c ∈ numeric → c ∉ columns df) →
  reported (_validate_numeric_columns (bound := bound) df numeric) = [].
Proof.
  intros H. rewrite reported_numeric. apply flat_map_nil. intros c Hin.
  by rewrite bool_decide_eq_false_2 by (by apply H).
Qed.

Lemma bounds_absent (compare : list cell → bound → res (list bool))
    (err : string → bound → list nat → error_message bound) bounds :
  (∀ c, c ∈ bounds.*1 → c ∉ columns df) →
  appends (for_each bounds (λ '(column, b), bound_round compare err column b))
  ∧ reported (for_each bounds (λ '(column, b),
                bound_round compare err column b)) = [].
Proof.
  intros H.
  assert (∀ x, x ∈ bounds →
               appends ((λ '(column, b), bound_round compare err column b) x))
    as Hret.
  { intros [c b] Hin. unfold bound_round.
    rewrite bool_decide_eq_false_2; [apply appends_ret|].
    apply H, list_elem_of_fmap. by exists (c, b). }
  split; [by apply appends_for_each_in|].
  rewrite reported_for_each_in by done. apply flat_map_nil. intros [c b] Hin.
  rewrite bound_round_reported, bool_decide_eq_false_2; [done|].
  apply H, list_elem_of_fmap. by exists (c, b).
Qed.

Lemma unique_absent unique :
  (∀ c, c ∈ unique → c ∉ columns df) →
  reported (_validate_unique_columns (bound := bound) duplicated df unique) = [].
Proof.
  intros H. rewrite reported_unique. apply flat_map_nil. intros c Hin.
  by rewrite bool_decide_eq_false_2 by (by apply H).
Qed.

(** X18: [validate]: a table that passes has every required column. *)
Theorem validate_passes_only_with_required rules self required result :
  required_columns rules = Some required →
  (validate strptime_ok series_lt series_gt duplicated df rules self).1
  = Ok result →
  is_valid result = true →
  ∀ c, c ∈ required → c ∈ columns df.
Proof.
  intros Hreq ->%validate_returned. simpl.
  rewrite bool_decide_eq_true, length_zero_iff_nil.
  intros Hnil%all_reported_nil c Hc. rewrite Hreq in Hnil. simpl in Hnil.
  rewrite reported_required in Hnil.
  destruct (filter (λ col, col ∉ columns df) required) eqn:E; [|done].
  destruct (decide (c ∈ columns df)) as [|Hout]; [done|].
  by destruct (proj1 (filter_nil_all _ _) E c Hc).
Qed.

(** X19: [validate]: the date, numeric, bound and uniqueness rules skip a
    column that the table does not have: no comparison is made for it.  A
    rule set without required columns and custom validations whose listed
    columns are all absent passes any table, with no error. *)
Theorem validate_skips_absent_columns rules self :
  required_columns rules = None → custom_validations rules = None →
  (∀ c, c ∈ listed_columns rules → c ∉ columns df) →
  (validate strptime_ok series_lt series_gt duplicated df rules self).1
  = Ok (mkResult true [] []).
Proof.
  intros Hreq Hcus Habs. rewrite validate_run.
  unfold listed_columns in Habs.
  assert (category_outcome (min_value rules) (_validate_min_values series_lt df)
          = Ok tt
          ∧ category (min_value rules) (_validate_min_values series_lt df) = [])
    as [-> Hmin].
  { destruct (min_value rules) as [mins|]; [|done]. simpl.
    destruct (bounds_absent series_lt BelowMinimum mins) as [Hret Hnone].
    { intros c Hc. apply Habs. rewrite !elem_of_app. tauto. }
    split; [by apply appends_steady in Hret as [_ ?]|done]. }
  assert (category_outcome (max_value rules) (_validate_max_values series_gt df)
          = Ok tt
          ∧ category (max_value rules) (_validate_max_values series_gt df) = [])
    as [-> Hmax].
  { destruct (max_value rules) as [maxs|]; [|done]. simpl.
    destruct (bounds_absent series_gt AboveMaximum maxs) as [Hret Hnone].
    { intros c Hc. apply Habs. rewrite !elem_of_app. tauto. }
    split; [by apply appends_steady in Hret as [_ ?]|done]. }
  assert (all_reported strptime_ok series_lt series_gt duplicated df rules = [])
    as ->; [|done].
  unfold all_reported. rewrite Hreq, Hcus, Hmin, Hmax. simpl. rewrite app_nil_r.
  assert (category (date_format rules)
            (_validate_dates strptime_ok (bound := bound) df) = []) as ->.
  { destruct (date_format rules) as [fmts|]; [|done]. simpl.
    apply dates_absent. intros c Hc. apply Habs. rewrite !elem_of_app. tauto. }
  assert (category (numeric_columns rules)
            (_validate_numeric_columns (bound := bound) df) = []) as ->.
  { destruct (numeric_columns rules) as [nums|]; [|done]. simpl.
    apply numeric_absent. intros c Hc. apply Habs. rewrite !elem_of_app. tauto. }
  assert (category (unique_columns rules)
            (_validate_unique_columns (bound := bound) duplicated df) = []) as ->.
  { destruct (unique_columns rules) as [uniq|]; [|done]. simpl.
    apply unique_absent. intros c Hc. apply Habs. rewrite !elem_of_app. tauto. }
  done.
Qed.

(** X20: [validate]: every rule entry gives at most one error: one for all the
    missing required columns, one per listed column, one per custom
    validation.  So a result never has more errors than the rule set has
    entries. *)
Theorem validate_error_count rules self result :
  (validate strptime_ok series_lt series_gt duplicated df rules self).1
  = Ok result →
  length (errors result) ≤ rule_count rules.
Proof.
  intros ->%validate_returned. simpl. unfold all_reported, rule_count.
  rewrite !length_app.
  assert (length (category (required_columns rules)
                    (_validate_required_columns (bound := bound) df))
          ≤ match required_columns rules with Some _ => 1 | None => 0 end) as H1.
  { destruct (required_columns rules) as [required|]; [|simpl; lia]. simpl.
    rewrite reported_required. destruct (filter _ _); simpl; lia. }
  assert (length (category (date_format rules)
                    (_validate_dates strptime_ok (bound := bound) df))
          ≤ length (default [] (date_format rules))) as H2.
  { destruct (date_format rules) as [fmts|]; [|simpl; lia]. simpl.
    rewrite reported_dates. apply flat_map_short. intros [c fmt].
    destruct (bool_decide _); [|simpl; lia]. destruct (filter _ _); simpl; lia. }
  assert (length (category (numeric_columns rules)
                    (_validate_numeric_columns (bound := bound) df))
          ≤ length (default [] (numeric_columns rules))) as H3.
  { destruct (numeric_columns rules) as [nums|]; [|simpl; lia]. simpl.
    rewrite reported_numeric. apply flat_map_short. intros c.
    destruct (bool_decide _); [|simpl; lia]. destruct (rows_where _ _); simpl; lia. }
  assert (length (category (min_value rules) (_validate_min_values series_lt df))
          ≤ length (default [] (min_value rules))) as H4.
  { destruct (min_value rules) as [mins|]; [|simpl; lia]. simpl.
    apply (bound_loop_short series_lt BelowMinimum). }
  assert (length (category (max_value rules) (_validate_max_values series_gt df))
          ≤ length (default [] (max_value rules))) as H5.
  { destruct (max_value rules) as [maxs|]; [|simpl; lia]. simpl.
    apply (bound_loop_short series_gt AboveMaximum). }
  assert (length (category (unique_columns rules)
                    (_validate_unique_columns (bound := bound) duplicated df))
          ≤ length (default [] (unique_columns rules))) as H6.
  { destruct (unique_columns rules) as [uniq|]; [|simpl; lia]. simpl.
    rewrite reported_unique. apply flat_map_short. intros c.
    destruct (bool_decide _); [|simpl; lia].
    destruct (masked_rows _); simpl; lia. }
  assert (length (category (custom_validations rules)
                    (_run_custom_validations (bound := bound) df))
          ≤ length (default [] (custom_validations rules))) as H7.
  { destruct (custom_validations rules) as [customs|]; [|simpl; lia]. simpl.
    rewrite reported_custom. apply flat_map_short. intros v.
    destruct (function v); [|simpl; lia]. destruct (negb _); simpl; lia. }
  lia.
Qed.

End ValidatorMore.

Lemma validate_passes_only_with_required_witness :
  required_columns required_rules = Some ["amount"]
  ∧ (validate any_format never never no_repeats (amounts ["100"; "200"])
       required_rules (mkValidator [] [])).1
    = Ok (mkResult true [] [])
  ∧ is_valid (mkResult (bound := Z) true [] []) = true
  ∧ ∀ c, c ∈ ["amount"] → c ∈ columns (amounts ["100"; "200"]).
Proof.
  split; [reflexivity|]. split; [vm_compute; reflexivity|].
  split; [reflexivity|].
  apply (validate_passes_only_with_required any_format never never no_repeats
           (amounts ["100"; "200"]) required_rules (mkValidator [] []) ["amount"]
           (mkResult true [] [])).
  - reflexivity.
  - vm_compute. reflexivity.
  - reflexivity.
Defined.

Lemma validate_skips_absent_columns_witness :
  required_columns numeric_rules = None
  ∧ custom_validations numeric_rules = None
  ∧ (∀ c, c ∈ listed_columns numeric_rules
          → c ∉ columns (mkDataFrame ["Amount"] [[Val "n/a"]]))
  ∧ (validate any_format never never no_repeats
       (mkDataFrame ["Amount"] [[Val "n/a"]]) numeric_rules (mkValidator [] [])).1
    = Ok (mkResult true [] []).
Proof.
  assert (∀ c, c ∈ listed_columns numeric_rules
               → c ∉ columns (mkDataFrame ["Amount"] [[Val "n/a"]])) as Habs.
  { intros c Hc. vm_compute in Hc. apply list_elem_of_singleton in Hc. subst c.
    simpl. intros H. apply list_elem_of_singleton in H. discriminate. }
  split; [reflexivity|]. split; [reflexivity|]. split; [exact Habs|].
  apply (validate_skips_absent_columns any_format never never no_repeats
           (mkDataFrame ["Amount"] [[Val "n/a"]]) numeric_rules (mkValidator [] []));
    [reflexivity|reflexivity|exact Habs].
Defined.

Lemma validate_error_count_witness :
  (validate any_format never never no_repeats
     (amounts ["100"; "invalid"; "-7.5"; "x"]) numeric_rules (mkValidator [] [])).1
  = Ok (mkResult false [NonNumeric "amount" [1; 3]] [])
  ∧ length (errors (mkResult (bound := Z) false [NonNumeric "amount" [1; 3]] []))
    ≤ rule_count numeric_rules.
Proof.
  split; [vm_compute; reflexivity|].
  apply (validate_error_count any_format never never no_repeats
           (amounts ["100"; "invalid"; "-7.5"; "x"]) numeric_rules
           (mkValidator [] [])).
  vm_compute. reflexivity.
Defined.

(** ** The numeric check, character by character *)

Lemma all_chars_ext (p q : ascii → bool) s :
  (∀ c, p c = q c) → PyStr.all_chars p s = PyStr.all_chars q s.
Proof.
  intros H. induction s as [|a t IH]; [done|]. simpl. by rewrite H, IH.
Qed.

Lemma all_chars_remove p c s :
  PyStr.all_chars p (PyStr.replace (String c "") "" s)
  = PyStr.all_chars (λ a, Ascii.eqb c a || p a) s.
Proof.
  induction s as [|a t IH]; [done|]. rewrite CleanFacts.remove_cons. simpl.
  destruct (Ascii.eqb c a); simpl; by rewrite IH.
Qed.

Lemma isdigit_all_any r :
  PyStr.isdigit r = PyStr.all_chars PyStr.is_digit r && any_char PyStr.is_digit r.
Proof.
  unfold any_char. destruct r as [|a t]; [done|].
  unfold PyStr.isdigit. simpl.
  destruct (PyStr.is_digit a); simpl; [|done]. by rewrite andb_true_r.
Qed.

Lemma numeric_all c :
  Ascii.eqb "-"%char c || (Ascii.eqb "."%char c || PyStr.is_digit c)
  = numeric_char c.
Proof. CleanFacts.by_cases_on_char c. Qed.

Lemma numeric_any c :
  Ascii.eqb "-"%char c || (Ascii.eqb "."%char c || negb (PyStr.is_digit c))
  = negb (PyStr.is_digit c).
Proof. CleanFacts.by_cases_on_char c. Qed.

Lemma numeric_ok_text s :
  PyStr.isdigit (PyStr.replace "-" "" (PyStr.replace "." "" s))
  = PyStr.all_chars numeric_char s && any_char PyStr.is_digit s.
Proof.
  change (PyStr.replace "-" "" (PyStr.replace "." "" s))
    with (PyStr.replace (String "-"%char "") ""
            (PyStr.replace (String "."%char "") "" s)).
  rewrite isdigit_all_any. unfold any_char. rewrite !all_chars_remove. f_equal.
  - apply all_chars_ext. intros c.
    rewrite <- numeric_all.
    destruct (Ascii.eqb "."%char c), (Ascii.eqb "-"%char c); done.
  - f_equal. apply all_chars_ext. intros c.
    rewrite <- (numeric_any c).
    destruct (Ascii.eqb "."%char c), (Ascii.eqb "-"%char c); done.
Qed.

(** X21: [_validate_numeric_columns]: a missing cell passes the check; a cell
    with text passes exactly when the text is made of digits, ['.'] and
    ['-'] only and has at least one digit, wherever and however often the
    dots and dashes occur. *)
Theorem numeric_check_by_characters :
  numeric_ok NaN = true
  ∧ ∀ s, numeric_ok (Val s)
         = PyStr.all_chars numeric_char s && any_char PyStr.is_digit s.
Proof. split; [done|]. intros s. unfold numeric_ok. simpl. apply numeric_ok_text. Qed.

(** X22: [_validate_numeric_columns]: a signed decimal numeral (digits with at
    most one ['.'] among them, after an optional leading ['-']) always
    passes the check. *)
Theorem numerals_pass_numeric_check s :
  signed_decimal s = true → numeric_ok (Val s) = true.
Proof. apply signed_decimal_accepted. Qed.

Lemma numerals_pass_numeric_check_witness :
  signed_decimal "-750.50" = true ∧ numeric_ok (Val "-750.50") = true.
Proof.
  split; [reflexivity|].
  apply (numerals_pass_numeric_check "-750.50"). reflexivity.
Defined.

(** ** The date and uniqueness checks *)

(** X23: [_validate_dates]: the check reports nothing exactly when, in every
    listed column that the table has, each cell is missing, is already a
    datetime, or has a text that [strptime] parses under the column's
    format. *)
Theorem date_check_passes_iff {bound} strptime_ok df
    (date_formats : list (string * string)) :
  reported (_validate_dates strptime_ok (bound := bound) df date_formats) = []
  ↔ ∀ column date_format i x,
      (column, date_format) ∈ date_formats → column ∈ columns df →
      (i, x) ∈ column_items column df →
      match x with
      | Val s => strptime_ok s date_format = true
      | _ => True
      end.
Proof.
  rewrite reported_dates, flat_map_nil. split.
  - intros H column fmt i x Hin Hcol Hitem. specialize (H _ Hin). simpl in H.
    rewrite bool_decide_eq_true_2 in H by done.
    destruct (filter _ (column_items column df)) eqn:E; [|done].
    pose proof (filter_nil_none _ _ E (i, x) Hitem) as Hok. simpl in Hok.
    destruct x as [|s|s]; [done| |done]. simpl in Hok.
    by destruct (strptime_ok s fmt).
  - intros H [column fmt] Hin. destruct (bool_decide _) eqn:Hcol; [|done].
    apply bool_decide_eq_true in Hcol.
    assert (filter (λ it, invalid_date strptime_ok fmt it.2 = true)
              (column_items column df) = []) as ->; [|done].
    apply filter_nil_all. intros [i x] Hitem. simpl.
    specialize (H column fmt i x Hin Hcol Hitem).
    destruct x as [|s|s]; simpl; [done| |done]. by rewrite H.
Qed.

(** X24: [_validate_unique_columns]: which rows repeat an earlier value is
    decided by [duplicated()] of pandas (it compares values, not their
    texts), and the check follows it: a row is named in the error of a
    listed column that the table has exactly when [duplicated()] flags it
    in that column, and nothing is reported exactly when no row of any
    such column is flagged. *)
Theorem unique_check_flags_repeats {bound} duplicated df (unique : list string) :
  (reported (_validate_unique_columns (bound := bound) duplicated df unique) = []
   ↔ ∀ column i,
       column ∈ unique → column ∈ columns df →
       duplicated (column_cells column df) !! i ≠ Some true)
  ∧ ∀ column i,
      column ∈ unique → column ∈ columns df →
      ((∃ at_rows,
          Duplicates column at_rows
          ∈ reported (_validate_unique_columns (bound := bound) duplicated df unique)
          ∧ i ∈ at_rows)
       ↔ duplicated (column_cells column df) !! i = Some true).
Proof.
  rewrite reported_unique. split.
  - rewrite flat_map_nil. split.
    + intros H column i Hin Hcol. specialize (H column Hin). simpl in H.
      rewrite bool_decide_eq_true_2 in H by done.
      apply masked_rows_nil. by destruct (masked_rows _).
    + intros H column Hin. destruct (bool_decide _) eqn:Hcol; [|done].
      apply bool_decide_eq_true in Hcol.
      assert (masked_rows (duplicated (column_cells column df)) = []) as ->;
        [|done].
      apply masked_rows_nil. intros i. by apply H.
  - intros column i Hin Hcol. rewrite <- elem_of_masked_rows. split.
    + intros (at_rows & Hrep & Hi).
      apply list_elem_of_In, in_flat_map in Hrep as (c & _ & Hc).
      destruct (bool_decide (c ∈ columns df)); [|done].
      destruct (masked_rows (duplicated (column_cells c df))) as [|r rs] eqn:E;
        [done|].
      destruct Hc as [[= -> <-]|[]]. by rewrite E.
    + intros Hi. exists (masked_rows (duplicated (column_cells column df))).
      split; [|done]. apply list_elem_of_In, in_flat_map. exists column.
      split; [by apply list_elem_of_In|].
      rewrite bool_decide_eq_true_2 by done.
      destruct (masked_rows (duplicated (column_cells column df))); [|by left].
      by apply elem_of_nil in Hi.
Qed.

(** X25: [_run_custom_validations]: with custom validations as the only rules,
    [validate] returns, and the table passes exactly when no validation
    that has a function gets a result whose ['valid'] is false; a
    validation without a function, and a result without ['valid'], count
    as passed. *)
Theorem custom_validations_pass_iff {bound} strptime_ok
    (series_lt series_gt : list cell → bound → res (list bool)) duplicated
    df self customs :
  ∃ result,
    (validate strptime_ok series_lt series_gt duplicated df
       (mkRules None None None None None None (Some customs)) self).1
    = Ok result
    ∧ (is_valid result = true
       ↔ ∀ validation func,
           validation ∈ customs → function validation = Some func →
           valid (func df) ≠ Some false).
Proof.
  rewrite validate_run. simpl. eexists. split; [reflexivity|]. simpl.
  rewrite bool_decide_eq_true, length_zero_iff_nil.
  unfold all_reported. simpl. rewrite reported_custom, flat_map_nil. split.
  - intros H validation func Hin Hf Hv. specialize (H validation Hin).
    rewrite Hf, Hv in H. done.
  - intros H validation Hin. destruct (function validation) as [func|] eqn:Hf;
      [|done].
    specialize (H validation func Hin Hf).
    destruct (valid (func df)) as [[]|]; done.
Qed.

(** ** The bound checks *)

(** X26: [_validate_min_values] and [_validate_max_values]: the comparison
    of a column with its bound belongs to pandas, and what it raises (a
    [TypeError] for a column of texts and a number) is not caught.  Each
    check raises exactly what the comparison of a listed column that the
    table has raises; when it returns, every such comparison gave a mask,
    and the check reports nothing exactly when no mask holds at any row.
    Columns that the table lacks are not compared. *)
Theorem bound_checks_pass_iff {bound}
    (series_lt series_gt : list cell → bound → res (list bool))
    df (min_values max_values : list (string * bound)) :
  match outcome (_validate_min_values series_lt df min_values) with
  | Ok _ =>
      comparable series_lt df (Some min_values)
      ∧ (reported (_validate_min_values series_lt df min_values) = []
         ↔ ∀ column min_value mask i,
             (column, min_value) ∈ min_values → column ∈ columns df →
             series_lt (column_cells column df) min_value = Ok mask →
             mask !! i ≠ Some true)
  | Raise e =>
      ∃ column min_value,
        (column, min_value) ∈ min_values ∧ column ∈ columns df
        ∧ series_lt (column_cells column df) min_value = Raise e
  end
  ∧ match outcome (_validate_max_values series_gt df max_values) with
    | Ok _ =>
        comparable series_gt df (Some max_values)
        ∧ (reported (_validate_max_values series_gt df max_values) = []
           ↔ ∀ column max_value mask i,
               (column, max_value) ∈ max_values → column ∈ columns df →
               series_gt (column_cells column df) max_value = Ok mask →
               mask !! i ≠ Some true)
    | Raise e =>
        ∃ column max_value,
          (column, max_value) ∈ max_values ∧ column ∈ columns df
          ∧ series_gt (column_cells column df) max_value = Raise e
    end.
Proof.
  split.
  - apply (bound_loop_spec df series_lt BelowMinimum min_values).
  - apply (bound_loop_spec df series_gt AboveMaximum max_values).
Qed.
